(** * slmsuite.holography.analysis : region sampling, moments, array detection

    A shallow embedding of the image-analysis helpers of
    [slmsuite/holography/analysis.py] together with the properties that the
    specification states about them.

    Conventions of the embedding.
    - Python exceptions are values: a computation that may raise returns a
      [Py.result].
    - A numpy array is a nested list in row-major order; its shape is read off the
      nesting, as [np.shape] does for a rectangular array.
    - The code is written once over an interface of floating-point numbers
      ([Np.Float64]) with two implementations: exact rationals extended with
      not-a-number ([Np.npfloat]), over which the general statements are proved,
      and binary64 ([PrimFloat]), on which the code is evaluated where rounding
      or a square root matters.
    - Integer index arithmetic is done in [Z], with numpy's wrap-around of negative
      indices written out. *)

From Stdlib Require Import List ZArith QArith Qround Qreduction Bool Lia Lqa Arith.
From Stdlib Require Import Floats.
From Stdlib Require String.
Import ListNotations.

Set Implicit Arguments.

(** ** Python exceptions as results *)

Module Py.

Inductive exn : Set :=
| IndexError
| ValueError
| RuntimeError
| AssertionError.

Inductive result (A : Type) : Type :=
| Ok (a : A)
| Raise (e : exn).

Arguments Ok {A} a.
Arguments Raise {A} e.

Definition bind {A B : Type} (m : result A) (k : A -> result B) : result B :=
  match m with
  | Ok a => k a
  | Raise e => Raise e
  end.

(** [for x in l: ...] where the body may raise: the first exception wins. *)
Fixpoint mapM {A B : Type} (f : A -> result B) (l : list A) : result (list B) :=
  match l with
  | [] => Ok []
  | a :: l' =>
      match f a with
      | Ok b =>
          match mapM f l' with
          | Ok bs => Ok (b :: bs)
          | Raise e => Raise e
          end
      | Raise e => Raise e
      end
  end.

(** [assert c] *)
Definition assert (c : bool) : result unit :=
  if c then Ok tt else Raise AssertionError.

(** [try: body except Exception: handler] for a handler that cannot raise. *)
Definition try_except {A : Type} (body : result A) (handler : exn -> A) : A :=
  match body with
  | Ok a => a
  | Raise e => handler e
  end.

End Py.

Import Py.

Declare Scope py_scope.
Delimit Scope py_scope with py.
Notation "x <- m ;; k" := (Py.bind m (fun x => k))
  (at level 61, m at next level, right associativity) : py_scope.
Notation "m ;;; k" := (Py.bind m (fun _ => k))
  (at level 61, right associativity) : py_scope.
Open Scope py_scope.

(** ** The fragment of numpy the code uses *)

Module Np.

(** The floating-point numbers of the arrays: constants, the four operations,
    the not-a-number value and its test, and [==]. *)
Class Float64 (F : Type) : Type := {
  of_Q : Q -> F;
  nan : F;
  add : F -> F -> F;
  sub : F -> F -> F;
  mul : F -> F -> F;
  div : F -> F -> F;
  is_nan : F -> bool;
  eqb : F -> F -> bool
}.

(** Exact arithmetic: a rational, or not-a-number. *)
Inductive npfloat : Type :=
| NaN
| Fin (q : Q).

Definition lift2 (op : Q -> Q -> Q) (x y : npfloat) : npfloat :=
  match x, y with
  | Fin a, Fin b => Fin (op a b)
  | _, _ => NaN
  end.

(** Infinities are not part of the exact numbers: a division by zero gives
    not-a-number. *)
Definition npdiv (x y : npfloat) : npfloat :=
  match x, y with
  | Fin a, Fin b => if Qeq_bool b 0 then NaN else Fin (a / b)
  | _, _ => NaN
  end.

#[export] Instance exact : Float64 npfloat := {
  of_Q := Fin;
  nan := NaN;
  add := lift2 Qplus;
  sub := lift2 Qminus;
  mul := lift2 Qmult;
  div := npdiv;
  is_nan := fun x => match x with NaN => true | Fin _ => false end;
  eqb := fun x y => match x, y with
                    | Fin a, Fin b => Qeq_bool a b
                    | _, _ => false
                    end
}.

(** Equality of exact values, up to the representation of a rational. *)
Definition feq (x y : npfloat) : Prop :=
  match x, y with
  | NaN, NaN => True
  | Fin a, Fin b => a == b
  | _, _ => False
  end.

(** The binary64 number nearest to an integer. *)
Definition float_of_Z (z : Z) : float :=
  SF2Prim (binary_normalize prec emax z 0 false).

#[export] Instance binary64 : Float64 float := {
  of_Q := fun q => PrimFloat.div (float_of_Z (Qnum q)) (float_of_Z (Zpos (Qden q)));
  nan := PrimFloat.nan;
  add := PrimFloat.add;
  sub := PrimFloat.sub;
  mul := PrimFloat.mul;
  div := PrimFloat.div;
  is_nan := PrimFloat.is_nan;
  eqb := PrimFloat.eqb
}.

(** [np.power(x, m)] for a non-negative integer [m]. *)
Fixpoint power {F : Type} `{Float64 F} (x : F) (m : nat) : F :=
  match m with
  | O => of_Q 1
  | S m' => mul x (power x m')
  end.

(** What [take] needs of an element type: a zero, a sum, and what happens when
    [np.nan] is stored into an array of that type. *)
Class Dtype (T : Type) : Type := {
  dzero : T;
  dadd : T -> T -> T;
  store_nan : result T
}.

#[export] Instance float_dtype {F : Type} `{Float64 F} : Dtype F := {
  dzero := of_Q 0;
  dadd := add;
  store_nan := Ok nan
}.

(** An integer image cannot hold [np.nan]: the store raises [ValueError]. *)
#[export] Instance int_dtype : Dtype Z := {
  dzero := 0%Z;
  dadd := Z.add;
  store_nan := Raise ValueError
}.

(** [np.sum] over the entries of a one-dimensional array. *)
Definition sum {T : Type} `{Dtype T} (l : list T) : T :=
  fold_left dadd l dzero.

(** [np.nansum]: not-a-number entries count as zero. *)
Definition nansum {F : Type} `{Float64 F} (l : list F) : F :=
  sum (map (fun x => if is_nan x then of_Q 0 else x) l).

(** [np.arange(n)] *)
Definition arange (n : nat) : list Z := map Z.of_nat (seq 0 n).

(** [float.astype(int)] and [int(float)]: truncation towards zero. *)
Definition astype_int (q : Q) : Z :=
  if Qle_bool 0 q then Qfloor q else Qceiling q.

(** [np.clip(a, lo, hi)] is [minimum(maximum(a, lo), hi)]. *)
Definition clip (a lo hi : Z) : Z := Z.min (Z.max a lo) hi.

(** An index into an axis of length [n]: negative indices count from the end,
    anything outside [-n, n) raises. *)
Definition norm_index (n : nat) (i : Z) : result nat :=
  if ((0 <=? i) && (i <? Z.of_nat n))%Z then Ok (Z.to_nat i)
  else if ((- Z.of_nat n <=? i) && (i <? 0))%Z then Ok (Z.to_nat (i + Z.of_nat n))
  else Raise IndexError.

(** [a[i]] *)
Definition getitem {T : Type} (a : list T) (i : Z) : result T :=
  k <- norm_index (length a) i ;;
  match nth_error a k with
  | Some v => Ok v
  | None => Raise IndexError
  end.

(** [a[iy, ix]] for a two-dimensional array of shape [(h, w)]. *)
Definition getitem2 {T : Type} (a : list (list T)) (h w : nat) (iy ix : Z)
  : result T :=
  y <- norm_index h iy ;;
  x <- norm_index w ix ;;
  match nth_error a y with
  | Some row =>
      match nth_error row x with
      | Some v => Ok v
      | None => Raise IndexError
      end
  | None => Raise IndexError
  end.

(** The list [l] with its entry [i] replaced by [v]. *)
Fixpoint list_set {T : Type} (i : nat) (v : T) (l : list T) : list T :=
  match l, i with
  | [], _ => []
  | _ :: l', O => v :: l'
  | a :: l', S i' => a :: list_set i' v l'
  end.

(** [a[iy, ix] = v] for a two-dimensional array of shape [(h, w)]. *)
Definition setitem2 {T : Type} (a : list (list T)) (h w : nat) (iy ix : Z) (v : T)
  : result (list (list T)) :=
  y <- norm_index h iy ;;
  x <- norm_index w ix ;;
  match nth_error a y with
  | Some row => Ok (list_set y (list_set x v row) a)
  | None => Raise IndexError
  end.

(** [np.zeros((h, w))] *)
Definition zeros (h w : nat) : list (list Z) := repeat (repeat 0%Z w) h.

(** [n] consecutive blocks of [size] entries. *)
Fixpoint chunks {T : Type} (size n : nat) (l : list T) : list (list T) :=
  match n with
  | O => []
  | S n' => firstn size l :: chunks size n' (skipn size l)
  end.

(** [np.reshape(a, (d0, d1, d2))] of the entries [flat] of [a] in row-major order:
    the number of entries must agree. *)
Definition reshape3 {T : Type} (flat : list T) (d0 d1 d2 : nat)
  : result (list (list (list T))) :=
  if (length flat =? d0 * d1 * d2)%nat
  then Ok (map (chunks d2 d1) (chunks (d1 * d2) d0 flat))
  else Raise ValueError.

(** The arrays [take] accepts as [images]. *)
Inductive ndimage (T : Type) : Type :=
| Img2 (a : list (list T))           (* one image, shape (H, W) *)
| Img3 (a : list (list (list T)))    (* a stack, shape (N, H, W) *)
| ImgRank (shape : list nat).        (* an array of any other rank *)

Arguments Img2 {T} a.
Arguments Img3 {T} a.
Arguments ImgRank {T} shape.

(** [np.shape] *)
Definition shape {T : Type} (images : ndimage T) : list nat :=
  match images with
  | Img2 a => [length a; length (hd [] a)]
  | Img3 a => [length a; length (hd [] a); length (hd [] (hd [] a))]
  | ImgRank s => s
  end.

(** [shape[-1]] and [shape[-2]] *)
Definition shape_last (s : list nat) : result nat :=
  match rev s with
  | d :: _ => Ok d
  | [] => Raise IndexError
  end.

Definition shape_last2 (s : list nat) : result nat :=
  match rev s with
  | _ :: d :: _ => Ok d
  | _ => Raise IndexError
  end.

(** [np.sort] of a one-dimensional integer array. *)
Fixpoint insert_sorted (x : Z) (l : list Z) : list Z :=
  match l with
  | [] => [x]
  | y :: l' => if (x <=? y)%Z then x :: l else y :: insert_sorted x l'
  end.

Definition sort (l : list Z) : list Z := fold_right insert_sorted [] l.

(** [a.T] of a two-dimensional array with [w] columns. *)
Definition transpose {T : Type} (w : nat) (a : list (list T)) : list (list T) :=
  map (fun j => flat_map (fun row => match nth_error row j with
                                     | Some v => [v]
                                     | None => []
                                     end) a)
      (seq 0 w).

(** [np.rot90(a, k)] of a two-dimensional array with [w] columns, as numpy
    computes it from flips and a transposition, [k] taken modulo 4. *)
Definition rot90 {T : Type} (w : nat) (a : list (list T)) (k : nat)
  : list (list T) :=
  match (k mod 4)%nat with
  | 0%nat => a
  | 1%nat => transpose w (map (@rev T) a)
  | 2%nat => map (@rev T) (rev a)
  | _ => map (@rev T) (transpose w a)
  end.

(** [np.amax] and [np.amin] of a one-dimensional array: empty arrays raise. *)
Definition amax (l : list Q) : result Q :=
  match l with
  | [] => Raise ValueError
  | a :: l' => Ok (fold_left (fun m x => if Qle_bool m x then x else m) l' a)
  end.

Definition amin (l : list Q) : result Q :=
  match l with
  | [] => Raise ValueError
  | a :: l' => Ok (fold_left (fun m x => if Qle_bool x m then x else m) l' a)
  end.

(** [np.fliplr] and [np.flipud] of a two-dimensional array. *)
Definition fliplr {T : Type} (a : list (list T)) : list (list T) :=
  map (@rev T) a.

Definition flipud {T : Type} (a : list (list T)) : list (list T) := rev a.

(** [np.amin] and [np.amax] of a float array: a not-a-number entry makes the
    result not-a-number, empty arrays raise. *)
Definition fmin (x y : npfloat) : npfloat :=
  match x, y with
  | Fin a, Fin b => if Qle_bool b a then Fin b else Fin a
  | _, _ => NaN
  end.

Definition fmax (x y : npfloat) : npfloat :=
  match x, y with
  | Fin a, Fin b => if Qle_bool a b then Fin b else Fin a
  | _, _ => NaN
  end.

Definition famin (l : list npfloat) : result npfloat :=
  match l with
  | [] => Raise ValueError
  | a :: l' => Ok (fold_left fmin l' a)
  end.

Definition famax (l : list npfloat) : result npfloat :=
  match l with
  | [] => Raise ValueError
  | a :: l' => Ok (fold_left fmax l' a)
  end.

End Np.

Import Np.

Module Analysis.

(** ** [take]: the region sampler *)

(** What [take] returns: per-region sums when [integrate], cropped regions
    otherwise. *)
Inductive take_out (T : Type) : Type :=
| Sums (s : list (list T))
| Crops (c : list (list (list T))).

Arguments Sums {T} s.
Arguments Crops {T} c.

(** [np.arange(n) - (int(n / 2) if centered else 0)] *)
Definition edge (n : nat) (centered : bool) : list Z :=
  map (fun i => (i - (if centered then Z.of_nat n / 2 else 0))%Z) (arange n).

(** [np.meshgrid(edge_x, edge_y)], both results ravelled. *)
Definition region_x (edge_x edge_y : list Z) : list Z :=
  concat (map (fun _ => edge_x) edge_y).

Definition region_y (edge_x edge_y : list Z) : list Z :=
  concat (map (fun ey => map (fun _ => ey) edge_x) edge_y).

(** [np.add(region.ravel()[:, np.newaxis].T, coordinate[:, np.newaxis]).astype(int)]:
    one row of pixel indices per vector. *)
Definition integration (region : list Z) (coordinate : list Q) : list (list Z) :=
  map (fun c => map (fun r => astype_int (inject_Z r + c)) region) coordinate.

(** The out-of-range test of one index pair. *)
Definition out_of_range (h w : nat) (iy ix : Z) : bool :=
  ((ix <? 0) || (ix >=? Z.of_nat w) || (iy <? 0) || (iy >=? Z.of_nat h))%Z.

(** The boolean [mask] of the out-of-range entries. *)
Definition range_mask (h w : nat) (iys ixs : list (list Z)) : list (list bool) :=
  map (fun row : list Z * list Z =>
         map (fun p : Z * Z => out_of_range h w (fst p) (snd p))
             (combine (fst row) (snd row)))
      (combine iys ixs).

(** [a[integration_y, integration_x]] for one image [a] of shape [(h, w)]. *)
Definition gather {T : Type} (a : list (list T)) (h w : nat)
  (iys ixs : list (list Z)) : result (list (list T)) :=
  mapM (fun row : list Z * list Z =>
          mapM (fun p : Z * Z => getitem2 a h w (fst p) (snd p))
               (combine (fst row) (snd row)))
       (combine iys ixs).

(** [result[:, mask] = fill] on one image of the result. *)
Definition fill_masked {T : Type} (fill : T) (mask : list (list bool))
  (res : list (list T)) : list (list T) :=
  map (fun row : list bool * list T =>
         map (fun p : bool * T => if fst p then fill else snd p)
             (combine (fst row) (snd row)))
      (combine mask res).

(** [take(images, vectors, size, centered, integrate, clip)], with [size] a pair
    [(w, h)] and [vectors] the columns of the [(2, K)] array that
    [format_2vectors] returns.  The plot is not part of the model. *)
Definition take {T : Type} `{Dtype T} (images : ndimage T) (vectors : list (Q * Q))
  (size : nat * nat) (centered integrate clip : bool) : result (take_out T) :=
  let edge_x := edge (fst size) centered in
  let edge_y := edge (snd size) centered in
  let integration_x := integration (region_x edge_x edge_y) (map fst vectors) in
  let integration_y := integration (region_y edge_x edge_y) (map snd vectors) in
  let shp := shape images in
  clipped <-
    (if clip then
       w <- shape_last shp ;;
       h <- shape_last2 shp ;;
       Ok (Some (range_mask h w integration_y integration_x),
           map (map (fun ix => Np.clip ix 0 (Z.of_nat w - 1))) integration_x,
           map (map (fun iy => Np.clip iy 0 (Z.of_nat h - 1))) integration_y)
     else Ok (None, integration_x, integration_y)) ;;
  let '(mask, integration_x, integration_y) := clipped in
  result <-
    match images with
    | Img2 a =>
        r <- gather a (length a) (length (hd [] a)) integration_y integration_x ;;
        Ok [r]
    | Img3 a =>
        mapM (fun img => gather img (length (hd [] a)) (length (hd [] (hd [] a)))
                                integration_y integration_x) a
    | ImgRank _ => Raise RuntimeError
    end ;;
  let result :=
    match mask with
    | Some m =>
        let fill := try_except store_nan (fun _ => dzero) in
        map (fill_masked fill m) result
    | None => result
    end in
  if integrate then Ok (Sums (map (map sum) result))
  else
    r <- reshape3 (concat (concat result)) (length vectors) (snd size) (fst size) ;;
    Ok (Crops r).

(** ** The moment engine *)

Section Moments.

Context {F : Type} `{Float64 F}.

(** [np.sum] or [np.nansum], as [image_moment] selects it. *)
Definition np_sum (nansum : bool) (l : list F) : F :=
  if nansum then Np.nansum l else Np.sum l.

(** [np.reciprocal(n, where=n != 0, out=np.zeros(..))] on one entry: the
    reciprocal is only computed where [n] is not zero, and the output keeps its
    zero elsewhere. *)
Definition reciprocal_where (n : F) : F :=
  if negb (eqb n (of_Q 0)) then div (of_Q 1) n else of_Q 0.

(** The [centers] argument: one pair [(c_x, c_y)], or one pair per image as a
    [(2, image_count)] array. *)
Inductive centers_arg : Type :=
| CenterPair (c_x c_y : Q)
| CenterArrays (c_x c_y : list Q).

(** [np.reshape(centers[i], (img_count, 1, 1))], or the scalar broadcast over the
    stack. *)
Definition centers_per_image (img_count : nat) (centers : centers_arg)
  : result (list (Q * Q)) :=
  match centers with
  | CenterPair c_x c_y => Ok (repeat (c_x, c_y) img_count)
  | CenterArrays c_x c_y =>
      if ((length c_x =? img_count) && (length c_y =? img_count))%nat
      then Ok (combine c_x c_y)
      else Raise ValueError
  end.

(** [np.power(np.arange(w) - (w - 1) / 2.0, m) - c] *)
Definition trial_edge (w m : nat) (c : Q) : list F :=
  map (fun i => sub (power (sub (of_Q (inject_Z i))
                                (div (of_Q (inject_Z (Z.of_nat w - 1))) (of_Q 2)))
                           m)
                    (of_Q c))
      (arange w).

(** [image * edge_x], the edge broadcast along the rows. *)
Definition times_edge_x (img : list (list F)) (edge_x : list F) : list (list F) :=
  map (fun row => map (fun pe : F * F => mul (fst pe) (snd pe)) (combine row edge_x))
      img.

(** [image * edge_y], the edge broadcast along the columns. *)
Definition times_edge_y (img : list (list F)) (edge_y : list F) : list (list F) :=
  map (fun re : list F * F => map (fun p => mul p (snd re)) (fst re))
      (combine img edge_y).

(** The images of [images] as a stack: a single image becomes [(1, h, w)], and the
    unpacking [(img_count, w_y, w_x) = images.shape] fails for other ranks. *)
Definition as_stack (images : ndimage F) : result (list (list (list F))) :=
  match images with
  | Img2 a => Ok [a]
  | Img3 a => Ok a
  | ImgRank _ => Raise ValueError
  end.

Definition image_moment (images : ndimage F) (moment : nat * nat)
  (centers : centers_arg) (normalize nansum : bool) : result (list F) :=
  stack <- as_stack images ;;
  let img_count := length stack in
  let w_y := length (hd [] stack) in
  let w_x := length (hd [] (hd [] stack)) in
  cs <- centers_per_image img_count centers ;;
  let edge_x := fun c : Q * Q => trial_edge w_x (fst moment) (fst c) in
  let edge_y := fun c : Q * Q => trial_edge w_y (snd moment) (snd c) in
  let reciprical :=
    if normalize
    then map (fun img => reciprocal_where (np_sum nansum (concat img))) stack
    else map (fun _ => of_Q 1) stack in
  let per_image := combine (combine stack cs) reciprical in
  if (snd moment =? 0)%nat then          (* x case *)
    Ok (map (fun t : list (list F) * (Q * Q) * F =>
               let '(img, c, r) := t in
               mul (np_sum nansum (concat (times_edge_x img (edge_x c)))) r)
            per_image)
  else if (fst moment =? 0)%nat then     (* y case *)
    Ok (map (fun t : list (list F) * (Q * Q) * F =>
               let '(img, c, r) := t in
               mul (np_sum nansum (concat (times_edge_y img (edge_y c)))) r)
            per_image)
  else if (negb (snd moment =? 0) && negb (snd moment =? 0))%nat then  (* shear *)
    Ok (map (fun t : list (list F) * (Q * Q) * F =>
               let '(img, c, r) := t in
               mul (np_sum nansum
                      (concat (times_edge_y (times_edge_x img (edge_x c))
                                            (edge_y c)))) r)
            per_image)
  else                                   (* 0,0 (norm) case *)
    if normalize then Ok (repeat (of_Q 1) img_count)
    else Ok (map (fun img => np_sum nansum (concat img)) stack).

Definition image_normalization (images : ndimage F) (nansum : bool)
  : result (list F) :=
  image_moment images (0, 0)%nat (CenterPair 0 0) false nansum.

(** [image_normalize] on a stack of shape [(image_count, h, w)]. *)
Definition image_normalize (images : list (list (list F))) (nansum : bool)
  : result (list (list (list F))) :=
  normalization <- image_normalization (Img3 images) nansum ;;
  let reciprical := map reciprocal_where normalization in
  Ok (map (fun ir : list (list F) * F => map (map (fun p => mul p (snd ir))) (fst ir))
          (combine images reciprical)).

(** One column [(M20, M02, M11)] of [variances] in [image_ellipticity]. *)
Definition ellipticity_of (sqrt : F -> F) (m20 m02 m11 : F) : F :=
  let half_trace := div (add m20 m02) (of_Q 2) in
  let determinant := sub (mul m20 m20) (mul m11 m11) in
  let eig_half_difference := sqrt (sub (mul half_trace half_trace) determinant) in
  let eig_plus := add half_trace eig_half_difference in
  let eig_minus := sub half_trace eig_half_difference in
  sub (of_Q 1) (div eig_minus eig_plus).

(** The ellipticity as the specification words it: [1 - minor / major] for the
    eigenvalues of [[M20, M11], [M11, M02]] by half-trace and determinant, the
    determinant being [M20 * M02 - M11 * M11]. *)
Definition spec_ellipticity_of (sqrt : F -> F) (m20 m02 m11 : F) : F :=
  let half_trace := div (add m20 m02) (of_Q 2) in
  let determinant := sub (mul m20 m02) (mul m11 m11) in
  let eig_half_difference := sqrt (sub (mul half_trace half_trace) determinant) in
  let eig_major := add half_trace eig_half_difference in
  let eig_minor := sub half_trace eig_half_difference in
  sub (of_Q 1) (div eig_minor eig_major).

End Moments.

(** [image_ellipticity(variances)] on binary64 numbers, [variances] being the three
    rows [M20], [M02], [M11] of the [(3, image_count)] array. *)
Definition image_ellipticity (variances : list float * list float * list float)
  : list float :=
  let '(m20, m02, m11) := variances in
  map (fun t : float * float * float =>
         let '(a, b, c) := t in ellipticity_of PrimFloat.sqrt a b c)
      (combine (combine m20 m02) m11).

Definition spec_ellipticity (variances : list float * list float * list float)
  : list float :=
  let '(m20, m02, m11) := variances in
  map (fun t : float * float * float =>
         let '(a, b, c) := t in spec_ellipticity_of PrimFloat.sqrt a b c)
      (combine (combine m20 m02) m11).

(** ** Conversion to 8 bits *)

Section Make8bit.

(** What the conversion of a float to [numpy.uint8] gives where C leaves it
    undefined: for not-a-number, and for a value whose integer part is outside
    [0, 255]. *)
Variable cast_undefined : npfloat -> Z.

(** [float.astype(np.uint8)] *)
Definition astype_uint8 (x : npfloat) : Z :=
  match x with
  | Fin q =>
      let z := astype_int q in
      if ((0 <=? z) && (z <? 256))%Z then z else cast_undefined x
  | NaN => cast_undefined x
  end.

(** [_make_8bit(img)] for a two-dimensional image already of float type. *)
Definition _make_8bit (img : list (list npfloat)) : result (list (list Z)) :=
  lo <- famin (concat img) ;;
  let img := map (map (fun p => sub p lo)) img in
  hi <- famax (concat img) ;;
  let img := map (map (fun p => mul (div p hi) (of_Q (2 ^ 8 - 1)))) img in
  Ok (map (map astype_uint8) img).

End Make8bit.

(** ** Array detection: kernel, parity check and choice of the orientation *)

(** The 2x2 matrix [[m00, m01], [m10, m11]]. *)
Record mat2 : Type := Mat2 { m00 : Q; m01 : Q; m10 : Q; m11 : Q }.

(** [np.matmul] of two 2x2 matrices, and of a matrix with one column. *)
Definition matmul (a b : mat2) : mat2 :=
  Mat2 (m00 a * m00 b + m01 a * m10 b) (m00 a * m01 b + m01 a * m11 b)
       (m10 a * m00 b + m11 a * m10 b) (m10 a * m01 b + m11 a * m11 b).

Definition matvec (a : mat2) (c : Q * Q) : Q * Q :=
  (m00 a * fst c + m01 a * snd c, m10 a * fst c + m11 a * snd c).

(** [np.arange(-(n - 1) / 2.0, (n + 1) / 2.0)]: the [n] half-integers centred on
    zero.  Numbers are kept in lowest terms, so that equal numbers are equal
    terms. *)
Definition half_range (n : nat) : list Q :=
  map (fun i => Qred (- (inject_Z (Z.of_nat n) - 1) / 2 + inject_Z i)) (arange n).

(** [np.vstack((x_grid.ravel(), y_grid.ravel()))] for
    [x_grid, y_grid = np.meshgrid(xs, ys)], as the list of its columns. *)
Definition grid (xs ys : list Q) : list (Q * Q) :=
  flat_map (fun y => map (fun x => (x, y)) xs) ys.

Definition centers_of (size : nat * nat) : list (Q * Q) :=
  grid (half_range (fst size)) (half_range (snd size)).

(** The array padded by one: [pad = 1], [p = int(pad * 2)]. *)
Definition centers_larger_of (size : nat * nat) : list (Q * Q) :=
  grid (half_range (fst size + 2)) (half_range (snd size + 2)).

(** [int(np.linalg.norm(v))] for [v = (a, b)]: the integer part of a square root
    is the integer square root of the integer part. *)
Definition int_norm (a b : Q) : Z := Z.sqrt (Qfloor (a * a + b * b)).

(** [int(np.amax([norm(M[:, 0]), norm(M[:, 1])]))] *)
Definition max_pitch_of (M : mat2) : Z :=
  Z.max (int_norm (m00 M) (m10 M)) (int_norm (m01 M) (m11 M)).

(** The shape [(rows, columns)] of the kernel canvas. *)
Definition canvas_shape (M_trial : mat2) (size : nat * nat) : result (nat * nat) :=
  let larger := map (matvec M_trial) (centers_larger_of size) in
  let max_pitch := max_pitch_of M_trial in
  ymax <- amax (map snd larger) ;;
  ymin <- amin (map snd larger) ;;
  xmax <- amax (map fst larger) ;;
  xmin <- amin (map fst larger) ;;
  Ok (Z.to_nat (astype_int (ymax - ymin + inject_Z max_pitch)),
      Z.to_nat (astype_int (xmax - xmin + inject_Z max_pitch))).

(** [rotated += np.flip(mask.shape)[:, np.newaxis] / 2] *)
Definition recentre (shp : nat * nat) (c : Q * Q) : Q * Q :=
  (fst c + inject_Z (Z.of_nat (snd shp)) / 2,
   snd c + inject_Z (Z.of_nat (fst shp)) / 2).

(** The pixel [(row, column)] of a recentred point:
    [(rotated[1].astype(int), rotated[0].astype(int))]. *)
Definition pixel_of (c : Q * Q) : Z * Z := (astype_int (snd c), astype_int (fst c)).

(** [mask[ys, xs] = v] *)
Fixpoint assign (mask : list (list Z)) (h w : nat) (pixels : list (Z * Z)) (v : Z)
  : result (list (list Z)) :=
  match pixels with
  | [] => Ok mask
  | p :: pixels' =>
      mask' <- setitem2 mask h w (fst p) (snd p) v ;;
      assign mask' h w pixels' v
  end.

(** The recentred lattice points of the array and of the padded array. *)
Definition rotated_centers (M_trial : mat2) (size shp : nat * nat) : list (Q * Q) :=
  map (fun c => recentre shp (matvec M_trial c)) (centers_of size).

Definition rotated_centers_larger (M_trial : mat2) (size shp : nat * nat)
  : list (Q * Q) :=
  map (fun c => recentre shp (matvec M_trial c)) (centers_larger_of size).

(** The scoring mask before its rescaling to 8 bit: [-area] on the padded array,
    then [perimeter] on the array.  Its entries are integers. *)
Definition scoring_mask (M_trial : mat2) (size : nat * nat)
  : result (list (list Z)) :=
  shp <- canvas_shape M_trial size ;;
  let area := (Z.of_nat (fst size) * Z.of_nat (snd size))%Z in
  let perimeter := (2 * (Z.of_nat (fst size) + Z.of_nat (snd size)) + 4)%Z in
  mask <- assign (zeros (fst shp) (snd shp)) (fst shp) (snd shp)
                 (map pixel_of (rotated_centers_larger M_trial size shp)) (- area) ;;
  assign mask (fst shp) (snd shp)
         (map pixel_of (rotated_centers M_trial size shp)) perimeter.

(** The sum of all entries of a mask. *)
Definition total (mask : list (list Z)) : Z := Np.sum (map Np.sum mask).

(** *** The parity check *)

(** [spotpowers <= np.sort(spotpowers.ravel())[1]] *)
Definition spotbooleans_of (spotpowers : list (list Z)) : result (list (list bool)) :=
  second <- getitem (sort (concat spotpowers)) 1 ;;
  Ok (map (map (fun p => (p <=? second)%Z)) spotpowers).

(** [np.sum] of a boolean array counts its true entries. *)
Definition count_true (l : list bool) : nat := length (filter id l).

(** [spotbooleans[[-1, -1, 0, 0], [-1, 0, 0, -1]]] for an array of shape
    [(ny, nx)]. *)
Definition corners_of (spotbooleans : list (list bool)) (ny nx : nat)
  : result (list bool) :=
  mapM (fun p : Z * Z => getitem2 spotbooleans ny nx (fst p) (snd p))
       [(-1, -1); (-1, 0); (0, 0); (0, -1)]%Z.

(** [np.where(corners)[0][0]]: the position of the first true entry. *)
Fixpoint first_true (l : list bool) : result nat :=
  match l with
  | [] => Raise IndexError
  | true :: _ => Ok O
  | false :: l' => k <- first_true l' ;; Ok (S k)
  end.

(** [int(rotated[-1, -2]) - int(rotated[-2, -1])] for an array of shape [(h, w)]. *)
Definition flip_parity_of (rotated : list (list bool)) (h w : nat) : result Z :=
  a <- getitem2 rotated h w (-1) (-2) ;;
  b <- getitem2 rotated h w (-2) (-1) ;;
  Ok (Z.b2z a - Z.b2z b)%Z.

(** [np.cos(theta)] and [np.sin(theta)] for [theta = rotation_parity * np.pi / 2]
    and the four values the parity takes, as binary64 gives them: the cosine of
    the binary64 quarter turn is [6.123233995736766e-17], not zero, and so on.
    Every value is the exact value of the floating-point number. *)
Definition cos_quarter (rotation_parity : nat) : Q :=
  match rotation_parity with
  | 0%nat => 1
  | 1%nat => 4967757600021511 # (2 ^ 106)
  | 2%nat => - (1)
  | _ => - (3725818200016133 # (2 ^ 104))
  end.

Definition sin_quarter (rotation_parity : nat) : Q :=
  match rotation_parity with
  | 0%nat => 0
  | 1%nat => 1
  | 2%nat => 4967757600021511 # (2 ^ 105)
  | _ => - (1)
  end.

(** [np.array([[c, -s], [s, c]])] *)
Definition rotation_of (rotation_parity : nat) : mat2 :=
  let c := cos_quarter rotation_parity in
  let s := sin_quarter rotation_parity in
  Mat2 c (- s) s c.

(** The body of the [try] once the spot powers, an array of shape [(ny, nx)], are
    known: three assertions, then the corrected matrix. *)
Definition parity_fix (M_trial : mat2) (spotpowers : list (list Z)) (ny nx : nat)
  : result mat2 :=
  spotbooleans <- spotbooleans_of spotpowers ;;
  assert (count_true (concat spotbooleans) =? 2)%nat ;;;
  corners <- corners_of spotbooleans ny nx ;;
  assert (count_true corners =? 1)%nat ;;;
  rotation_parity <- first_true corners ;;
  let spotbooleans_rotated := rot90 nx spotbooleans rotation_parity in
  let rotation := rotation_of rotation_parity in
  flip_parity <-
    (if Nat.even rotation_parity
     then flip_parity_of spotbooleans_rotated ny nx
     else flip_parity_of spotbooleans_rotated nx ny) ;;
  assert (Z.abs flip_parity =? 1)%Z ;;;
  let flip := if (flip_parity =? 1)%Z then Mat2 1 0 0 1 else Mat2 0 1 1 0 in
  Ok (matmul M_trial (matmul rotation flip)).

(** The integrated power of every expected spot: the matched window of the
    camera image is cut out at [max_loc], and a square of half-width [w] is summed
    around every lattice point. *)
Definition spotpowers_of (cv2img : list (list Z)) (mask_shape : nat * nat)
  (max_loc : Z * Z) (max_pitch : Z) (centers : list (Q * Q)) (size : nat * nat)
  : result (list (list Z)) :=
  matched <-
    mapM (fun r => mapM (fun c => getitem2 cv2img (length cv2img)
                                           (length (hd [] cv2img))
                                           (snd max_loc + r) (fst max_loc + c))
                        (arange (snd mask_shape)))
         (arange (fst mask_shape)) ;;
  let w := Z.max 1 (astype_int ((1 # 10) * inject_Z max_pitch)) in
  let edge := map (fun i => (i - w)%Z) (arange (Z.to_nat (2 * w + 1))) in
  let rotated_integration_x := integration (region_x edge edge) (map fst centers) in
  let rotated_integration_y := integration (region_y edge edge) (map snd centers) in
  sampled <- gather matched (fst mask_shape) (snd mask_shape)
                    rotated_integration_y rotated_integration_x ;;
  Ok (chunks (fst size) (snd size) (map Np.sum sampled)).

(** One entry of [results]: [(max_val, b_fixed, M_fixed, parity_success)]. *)
Record trial_result : Type := TrialResult {
  max_val : Q;
  b_fixed : Q * Q;
  M_fixed : mat2;
  parity_success : bool
}.

(** The choice among [results] at the end of the loop. *)
Definition select_index (results : list trial_result) : result nat :=
  match results with
  | [_] => Ok 0%nat
  | r0 :: r1 :: _ =>
      if Bool.eqb (parity_success r0) (parity_success r1)
      then Ok (if Qle_bool (max_val r1) (max_val r0) then 0%nat else 1%nat)
      else Ok (if parity_success r1 then 1%nat else 0%nat)
  | [] => Raise IndexError
  end.

(** [b_fixed = max_loc + np.flip(mask.shape) / 2] *)
Definition offset_of (max_loc : Z * Z) (shp : nat * nat) : Q * Q :=
  (inject_Z (fst max_loc) + inject_Z (Z.of_nat (snd shp)) / 2,
   inject_Z (snd max_loc) + inject_Z (Z.of_nat (fst shp)) / 2).

Section Detect.

(** The numbers of the offset ["b"]. *)
Context {F : Type} `{Float64 F}.

(** What the conversion to [numpy.uint8] leaves undefined, see [_make_8bit]. *)
Variable cast_undefined : npfloat -> Z.

(** Steps 1 and 2 of the detection, the estimate of [M] from the peaks of the
    Fourier transform, and [cv2.matchTemplate] followed by [cv2.minMaxLoc] on the
    8-bit mask, which returns [(max_val, max_loc)] with [max_loc = (x, y)], are
    taken as given. *)
Variable fourier_estimate : list (list Z) -> result mat2.
Variable match_template : list (list Z) -> list (list Z) -> result (Q * (Z * Z)).

(** What one pass of [hone()] measures on [img] for an orientation [(M, b)] and
    a window size [psf > 0]: the regions that [take] crops around the guessed
    positions, filtered by scipy's [gaussian_filter1d], the offsets of their
    peaks and the means of those offsets, handed to [format_2vectors], which is
    not part of this file.  The measurement is taken as given; it may raise. *)
Variable hone_shift :
  list (list npfloat) -> nat * nat -> mat2 -> F * F -> result (F * F).

(** One turn of the loop over [M_options]. *)
Definition trial (cv2img : list (list Z)) (size : nat * nat)
  (orientation_is_none orientation_check : bool) (M_trial : mat2)
  : result trial_result :=
  shp <- canvas_shape M_trial size ;;
  mask <- scoring_mask M_trial size ;;
  let found := try_except (match_template cv2img mask) (fun _ => (0, (0, 0)%Z)) in
  let max_loc := snd found in
  let b := offset_of max_loc shp in
  let parity :=
    if orientation_is_none && orientation_check then
      try_except
        (spotpowers <- spotpowers_of cv2img shp max_loc (max_pitch_of M_trial)
                                     (rotated_centers M_trial size shp) size ;;
         M <- parity_fix M_trial spotpowers (snd size) (fst size) ;;
         Ok (M, true))
        (fun _ => (M_trial, false))
    else (M_trial, true) in
  Ok (TrialResult (fst found) b (fst parity) (snd parity)).

(** [M_options]: the estimate, and its columns swapped when the array is not
    square and no orientation was given. *)
Definition M_options_of (M : mat2) (size : nat * nat) (orientation_is_none : bool)
  : list mat2 :=
  if negb (fst size =? snd size)%nat && orientation_is_none
  then [M; Mat2 (m01 M) (m00 M) (m11 M) (m10 M)]
  else [M].

(** The dictionary [orientation = {"M": .., "b": ..}] as line 1009 builds it from
    the results of the loop, before the honing passes.  The image is the 8-bit
    image [cv2img]. *)
Definition orientation_choice (cv2img : list (list Z)) (size : nat * nat)
  (orientation : option (mat2 * (Q * Q))) (orientation_check : bool)
  : result (mat2 * (Q * Q)) :=
  let orientation_is_none :=
    match orientation with None => true | Some _ => false end in
  M <- match orientation with
       | None => fourier_estimate cv2img
       | Some o => Ok (fst o)
       end ;;
  results <- mapM (trial cv2img size orientation_is_none orientation_check)
                  (M_options_of M size orientation_is_none) ;;
  index <- select_index results ;;
  match nth_error results index with
  | Some r => Ok (M_fixed r, b_fixed r)
  | None => Raise IndexError
  end.

(** [psf = 2 * int(np.floor(np.amin(np.amax(M, axis=0))) / 2) + 1]: the smaller
    of the two column maxima, floored, halved, truncated, made odd. *)
Definition psf_of (M : mat2) : Z :=
  let col0 := if Qle_bool (m00 M) (m10 M) then m10 M else m00 M in
  let col1 := if Qle_bool (m01 M) (m11 M) then m11 M else m01 M in
  let lowest := if Qle_bool col1 col0 then col1 else col0 in
  (2 * astype_int (inject_Z (Qfloor lowest) / 2) + 1)%Z.

(** One call of the nested [hone()]: it reads [orientation], and its last line
    adds the measured shift to ["b"]; ["M"] is not written.  A negative [psf]
    (it is odd, so never zero) gives [take] empty windows, and the reshape to
    [(K, psf, psf)] that ends [take] raises [ValueError]. *)
Definition hone (img : list (list npfloat)) (size : nat * nat)
  (orientation : mat2 * (F * F)) : result (mat2 * (F * F)) :=
  let M := fst orientation in
  let b := snd orientation in
  if (psf_of M <? 0)%Z then Raise ValueError
  else
    shift <- hone_shift img size M b ;;
    Ok (M, (add (fst b) (fst shift), add (snd b) (snd shift))).

(** [blob_array_detect(img, size, orientation, orientation_check)] for a
    two-dimensional image and [plot=False]: the 8-bit image, the choice of the
    orientation, two honing passes. *)
Definition blob_array_detect (img : list (list npfloat)) (size : nat * nat)
  (orientation : option (mat2 * (Q * Q))) (orientation_check : bool)
  : result (mat2 * (F * F)) :=
  cv2img <- _make_8bit cast_undefined img ;;
  o <- orientation_choice cv2img size orientation orientation_check ;;
  o <- hone img size (fst o, (of_Q (fst (snd o)), of_Q (snd (snd o)))) ;;
  hone img size o.

End Detect.

(** ** Positions *)

(** [image_positions(images, normalize, nansum)] on a stack: the rows [M10] and
    [M01] that [np.vstack] stacks.  The normalization is called without
    [nansum]. *)
Definition image_positions {F : Type} `{Float64 F} (images : list (list (list F)))
  (normalize nansum : bool) : result (list F * list F) :=
  images <- (if normalize then image_normalize images false else Ok images) ;;
  m10 <- image_moment (Img3 images) (1, 0)%nat (CenterPair 0 0) false nansum ;;
  m01 <- image_moment (Img3 images) (0, 1)%nat (CenterPair 0 0) false nansum ;;
  Ok (m10, m01).

(** ** Orientation *)

(** The argument [rot]: a string or an integer. *)
Inductive rot_arg : Type :=
| RotStr (s : String.string)
| RotInt (z : Z).

(** [rot == s or rot == k] *)
Definition rot_is (rot : rot_arg) (s : String.string) (k : Z) : bool :=
  match rot with
  | RotStr r => String.eqb r s
  | RotInt z => (z =? k)%Z
  end.

(** [np.rot90(img, k)], the number of columns read off the first row. *)
Definition rot90_img {T : Type} (k : nat) (img : list (list T)) : list (list T) :=
  rot90 (length (hd [] img)) img k.

Section Orientation.

Import (notations) String.

(** [get_orientation_transformation(rot, fliplr, flipud)]: the list of
    transformations, reduced by composition from the identity. *)
Definition get_orientation_transformation {T : Type} (rot : rot_arg)
  (fliplr flipud : bool) : list (list T) -> list (list T) :=
  let transforms : list (list (list T) -> list (list T)) := [] in
  let transforms := if fliplr then transforms ++ [@Np.fliplr T] else transforms in
  let transforms := if flipud then transforms ++ [@Np.flipud T] else transforms in
  let transforms :=
    if rot_is rot "90" 1 then transforms ++ [rot90_img 1]
    else if rot_is rot "180" 2 then transforms ++ [rot90_img 2]
    else if rot_is rot "270" 3 then transforms ++ [rot90_img 3]
    else transforms in
  fold_left (fun f g => fun x => f (g x)) transforms (fun x => x).

End Orientation.

End Analysis.

Import Analysis.

(** ** Notions used in the statements *)

(** The pixel indices [(iy, ix)] of the region around one vector, before any
    clipping. *)
Definition region_pixels (v : Q * Q) (size : nat * nat) (centered : bool)
  : list (Z * Z) :=
  let edge_x := edge (fst size) centered in
  let edge_y := edge (snd size) centered in
  combine (map (fun r => astype_int (inject_Z r + snd v)) (region_y edge_x edge_y))
          (map (fun r => astype_int (inject_Z r + fst v)) (region_x edge_x edge_y)).

(** Vectors whose coordinates are whole numbers. *)
Definition whole_vectors (points : list (Z * Z)) : list (Q * Q) :=
  map (fun p : Z * Z => (inject_Z (fst p), inject_Z (snd p))) points.

(** The region around [v] crosses the bounds of an image of shape [(h, w)]. *)
Definition crosses (h w : nat) (v : Q * Q) (size : nat * nat) (centered : bool)
  : bool :=
  existsb (fun p : Z * Z => out_of_range h w (fst p) (snd p))
          (region_pixels v size centered).

(** [a] is a rectangular array of shape [(h, w)]. *)
Definition rect2 {T : Type} (h w : nat) (a : list (list T)) : Prop :=
  length a = h /\ Forall (fun row => length row = w) a.

(** The images of an array of rank two or three. *)
Definition image_stack {T : Type} (images : ndimage T) : list (list (list T)) :=
  match images with
  | Img2 a => [a]
  | Img3 a => a
  | ImgRank _ => []
  end.

(** [images] is one image, or a stack of at least one image, of shape [(h, w)]
    with [h] and [w] positive. *)
Definition well_shaped {T : Type} (h w : nat) (images : ndimage T) : Prop :=
  (0 < h)%nat /\ (0 < w)%nat /\
  match images with
  | Img2 a => rect2 h w a
  | Img3 a => a <> [] /\ Forall (rect2 h w) a
  | ImgRank _ => False
  end.

(** The value stored at an out-of-range entry: [np.nan], or zero when the element
    type cannot hold it. *)
Definition fill_value {T : Type} `{Dtype T} : T :=
  try_except store_nan (fun _ => dzero).

(** What an entry of the sampled region holds when clipping is on: the fill value
    at an out-of-range index pair, the pixel of the image elsewhere. *)
Definition clipped_entry {T : Type} (fill : T) (img : list (list T)) (h w : nat)
  (p : Z * Z) (x : T) : Prop :=
  if out_of_range h w (fst p) (snd p) then x = fill
  else getitem2 img h w (fst p) (snd p) = Ok x.

(** The [centers] argument fits a stack of [img_count] images. *)
Definition centers_fit (img_count : nat) (centers : centers_arg) : Prop :=
  match centers with
  | CenterPair _ _ => True
  | CenterArrays c_x c_y => length c_x = img_count /\ length c_y = img_count
  end.

(** Every pixel of an image is a non-negative number. *)
Definition nonnegative (img : list (list npfloat)) : Prop :=
  Forall (Forall (fun p => exists q, p = Fin q /\ 0 <= q)) img.

(** The three checks of the parity resolver on the spot powers, an array of shape
    [(ny, nx)]: exactly two dimmest spots; exactly one corner among them; the other
    one next to that corner once it is rotated to the last row and column. *)
Definition two_dimmest (spotpowers : list (list Z)) : bool :=
  match spotbooleans_of spotpowers with
  | Ok spotbooleans => (count_true (concat spotbooleans) =? 2)%nat
  | Raise _ => false
  end.

Definition one_dim_corner (spotpowers : list (list Z)) (ny nx : nat) : bool :=
  match spotbooleans_of spotpowers with
  | Ok spotbooleans =>
      match corners_of spotbooleans ny nx with
      | Ok corners => (count_true corners =? 1)%nat
      | Raise _ => false
      end
  | Raise _ => false
  end.

Definition second_adjacent (spotpowers : list (list Z)) (ny nx : nat) : bool :=
  match spotbooleans_of spotpowers with
  | Ok spotbooleans =>
      match corners_of spotbooleans ny nx with
      | Ok corners =>
          match first_true corners with
          | Ok rotation_parity =>
              let rotated := rot90 nx spotbooleans rotation_parity in
              match (if Nat.even rotation_parity
                     then flip_parity_of rotated ny nx
                     else flip_parity_of rotated nx ny) with
              | Ok flip_parity => (Z.abs flip_parity =? 1)%Z
              | Raise _ => false
              end
          | Raise _ => false
          end
      | Raise _ => false
      end
  | Raise _ => false
  end.

(** The entry of a mask at the pixel [(row, column)]. *)
Definition cell (mask : list (list Z)) (p : Z * Z) : Z :=
  nth (Z.to_nat (snd p)) (nth (Z.to_nat (fst p)) mask []) 0%Z.

(** The pixel [p] lies on the canvas of shape [shp], without wrapping around. *)
Definition on_canvas (shp : nat * nat) (p : Z * Z) : Prop :=
  (0 <= fst p < Z.of_nat (fst shp))%Z /\ (0 <= snd p < Z.of_nat (snd shp))%Z.

(** The pixels of the array and of the padded array on a canvas of shape [shp]. *)
Definition array_pixels (M_trial : mat2) (size shp : nat * nat) : list (Z * Z) :=
  map pixel_of (rotated_centers M_trial size shp).

Definition padded_pixels (M_trial : mat2) (size shp : nat * nat) : list (Z * Z) :=
  map pixel_of (rotated_centers_larger M_trial size shp).

(** The laws of not-a-number that the sums rely on. *)
Class NanPropagates (F : Type) `{Float64 F} : Prop := {
  nan_is_nan : is_nan nan = true;
  add_nan_l : forall x y : F, is_nan x = true -> is_nan (add x y) = true;
  add_nan_r : forall x y : F, is_nan y = true -> is_nan (add x y) = true
}.

Arguments NanPropagates F {_}.

(** The image of shape [(h, w)] that has the value [v] at the pixels [(x, y)] of
    [spots] and [zero] elsewhere. *)
Definition spots_image {T : Type} (h w : nat) (spots : list (nat * nat))
  (v zero : T) : list (list T) :=
  map (fun y =>
         map (fun x =>
                if existsb (fun s : nat * nat =>
                              (fst s =? x)%nat && (snd s =? y)%nat) spots
                then v else zero)
             (seq 0 w))
      (seq 0 h).

(** The image of shape [(h, w)] that is zero except for the value [p] at row
    [y0] and column [x0]. *)
Definition impulse (h w y0 x0 : nat) (p : Q) : list (list npfloat) :=
  list_set y0 (list_set x0 (Fin p) (repeat (Fin 0) w)) (repeat (repeat (Fin 0) w) h).

(** Every entry of [l] is zero except entry [k], which is [v]. *)
Definition single_at (l : list npfloat) (k : nat) (v : Q) : Prop :=
  (k < length l)%nat /\
  forall j x, nth_error l j = Some x ->
              feq x (if (j =? k)%nat then Fin v else Fin 0).

(** Every pixel of [img] is zero except the pixel at row [y0] and column [x0],
    which is [v]. *)
Definition impulse_at (img : list (list npfloat)) (y0 x0 : nat) (v : Q) : Prop :=
  (exists row, nth_error img y0 = Some row /\ (x0 < length row)%nat) /\
  forall y row x e,
    nth_error img y = Some row -> nth_error row x = Some e ->
    feq e (if (y =? y0)%nat && (x =? x0)%nat then Fin v else Fin 0).

(** The pixel value [p] is the lowest, the highest, of the image. *)
Definition is_lowest (img : list (list npfloat)) (p : npfloat) : Prop :=
  forall q, In q (concat img) ->
            match p, q with
            | Fin a, Fin b => a <= b
            | _, _ => False
            end.

Definition is_highest (img : list (list npfloat)) (p : npfloat) : Prop :=
  forall q, In q (concat img) ->
            match p, q with
            | Fin a, Fin b => b <= a
            | _, _ => False
            end.

(** * Properties *)

(** ** Results of loops *)

Lemma mapM_Forall2 {A B : Type} (f : A -> result B) (l : list A) (bs : list B) :
  mapM f l = Ok bs -> Forall2 (fun a b => f a = Ok b) l bs.
Proof.
  revert bs; induction l as [|a l IH]; intros bs Hm; simpl in Hm.
  - injection Hm as <-. constructor.
  - destruct (f a) as [b|e] eqn:Hf; [|discriminate].
    destruct (mapM f l) as [bs'|e] eqn:Hl; [|discriminate].
    injection Hm as <-. constructor; auto.
Qed.

Lemma mapM_total {A B : Type} (f : A -> result B) (l : list A) :
  (forall a, In a l -> exists b, f a = Ok b) ->
  exists bs, mapM f l = Ok bs.
Proof.
  induction l as [|a l IH]; intros Hf; simpl.
  - eexists; reflexivity.
  - destruct (Hf a (or_introl eq_refl)) as [b ->].
    destruct IH as [bs ->]; [intros; apply Hf; now right|].
    eexists; reflexivity.
Qed.

Lemma Forall2_nth_error_r {A B : Type} (R : A -> B -> Prop) (l : list A)
  (l' : list B) (k : nat) (b : B) :
  Forall2 R l l' -> nth_error l' k = Some b ->
  exists a, nth_error l k = Some a /\ R a b.
Proof.
  intros HF; revert k; induction HF as [|x y l l' Hxy HF IH]; intros k Hk.
  - destruct k; discriminate.
  - destruct k as [|k]; simpl in *.
    + injection Hk as <-. eauto.
    + auto.
Qed.

Lemma nth_error_map_inv {A B : Type} (f : A -> B) (l : list A) (k : nat) (b : B) :
  nth_error (map f l) k = Some b ->
  exists a, nth_error l k = Some a /\ b = f a.
Proof.
  revert k; induction l as [|x l IH]; intros [|k] Hk; simpl in *; try discriminate.
  - injection Hk as <-. eauto.
  - auto.
Qed.

Lemma nth_error_combine_inv {A B : Type} (l : list A) (l' : list B) (k : nat)
  (p : A * B) :
  nth_error (combine l l') k = Some p ->
  nth_error l k = Some (fst p) /\ nth_error l' k = Some (snd p).
Proof.
  revert l' k; induction l as [|x l IH]; intros [|y l'] [|k] Hk;
    simpl in *; try discriminate.
  - injection Hk as <-. auto.
  - auto.
Qed.

(** ** Not-a-number in sums *)

#[export] Instance exact_NanPropagates : NanPropagates npfloat.
Proof.
  split.
  - reflexivity.
  - intros [|a] y Hx; [reflexivity | discriminate].
  - intros [|a] [|b] Hy; try reflexivity; discriminate.
Qed.

Lemma SFcompare_refl (x : spec_float) :
  x <> S754_nan -> SFcompare x x = Some Eq.
Proof.
  destruct x as [s|s| |s m e]; intros Hx; simpl.
  - reflexivity.
  - destruct s; reflexivity.
  - congruence.
  - destruct s; rewrite Z.compare_refl;
      change (PosDef.Pos.compare_cont Eq m m) with (Pos.compare_cont Eq m m);
      now rewrite Pos.compare_cont_refl.
Qed.

Lemma is_nan_Prim2SF (x : float) :
  PrimFloat.is_nan x = true <-> Prim2SF x = S754_nan.
Proof.
  unfold PrimFloat.is_nan. rewrite FloatAxioms.eqb_spec. unfold SFeqb. split.
  - intros Hx. destruct (Prim2SF x) eqn:E; try reflexivity;
      rewrite SFcompare_refl in Hx by congruence; discriminate.
  - intros ->. reflexivity.
Qed.

#[export] Instance binary64_NanPropagates : NanPropagates float.
Proof.
  split.
  - reflexivity.
  - intros x y Hx. apply is_nan_Prim2SF in Hx. apply is_nan_Prim2SF.
    simpl. rewrite add_spec, Hx. reflexivity.
  - intros x y Hy. apply is_nan_Prim2SF in Hy. apply is_nan_Prim2SF.
    simpl. rewrite add_spec, Hy. destruct (Prim2SF x); reflexivity.
Qed.

Section NanSums.

Context {F : Type} `{NanPropagates F}.

Lemma fold_add_nan (l : list F) (acc : F) :
  is_nan acc = true \/ (exists x, In x l /\ is_nan x = true) ->
  is_nan (fold_left add l acc) = true.
Proof.
  revert acc; induction l as [|a l IH]; intros acc Hor; simpl.
  - destruct Hor as [Hacc|[x [[] _]]]. exact Hacc.
  - apply IH. destruct Hor as [Hacc|[x [[->|Hin] Hx]]].
    + left. now apply add_nan_l.
    + left. now apply add_nan_r.
    + right. eauto.
Qed.

Lemma sum_nan (l : list F) (x : F) :
  In x l -> is_nan x = true -> is_nan (Np.sum l) = true.
Proof.
  intros Hin Hx. unfold Np.sum. apply fold_add_nan. right. eauto.
Qed.

End NanSums.

(** ** The region sampler with clipping *)

Lemma norm_index_clip (n : nat) (i : Z) :
  (0 < n)%nat ->
  exists k, norm_index n (Np.clip i 0 (Z.of_nat n - 1)) = Ok k /\ (k < n)%nat.
Proof.
  intros Hn. unfold norm_index, Np.clip.
  set (c := Z.min (Z.max i 0) (Z.of_nat n - 1)).
  assert (Hc : (0 <= c < Z.of_nat n)%Z) by (unfold c; lia).
  replace ((0 <=? c)%Z && (c <? Z.of_nat n)%Z) with true
    by (symmetry; apply andb_true_iff; split; [apply Z.leb_le | apply Z.ltb_lt]; lia).
  exists (Z.to_nat c). split; [reflexivity | lia].
Qed.

Lemma getitem2_clip {T : Type} (a : list (list T)) (h w : nat) (iy ix : Z) :
  (0 < h)%nat -> (0 < w)%nat -> rect2 h w a ->
  exists v, getitem2 a h w (Np.clip iy 0 (Z.of_nat h - 1))
                     (Np.clip ix 0 (Z.of_nat w - 1)) = Ok v.
Proof.
  intros Hh Hw [Hlen Hrows]. unfold getitem2.
  destruct (norm_index_clip iy Hh) as [y [-> Hy]].
  destruct (norm_index_clip ix Hw) as [x [-> Hx]]. simpl.
  destruct (nth_error a y) as [row|] eqn:Ea.
  - assert (Hrow : length row = w).
    { rewrite Forall_forall in Hrows. apply Hrows. eapply nth_error_In; eauto. }
    destruct (nth_error row x) as [v|] eqn:Er; [eauto|].
    apply nth_error_None in Er. lia.
  - apply nth_error_None in Ea. lia.
Qed.

Lemma gather_clip_total {T : Type} (a : list (list T)) (h w : nat)
  (iys ixs : list (list Z)) :
  (0 < h)%nat -> (0 < w)%nat -> rect2 h w a ->
  exists r,
    gather a h w (map (map (fun iy => Np.clip iy 0 (Z.of_nat h - 1))) iys)
                 (map (map (fun ix => Np.clip ix 0 (Z.of_nat w - 1))) ixs) = Ok r.
Proof.
  intros Hh Hw Ha. unfold gather. apply mapM_total. intros [ciy cix] Hin.
  apply mapM_total. intros [y x] Hin'. simpl in *.
  apply in_combine_l in Hin as Hl. apply in_combine_r in Hin as Hr.
  apply in_map_iff in Hl as [iy [<- _]]. apply in_map_iff in Hr as [ix [<- _]].
  apply in_combine_l in Hin' as Hl'. apply in_combine_r in Hin' as Hr'.
  apply in_map_iff in Hl' as [y0 [<- _]]. apply in_map_iff in Hr' as [x0 [<- _]].
  now apply getitem2_clip.
Qed.

(** Row [k] of a gathered image has one entry per index pair of row [k]. *)
Lemma gather_row {T : Type} (a : list (list T)) (h w : nat)
  (iys ixs : list (list Z)) (r : list (list T)) (k : nat) (row : list T) :
  gather a h w iys ixs = Ok r -> nth_error r k = Some row ->
  exists iy ix, nth_error iys k = Some iy /\ nth_error ixs k = Some ix /\
    Forall2 (fun (p : Z * Z) v => getitem2 a h w (fst p) (snd p) = Ok v)
            (combine iy ix) row.
Proof.
  intros Hg Hk. apply mapM_Forall2 in Hg.
  destruct (Forall2_nth_error_r _ Hg Hk) as [[iy ix] [Hp Hrow]].
  apply nth_error_combine_inv in Hp as [Hy Hx]. simpl in *.
  exists iy, ix. repeat split; auto. now apply mapM_Forall2.
Qed.

Lemma gather_length {T : Type} (a : list (list T)) (h w : nat)
  (iys ixs : list (list Z)) (r : list (list T)) :
  gather a h w iys ixs = Ok r -> length r = length (combine iys ixs).
Proof.
  intros Hg. apply mapM_Forall2 in Hg. symmetry. eapply Forall2_length; eauto.
Qed.

Lemma existsb_map {A B : Type} (f : A -> B) (g : B -> bool) (l : list A) :
  existsb g (map f l) = existsb (fun a => g (f a)) l.
Proof. induction l as [|a l IH]; simpl; [reflexivity | now rewrite IH]. Qed.

(** A masked row holds the fill value wherever the mask is set. *)
Lemma masked_row_fill {T : Type} (fill : T) (m : list bool) (r : list T) :
  length m = length r -> existsb id m = true ->
  In fill (map (fun p : bool * T => if fst p then fill else snd p) (combine m r)).
Proof.
  revert r; induction m as [|b m IH]; intros [|v r] Hlen Hex; simpl in *;
    try discriminate.
  destruct b; simpl in *; [now left | right]. apply IH; [lia | assumption].
Qed.

Lemma integration_row (region : list Z) (coordinate : list Q) (k : nat)
  (row : list Z) :
  nth_error (integration region coordinate) k = Some row ->
  exists c, nth_error coordinate k = Some c /\
    row = map (fun r => astype_int (inject_Z r + c)) region.
Proof. unfold integration. apply nth_error_map_inv. Qed.

Lemma combine_map_map {A B A' B' : Type} (f : A -> A') (g : B -> B')
  (l : list A) (l' : list B) :
  combine (map f l) (map g l') = map (fun p => (f (fst p), g (snd p))) (combine l l').
Proof.
  revert l'; induction l as [|a l IH]; intros [|b l']; simpl; try reflexivity.
  now rewrite IH.
Qed.

Lemma Forall2_map_l {A A' B : Type} (R : A' -> B -> Prop) (f : A -> A')
  (l : list A) (l' : list B) :
  Forall2 R (map f l) l' <-> Forall2 (fun a b => R (f a) b) l l'.
Proof.
  revert l'; induction l as [|a l IH]; intros l'; simpl; split; intros HF;
    inversion HF; subst; constructor; auto; now apply IH.
Qed.

Lemma clip_in_range (h w : nat) (iy ix : Z) :
  out_of_range h w iy ix = false ->
  Np.clip iy 0 (Z.of_nat h - 1) = iy /\ Np.clip ix 0 (Z.of_nat w - 1) = ix.
Proof.
  unfold out_of_range, Np.clip. intros Hr.
  repeat (apply orb_false_iff in Hr as [Hr ?]).
  apply Z.ltb_ge in Hr.
  repeat match goal with
         | Hx : (_ <? _)%Z = false |- _ => apply Z.ltb_ge in Hx
         | Hx : (_ >=? _)%Z = false |- _ => rewrite Z.geb_leb in Hx; apply Z.leb_gt in Hx
         end.
  lia.
Qed.

Lemma masked_row_entries {T : Type} (fill : T) (img : list (list T)) (h w : nat)
  (ps : list (Z * Z)) (r : list T) :
  Forall2 (fun (p : Z * Z) v =>
             getitem2 img h w (Np.clip (fst p) 0 (Z.of_nat h - 1))
                      (Np.clip (snd p) 0 (Z.of_nat w - 1)) = Ok v) ps r ->
  Forall2 (clipped_entry fill img h w) ps
          (map (fun q : bool * T => if fst q then fill else snd q)
               (combine (map (fun p : Z * Z => out_of_range h w (fst p) (snd p)) ps)
                        r)).
Proof.
  induction 1 as [|p v ps r Hp HF IH]; simpl; constructor; auto.
  unfold clipped_entry.
  destruct (out_of_range h w (fst p) (snd p)) eqn:Hr; [reflexivity|].
  destruct (clip_in_range _ _ _ _ Hr) as [Ey Ex]. now rewrite Ey, Ex in Hp.
Qed.

(** One image of the result of [take] with clipping, row by row. *)
Lemma clipped_image_rows {T : Type} (fill : T) (img : list (list T)) (h w : nat)
  (vectors : list (Q * Q)) (size : nat * nat) (centered : bool)
  (r : list (list T)) :
  let edge_x := edge (fst size) centered in
  let edge_y := edge (snd size) centered in
  let integration_x := integration (region_x edge_x edge_y) (map fst vectors) in
  let integration_y := integration (region_y edge_x edge_y) (map snd vectors) in
  gather img h w
         (map (map (fun iy => Np.clip iy 0 (Z.of_nat h - 1))) integration_y)
         (map (map (fun ix => Np.clip ix 0 (Z.of_nat w - 1))) integration_x) = Ok r ->
  let res := fill_masked fill (range_mask h w integration_y integration_x) r in
  length res = length vectors /\
  forall k row v,
    nth_error res k = Some row -> nth_error vectors k = Some v ->
    Forall2 (clipped_entry fill img h w) (region_pixels v size centered) row.
Proof.
  intros edge_x edge_y integration_x integration_y Hg res. split.
  - unfold res, fill_masked, range_mask.
    rewrite length_map, length_combine, length_map, length_combine.
    rewrite (gather_length _ _ _ _ _ Hg), length_combine, !length_map.
    unfold integration_x, integration_y, integration. rewrite !length_map. lia.
  - intros k row v Hrow Hv. unfold res, fill_masked in Hrow.
    apply nth_error_map_inv in Hrow as [[m rk] [Hmk ->]].
    apply nth_error_combine_inv in Hmk as [Hm Hrk]. simpl in *.
    unfold range_mask in Hm.
    apply nth_error_map_inv in Hm as [[iy ix] [Hi ->]].
    apply nth_error_combine_inv in Hi as [Hiy Hix]. simpl in *.
    destruct (gather_row _ _ _ _ _ _ Hg Hrk) as [ciy [cix [Hcy [Hcx HF]]]].
    apply nth_error_map_inv in Hcy as [iy' [Hiy' ->]].
    apply nth_error_map_inv in Hcx as [ix' [Hix' ->]].
    rewrite Hiy in Hiy'. injection Hiy' as <-.
    rewrite Hix in Hix'. injection Hix' as <-.
    apply integration_row in Hiy as [cy [Hcy ->]].
    apply integration_row in Hix as [cx [Hcx ->]].
    apply nth_error_map_inv in Hcy as [v1 [Hv1 ->]].
    apply nth_error_map_inv in Hcx as [v2 [Hv2 ->]].
    rewrite Hv in Hv1, Hv2. injection Hv1 as <-. injection Hv2 as <-.
    rewrite combine_map_map in HF. apply Forall2_map_l in HF. simpl in HF.
    unfold region_pixels. fold edge_x edge_y.
    now apply masked_row_entries.
Qed.

Lemma rect2_hd {T : Type} (h w : nat) (a : list (list T)) :
  (0 < h)%nat -> rect2 h w a -> length (hd [] a) = w.
Proof.
  intros Hh [Hlen Hrows]. destruct a as [|row a]; simpl in *; [lia|].
  now inversion Hrows.
Qed.

(** [take] with [clip=True] on well-shaped images never raises before the final
    reshape, and every image of its result holds, row by row, the fill value at
    the out-of-range index pairs and the pixels of the image elsewhere. *)
Lemma take_clip_result {T : Type} `{Dtype T} (images : ndimage T)
  (vectors : list (Q * Q)) (size : nat * nat) (centered integrate : bool)
  (h w : nat) :
  well_shaped h w images ->
  exists result : list (list (list T)),
    take images vectors size centered integrate true =
      (if integrate then Ok (Sums (map (map Np.sum) result))
       else r <- reshape3 (concat (concat result)) (length vectors)
                          (snd size) (fst size) ;;
            Ok (Crops r)) /\
    Forall2 (fun img res =>
               length res = length vectors /\
               forall k row v,
                 nth_error res k = Some row -> nth_error vectors k = Some v ->
                 Forall2 (clipped_entry fill_value img h w)
                         (region_pixels v size centered) row)
            (image_stack images) result.
Proof.
  intros (Hh & Hw & Himg). unfold take.
  set (edge_x := edge (fst size) centered).
  set (edge_y := edge (snd size) centered).
  set (integration_x := integration (region_x edge_x edge_y) (map fst vectors)).
  set (integration_y := integration (region_y edge_x edge_y) (map snd vectors)).
  destruct images as [a|a|s]; [| |contradiction].
  - (* one image *)
    assert (Hshape : shape (Img2 a) = [h; w]).
    { simpl. now rewrite (proj1 Himg), (rect2_hd Hh Himg). }
    rewrite Hshape. cbn [shape_last shape_last2 rev app Py.bind].
    rewrite (proj1 Himg), (rect2_hd Hh Himg).
    destruct (gather_clip_total integration_y integration_x Hh Hw Himg) as [r Hr].
    rewrite Hr. cbn [Py.bind map].
    exists [fill_masked fill_value (range_mask h w integration_y integration_x) r].
    split; [reflexivity|]. simpl. constructor; [|constructor].
    exact (clipped_image_rows fill_value a h w vectors size centered Hr).
  - (* a stack *)
    destruct Himg as [Hne Hall].
    assert (Hhd : rect2 h w (hd [] a)).
    { destruct a as [|img a]; [congruence|]. now inversion Hall. }
    assert (Hshape : shape (Img3 a) = [length a; h; w]).
    { simpl. now rewrite (proj1 Hhd), (rect2_hd Hh Hhd). }
    rewrite Hshape. cbn [shape_last shape_last2 rev app Py.bind].
    rewrite (proj1 Hhd), (rect2_hd Hh Hhd).
    set (g := fun img : list (list T) =>
                gather img h w
                  (map (map (fun iy => Np.clip iy 0 (Z.of_nat h - 1))) integration_y)
                  (map (map (fun ix => Np.clip ix 0 (Z.of_nat w - 1))) integration_x)).
    destruct (mapM_total g a) as [rs Hrs].
    { intros img Hin. rewrite Forall_forall in Hall.
      exact (gather_clip_total integration_y integration_x Hh Hw (Hall img Hin)). }
    rewrite Hrs. cbn [Py.bind].
    exists (map (fill_masked fill_value
                   (range_mask h w integration_y integration_x)) rs).
    split; [reflexivity|]. simpl. apply mapM_Forall2 in Hrs.
    clear -Hrs. induction Hrs as [|img r a rs Hr HF IH]; simpl; constructor; auto.
    exact (clipped_image_rows fill_value img h w vectors size centered Hr).
Qed.

Lemma Forall2_In_l {A B : Type} (R : A -> B -> Prop) (l : list A) (l' : list B)
  (a : A) :
  Forall2 R l l' -> In a l -> exists b, In b l' /\ R a b.
Proof.
  induction 1 as [|x y l l' Hxy HF IH]; intros Hin; [contradiction|].
  destruct Hin as [->|Hin].
  - exists y. split; [now left | assumption].
  - destruct (IH Hin) as [b [Hb Hab]]. exists b. split; [now right | assumption].
Qed.

Lemma Forall2_nth_error_l {A B : Type} (R : A -> B -> Prop) (l : list A)
  (l' : list B) (k : nat) (a : A) :
  Forall2 R l l' -> nth_error l k = Some a ->
  exists b, nth_error l' k = Some b /\ R a b.
Proof.
  intros HF; revert k; induction HF as [|x y l l' Hxy HF IH]; intros k Hk.
  - destruct k; discriminate.
  - destruct k as [|k]; simpl in *.
    + injection Hk as <-. eauto.
    + auto.
Qed.

(** C10. With [clip=True] and [integrate=True] on a floating-point image (one
    image or a stack, not empty), [take] returns one row of sums per image and one
    sum per vector, and the sum of every region that crosses the image bounds is
    not-a-number: the markers written at the out-of-range positions go into the
    plain sum. *)
Theorem take_clip_integrate_nan {F : Type} `{NanPropagates F}
  (images : ndimage F) (vectors : list (Q * Q)) (size : nat * nat)
  (centered : bool) (h w : nat) :
  well_shaped h w images ->
  exists sums : list (list F),
    take images vectors size centered true true = Ok (Sums sums) /\
    length sums = length (image_stack images) /\
    Forall (fun row => length row = length vectors) sums /\
    forall n k row s v,
      nth_error sums n = Some row -> nth_error row k = Some s ->
      nth_error vectors k = Some v ->
      crosses h w v size centered = true ->
      is_nan s = true.
Proof.
  intros Hws.
  destruct (take_clip_result vectors size centered true Hws)
    as [result [Htake Hres]].
  exists (map (map Np.sum) result). split; [exact Htake|]. split; [|split].
  - rewrite length_map. symmetry. eapply Forall2_length; eauto.
  - apply Forall_forall. intros row Hin.
    apply in_map_iff in Hin as [res [<- Hin]]. rewrite length_map.
    destruct (Forall2_In_l _ (Forall2_flip Hres) Hin) as [img [_ [Hlen _]]].
    exact Hlen.
  - intros n k row s v Hn Hk Hv Hcross.
    apply nth_error_map_inv in Hn as [res [Hn ->]].
    apply nth_error_map_inv in Hk as [r [Hk ->]].
    destruct (Forall2_nth_error_r _ Hres Hn) as [img [_ [_ Hrows]]].
    specialize (Hrows k r v Hk Hv).
    unfold crosses in Hcross. apply existsb_exists in Hcross as [p [Hp Hout]].
    destruct (Forall2_In_l _ Hrows Hp) as [x [Hx Hentry]].
    unfold clipped_entry in Hentry. rewrite Hout in Hentry. subst x.
    eapply sum_nan; [exact Hx|]. apply nan_is_nan.
Qed.

(** The statement at a 2x2 binary64 image and a window that leaves it at the
    top-left corner. *)
Lemma take_clip_integrate_nan_witness :
  exists sums : list (list float),
    take (Img2 [[1; 2]; [3; 4]]%float) [(0, 0)] (2, 2)%nat true true true
      = Ok (Sums sums) /\
    length sums = 1%nat /\
    Forall (fun row => length row = 1%nat) sums /\
    forall n k row s v,
      nth_error sums n = Some row -> nth_error row k = Some s ->
      nth_error [(0, 0)] k = Some v ->
      crosses 2 2 v (2, 2)%nat true = true ->
      is_nan s = true.
Proof.
  apply (@take_clip_integrate_nan float _ _ (Img2 [[1; 2]; [3; 4]]%float)
           [(0, 0)] (2, 2)%nat true 2%nat 2%nat).
  unfold well_shaped, rect2. repeat split; try lia. repeat constructor.
Defined.

(** ** The shape of the cropped regions of one image *)

Lemma length_chunks {T : Type} (size n : nat) (l : list T) :
  length (chunks size n l) = n.
Proof.
  revert l; induction n as [|n IH]; intros l; simpl; [reflexivity|].
  now rewrite IH.
Qed.

Lemma chunks_full {T : Type} (size n : nat) (l : list T) :
  length l = (n * size)%nat ->
  Forall (fun c => length c = size) (chunks size n l).
Proof.
  revert l; induction n as [|n IH]; intros l Hl; simpl; constructor.
  - rewrite length_firstn. simpl in Hl. lia.
  - apply IH. rewrite length_skipn. simpl in Hl. lia.
Qed.

Lemma reshape3_shape {T : Type} (flat : list T) (d0 d1 d2 : nat) :
  length flat = (d0 * d1 * d2)%nat ->
  exists r,
    reshape3 flat d0 d1 d2 = Ok r /\ length r = d0 /\
    Forall (fun c => length c = d1 /\ Forall (fun row => length row = d2) c) r.
Proof.
  intros Hl. unfold reshape3. rewrite Hl, Nat.eqb_refl.
  eexists. split; [reflexivity|]. split.
  - now rewrite length_map, length_chunks.
  - apply Forall_forall. intros c Hc. apply in_map_iff in Hc as [blk [<- Hblk]].
    split; [apply length_chunks|]. apply chunks_full.
    assert (Hfull : Forall (fun c => length c = (d1 * d2)%nat)
                           (chunks (d1 * d2) d0 flat))
      by (apply chunks_full; lia).
    rewrite Forall_forall in Hfull. now apply Hfull.
Qed.

Lemma length_concat_uniform {T : Type} (m : nat) (l : list (list T)) :
  Forall (fun row => length row = m) l ->
  length (concat l) = (length l * m)%nat.
Proof.
  induction 1 as [|row l Hrow HF IH]; simpl; [reflexivity|].
  rewrite length_app, IH, Hrow. lia.
Qed.

Lemma length_region_pixels (v : Q * Q) (size : nat * nat) (centered : bool) :
  length (region_pixels v size centered) = (snd size * fst size)%nat.
Proof.
  unfold region_pixels, region_x, region_y, edge, arange.
  rewrite length_combine, !length_map.
  rewrite (length_concat_uniform (m := fst size)),
          (length_concat_uniform (m := fst size)).
  - rewrite !length_map, length_seq. lia.
  - apply Forall_forall. intros row Hrow. apply in_map_iff in Hrow as [e [<- _]].
    now rewrite !length_map, length_seq.
  - apply Forall_forall. intros row Hrow. apply in_map_iff in Hrow as [e [<- _]].
    now rewrite !length_map, length_seq.
Qed.

(** For one image and [clip=True], [take] with [integrate=False] returns an array
    of shape [(K, h, w)]: this part of C1 holds. *)
Lemma take_single_image_crops {T : Type} `{Dtype T} (a : list (list T))
  (vectors : list (Q * Q)) (size : nat * nat) (centered : bool) (h w : nat) :
  well_shaped h w (Img2 a) ->
  exists crops,
    take (Img2 a) vectors size centered false true = Ok (Crops crops) /\
    length crops = length vectors /\
    Forall (fun c => length c = snd size /\
                     Forall (fun row => length row = fst size) c) crops.
Proof.
  intros Hws.
  destruct (@take_clip_result T _ (Img2 a) vectors size centered false h w Hws)
    as [result [Htake Hres]].
  simpl in Hres. inversion Hres as [|? res ? rest [Hlen Hrows] Hrest]; subst.
  inversion Hrest; subst. rewrite Htake. simpl concat. rewrite app_nil_r.
  assert (Hrowlen : Forall (fun row => length row = (snd size * fst size)%nat) res).
  { apply Forall_forall. intros row Hrow. apply In_nth_error in Hrow as [k Hk].
    destruct (nth_error vectors k) as [v|] eqn:Hv.
    - rewrite <- (length_region_pixels v size centered). symmetry.
      eapply Forall2_length. eapply Hrows; eauto.
    - apply nth_error_None in Hv.
      assert (k < length res)%nat by (apply nth_error_Some; congruence). lia. }
  destruct (@reshape3_shape T (concat res) (length vectors) (snd size) (fst size))
    as (r & -> & Hr).
  - rewrite (length_concat_uniform Hrowlen), Hlen. lia.
  - exists r. split; [reflexivity | exact Hr].
Qed.

(** ** Evaluations of the region sampler *)

(** C1. With [integrate=True] a single 2x2 image and two vectors give an array of
    shape [(1, 2)], one row for the image, not [(2,)]; and with [integrate=False]
    a stack of two images raises at the final reshape, whose target shape
    [(K, h, w)] has no room for the images. *)
Theorem take_shape_divergence :
  take (Img2 [[1; 2]; [3; 4]]%Z) [(0, 0); (1, 1)] (1, 1)%nat true true false
    = Ok (Sums [[1; 4]]%Z) /\
  take (Img3 [[[1; 2]; [3; 4]]; [[5; 6]; [7; 8]]]%Z) [(0, 0)] (1, 1)%nat
       true false false
    = Raise ValueError.
Proof. split; vm_compute; reflexivity. Qed.

(** C5. With [clip=False], a 3x3 window centred on the corner pixel [(0, 0)] of a
    3x3 image crosses the image bounds and yet [take] does not fault: the index
    [-1] wraps around to the last row and the last column. *)
Theorem take_noclip_wraps_around :
  crosses 3 3 (0, 0) (3, 3)%nat true = true /\
  take (Img2 [[1; 2; 3]; [4; 5; 6]; [7; 8; 9]]%Z) [(0, 0)] (3, 3)%nat
       true false false
    = Ok (Crops [[[9; 7; 8]; [3; 1; 2]; [6; 4; 5]]]%Z).
Proof. split; vm_compute; reflexivity. Qed.

(** With [clip=True] the same call marks exactly the out-of-range entries, with
    zero for an integer image and with not-a-number for a binary64 image. *)
Example take_clip_corner_int :
  take (Img2 [[1; 2; 3]; [4; 5; 6]; [7; 8; 9]]%Z) [(0, 0)] (3, 3)%nat
       true false true
    = Ok (Crops [[[0; 0; 0]; [0; 1; 2]; [0; 4; 5]]]%Z).
Proof. vm_compute; reflexivity. Qed.

Example take_clip_corner_float :
  take (Img2 [[1; 2]; [3; 4]]%float) [(0, 0)] (2, 2)%nat true false true
    = Ok (Crops [[[PrimFloat.nan; PrimFloat.nan]; [PrimFloat.nan; 1%float]]]) /\
  take (Img2 [[1; 2]; [3; 4]]%float) [(0, 0)] (2, 2)%nat true true true
    = Ok (Sums [[PrimFloat.nan]]).
Proof. split; vm_compute; reflexivity. Qed.

(** ** Exact sums *)

Lemma feq_refl (x : npfloat) : feq x x.
Proof. destruct x; simpl; [exact I | reflexivity]. Qed.

Lemma feq_trans (x y z : npfloat) : feq x y -> feq y z -> feq x z.
Proof.
  destruct x, y, z; simpl; try tauto. intros Hxy Hyz. now rewrite Hxy.
Qed.

Lemma feq_sym (x y : npfloat) : feq x y -> feq y x.
Proof. destruct x, y; simpl; try tauto. intros Hxy. now symmetry. Qed.

Lemma feq_add (x x' y y' : npfloat) :
  feq x x' -> feq y y' -> feq (add x y) (add x' y').
Proof.
  destruct x, x', y, y'; simpl; try tauto. intros Hx Hy. now rewrite Hx, Hy.
Qed.

Lemma feq_mul (x x' y y' : npfloat) :
  feq x x' -> feq y y' -> feq (mul x y) (mul x' y').
Proof.
  destruct x, x', y, y'; simpl; try tauto. intros Hx Hy. now rewrite Hx, Hy.
Qed.

Lemma fold_add_feq (l l' : list npfloat) (a a' : npfloat) :
  Forall2 feq l l' -> feq a a' ->
  feq (fold_left add l a) (fold_left add l' a').
Proof.
  intros HF; revert a a'; induction HF as [|x y l l' Hxy HF IH]; intros a a' Ha.
  - exact Ha.
  - simpl. apply IH. now apply feq_add.
Qed.

Lemma np_sum_feq (nansum : bool) (l l' : list npfloat) :
  Forall2 feq l l' -> feq (np_sum nansum l) (np_sum nansum l').
Proof.
  intros HF. unfold np_sum, Np.nansum, Np.sum. destruct nansum.
  - apply fold_add_feq; [|apply feq_refl].
    induction HF as [|x y l l' Hxy HF IH]; simpl; constructor; auto.
    destruct x, y; simpl in *; try tauto; reflexivity.
  - apply fold_add_feq; [assumption | apply feq_refl].
Qed.

Lemma fold_add_fin (l : list npfloat) (a : npfloat) :
  is_nan a = false -> Forall (fun x => is_nan x = false) l ->
  is_nan (fold_left add l a) = false.
Proof.
  intros Ha HF; revert a Ha; induction HF as [|x l Hx HF IH]; intros a Ha.
  - exact Ha.
  - simpl. apply IH. destruct a, x; simpl in *; congruence.
Qed.

(** A sum is a number exactly when all its terms are. *)
Lemma sum_fin_iff (l : list npfloat) :
  is_nan (Np.sum l) = false <-> Forall (fun x => is_nan x = false) l.
Proof.
  split.
  - intros Hs. apply Forall_forall. intros x Hin.
    destruct (is_nan x) eqn:Hx; [|reflexivity].
    rewrite (sum_nan l x Hin Hx) in Hs. discriminate.
  - intros HF. unfold Np.sum. now apply fold_add_fin.
Qed.

Lemma nansum_fin (l : list npfloat) : is_nan (Np.nansum l) = false.
Proof.
  unfold Np.nansum. apply sum_fin_iff. apply Forall_forall. intros x Hin.
  apply in_map_iff in Hin as [y [<- _]]. destruct y; reflexivity.
Qed.

Lemma feq_fin_inv (x : npfloat) (q : Q) : feq x (Fin q) -> is_nan x = false.
Proof. destruct x; simpl; [contradiction | reflexivity]. Qed.

(** The trial functions are numbers. *)
Lemma power_fin (q : Q) (m : nat) : exists r, power (Fin q) m = Fin r.
Proof.
  induction m as [|m [r IH]]; simpl.
  - eexists; reflexivity.
  - rewrite IH. eexists; reflexivity.
Qed.

Lemma trial_edge_fin (w m : nat) (c : Q) :
  Forall (fun e : npfloat => is_nan e = false) (trial_edge w m c).
Proof.
  unfold trial_edge. apply Forall_forall. intros e Hin.
  apply in_map_iff in Hin as [i [<- _]].
  change (div (of_Q (inject_Z (Z.of_nat w - 1))) (of_Q 2))
    with (Fin (inject_Z (Z.of_nat w - 1) / 2)).
  change (sub (of_Q (inject_Z i)) (Fin (inject_Z (Z.of_nat w - 1) / 2)))
    with (Fin (inject_Z i - inject_Z (Z.of_nat w - 1) / 2)).
  destruct (power_fin (inject_Z i - inject_Z (Z.of_nat w - 1) / 2) m) as [r ->].
  reflexivity.
Qed.

Lemma times_edge_x_fin (img : list (list npfloat)) (edge_x : list npfloat) :
  Forall (fun x => is_nan x = false) (concat img) ->
  Forall (fun e => is_nan e = false) edge_x ->
  Forall (fun x => is_nan x = false) (concat (times_edge_x img edge_x)).
Proof.
  intros Himg He. apply Forall_forall. intros x Hin.
  apply in_concat in Hin as [row' [Hrow' Hx]].
  unfold times_edge_x in Hrow'. apply in_map_iff in Hrow' as [row [<- Hrow]].
  apply in_map_iff in Hx as [[p e] [<- Hpe]]. simpl.
  assert (Hp : is_nan p = false).
  { rewrite Forall_forall in Himg. apply Himg. apply in_concat.
    exists row. split; [assumption|]. eapply in_combine_l; eauto. }
  assert (He' : is_nan e = false).
  { rewrite Forall_forall in He. apply He. eapply in_combine_r; eauto. }
  destruct p, e; simpl in *; congruence.
Qed.

Lemma times_edge_y_fin (img : list (list npfloat)) (edge_y : list npfloat) :
  Forall (fun x => is_nan x = false) (concat img) ->
  Forall (fun e => is_nan e = false) edge_y ->
  Forall (fun x => is_nan x = false) (concat (times_edge_y img edge_y)).
Proof.
  intros Himg He. apply Forall_forall. intros x Hin.
  apply in_concat in Hin as [row' [Hrow' Hx]].
  unfold times_edge_y in Hrow'. apply in_map_iff in Hrow' as [[row e] [<- Hrow]].
  apply in_map_iff in Hx as [p [<- Hp']]. simpl in *.
  assert (Hp : is_nan p = false).
  { rewrite Forall_forall in Himg. apply Himg. apply in_concat.
    exists row. split; [|assumption]. eapply in_combine_l; eauto. }
  assert (He' : is_nan e = false).
  { rewrite Forall_forall in He. apply He. eapply in_combine_r; eauto. }
  destruct p, e; simpl in *; congruence.
Qed.

(** Whichever sum is selected, a weighted image has a numeric sum as soon as the
    plain sum of the image is a number. *)
Lemma np_sum_fin (nansum : bool) (l l' : list npfloat) :
  is_nan (np_sum nansum l) = false ->
  (Forall (fun x => is_nan x = false) l -> Forall (fun x => is_nan x = false) l') ->
  is_nan (np_sum nansum l') = false.
Proof.
  unfold np_sum. destruct nansum; intros Hl Hll'.
  - apply nansum_fin.
  - apply sum_fin_iff, Hll'. now apply sum_fin_iff.
Qed.

Lemma mul_zero (x : npfloat) : is_nan x = false -> feq (mul x (Fin 0)) (Fin 0).
Proof. destruct x; simpl; [discriminate|]. intros _. ring. Qed.

Lemma reciprocal_where_zero (t : npfloat) :
  feq t (Fin 0) -> reciprocal_where t = Fin 0.
Proof.
  destruct t as [|q]; simpl; [contradiction|]. intros Hq.
  unfold reciprocal_where. simpl.
  now rewrite (proj2 (Qeq_bool_iff q 0) Hq).
Qed.

(** ** The moment engine on a stack *)

Lemma nth_error_combine_some {A B : Type} (l : list A) (l' : list B) (k : nat)
  (a : A) (b : B) :
  nth_error l k = Some a -> nth_error l' k = Some b ->
  nth_error (combine l l') k = Some (a, b).
Proof.
  revert l' k; induction l as [|x l IH]; intros [|y l'] [|k] Ha Hb;
    simpl in *; try discriminate.
  - now injection Ha as <-; injection Hb as <-.
  - auto.
Qed.

(** Entry [i] of a result computed image by image from the stack, the centers
    and the reciprocals. *)
Lemma per_image_nth {A B C D : Type} (f : A * B * C -> D) (g : A -> C)
  (l : list A) (cs : list B) (i : nat) (a : A) :
  length cs = length l -> nth_error l i = Some a ->
  exists c, nth_error cs i = Some c /\
    nth_error (map f (combine (combine l cs) (map g l))) i = Some (f (a, c, g a)).
Proof.
  intros Hlen Ha.
  destruct (nth_error cs i) as [c|] eqn:Hc.
  - exists c. split; [reflexivity|].
    rewrite nth_error_map.
    rewrite (nth_error_combine_some _ _ _ (nth_error_combine_some _ _ _ Ha Hc)
               (map_nth_error g _ _ Ha)).
    reflexivity.
  - apply nth_error_None in Hc.
    assert (i < length l)%nat by (apply nth_error_Some; congruence). lia.
Qed.

Lemma per_image_length {A B C D : Type} (f : A * B * C -> D) (g : A -> C)
  (l : list A) (cs : list B) :
  length cs = length l ->
  length (map f (combine (combine l cs) (map g l))) = length l.
Proof.
  intros Hlen. rewrite length_map, !length_combine, length_map. lia.
Qed.

Lemma centers_per_image_fit (img_count : nat) (centers : centers_arg) :
  centers_fit img_count centers ->
  exists cs, centers_per_image img_count centers = Ok cs /\ length cs = img_count.
Proof.
  destruct centers as [c_x c_y|c_x c_y]; simpl.
  - intros _. eexists; split; [reflexivity | apply repeat_length].
  - intros [Hx Hy]. rewrite Hx, Hy, Nat.eqb_refl. simpl.
    eexists; split; [reflexivity|]. rewrite length_combine. lia.
Qed.

(** With [normalize=True], entry [i] of [image_moment] is a weighted sum of image
    [i] times the guarded reciprocal of its total; the weighted sum is a number as
    soon as the total is. *)
Lemma image_moment_normalized_nth (stack : list (list (list npfloat)))
  (moment : nat * nat) (centers : centers_arg) (nansum : bool) (i : nat)
  (img : list (list npfloat)) :
  centers_fit (length stack) centers -> nth_error stack i = Some img ->
  exists out S,
    image_moment (Img3 stack) moment centers true nansum = Ok out /\
    length out = length stack /\
    nth_error out i
      = Some (mul S (reciprocal_where (np_sum nansum (concat img)))) /\
    (is_nan (np_sum nansum (concat img)) = false -> is_nan S = false).
Proof.
  intros Hfit Hi. unfold image_moment. cbn [as_stack Py.bind].
  destruct (centers_per_image_fit _ _ Hfit) as [cs [-> Hcs]]. cbn [Py.bind].
  set (g := fun img0 : list (list npfloat) =>
              reciprocal_where (np_sum nansum (concat img0))).
  destruct (snd moment =? 0)%nat eqn:Hy; [|destruct (fst moment =? 0)%nat eqn:Hx].
  - match goal with |- context [map ?f (combine (combine stack cs) _)] =>
      destruct (@per_image_nth _ _ _ _ f g stack cs i img Hcs Hi) as [c [_ Hn]];
      eexists; eexists; split; [reflexivity|]; split;
        [apply per_image_length; exact Hcs|]; split; [exact Hn|]
    end.
    intros Hs. eapply np_sum_fin; [exact Hs|]. intros Hall.
    apply times_edge_x_fin; [assumption | apply trial_edge_fin].
  - match goal with |- context [map ?f (combine (combine stack cs) _)] =>
      destruct (@per_image_nth _ _ _ _ f g stack cs i img Hcs Hi) as [c [_ Hn]];
      eexists; eexists; split; [reflexivity|]; split;
        [apply per_image_length; exact Hcs|]; split; [exact Hn|]
    end.
    intros Hs. eapply np_sum_fin; [exact Hs|]. intros Hall.
    apply times_edge_y_fin; [assumption | apply trial_edge_fin].
  - cbn [negb andb].
    match goal with |- context [map ?f (combine (combine stack cs) _)] =>
      destruct (@per_image_nth _ _ _ _ f g stack cs i img Hcs Hi) as [c [_ Hn]];
      eexists; eexists; split; [reflexivity|]; split;
        [apply per_image_length; exact Hcs|]; split; [exact Hn|]
    end.
    intros Hs. eapply np_sum_fin; [exact Hs|]. intros Hall.
    apply times_edge_y_fin; [|apply trial_edge_fin].
    apply times_edge_x_fin; [assumption | apply trial_edge_fin].
Qed.

Lemma trial_edge_unit (w : nat) :
  length (trial_edge (F := npfloat) w 0 0) = w /\
  Forall (fun e => e = Fin (1 - 0)) (trial_edge (F := npfloat) w 0 0).
Proof.
  unfold trial_edge, arange. split.
  - now rewrite !length_map, length_seq.
  - apply Forall_forall. intros e Hin. apply in_map_iff in Hin as [i [<- _]].
    reflexivity.
Qed.

Lemma row_times_unit (row edge_x : list npfloat) :
  length row = length edge_x -> Forall (fun e => e = Fin (1 - 0)) edge_x ->
  Forall2 feq (map (fun pe : npfloat * npfloat => mul (fst pe) (snd pe))
                   (combine row edge_x)) row.
Proof.
  revert edge_x; induction row as [|p row IH]; intros [|e edge_x] Hlen He;
    simpl in *; try discriminate; constructor.
  - inversion He; subst. destruct p; simpl; [exact I | ring].
  - apply IH; [lia | now inversion He].
Qed.

Lemma Forall2_concat {A B : Type} (R : A -> B -> Prop) (l : list (list A))
  (l' : list (list B)) :
  Forall2 (Forall2 R) l l' -> Forall2 R (concat l) (concat l').
Proof.
  induction 1 as [|x y l l' Hxy HF IH]; simpl; [constructor|].
  now apply Forall2_app.
Qed.

(** In a rectangular stack every row of every image has the width that
    [image_moment] reads off the first image. *)
Lemma stack_row_width (h w : nat) (stack : list (list (list npfloat)))
  (img : list (list npfloat)) :
  Forall (rect2 h w) stack -> In img stack ->
  Forall (fun row => length row = length (hd [] (hd [] stack))) img.
Proof.
  intros Hall Hin. rewrite Forall_forall in Hall.
  destruct (Hall img Hin) as [Hlen Hrows].
  destruct img as [|row img]; [constructor|].
  assert (Hh : (0 < h)%nat) by (simpl in Hlen; lia).
  destruct stack as [|img0 stack]; [contradiction|]. cbn [hd].
  rewrite (rect2_hd Hh (Hall img0 (or_introl eq_refl))). exact Hrows.
Qed.

(** Weighting by the zeroth-order trial function does not change the sum. *)
Lemma unit_weight_sum (nansum : bool) (img : list (list npfloat)) (w : nat) :
  Forall (fun row => length row = w) img ->
  feq (np_sum nansum (concat (times_edge_x img (trial_edge w 0 0))))
      (np_sum nansum (concat img)).
Proof.
  intros Hrows. apply np_sum_feq, Forall2_concat. unfold times_edge_x.
  destruct (trial_edge_unit w) as [Hlen Hunit].
  induction Hrows as [|row img Hrow Hrows IH]; simpl; constructor; auto.
  apply row_times_unit; [congruence | assumption].
Qed.

Lemma per_image_repeat {A B C D : Type} (f : A * B * C -> D) (g : A -> C)
  (c : B) (l : list A) :
  map f (combine (combine l (repeat c (length l))) (map g l))
  = map (fun a => f (a, c, g a)) l.
Proof. induction l as [|a l IH]; simpl; [reflexivity | now rewrite IH]. Qed.

Lemma Forall2_map_r_In {A B : Type} (R : A -> B -> Prop) (k : A -> B)
  (l : list A) :
  (forall a, In a l -> R a (k a)) -> Forall2 R l (map k l).
Proof.
  induction l as [|a l IH]; intros HR; simpl; constructor.
  - apply HR. now left.
  - apply IH. intros; apply HR. now right.
Qed.

(** [image_normalization] returns, image by image, a value equal to the total. *)
Lemma image_normalization_nth (h w : nat) (stack : list (list (list npfloat)))
  (nansum : bool) :
  Forall (rect2 h w) stack ->
  exists totals,
    image_normalization (Img3 stack) nansum = Ok totals /\
    Forall2 (fun img t => feq t (np_sum nansum (concat img))) stack totals.
Proof.
  intros Hall. unfold image_normalization, image_moment.
  cbn [as_stack Py.bind centers_per_image snd fst Nat.eqb].
  rewrite per_image_repeat.
  eexists. split; [reflexivity|].
  apply Forall2_map_r_In. intros img Hin. cbn [fst].
  eapply feq_trans;
    [|apply unit_weight_sum; eapply stack_row_width; eauto].
  match goal with |- feq (mul ?S _) _ => destruct S; simpl; [exact I | ring] end.
Qed.

(** A sum of non-negative numbers is zero only if every term is. *)
Lemma fold_nonnegative_zero (l : list npfloat) (a : Q) :
  0 <= a -> Forall (fun p => exists q, p = Fin q /\ 0 <= q) l ->
  feq (fold_left add l (Fin a)) (Fin 0) ->
  a == 0 /\ Forall (fun p => feq p (Fin 0)) l.
Proof.
  intros Ha HF; revert a Ha; induction HF as [|p l [q [-> Hq]] HF IH];
    intros a Ha Hs; simpl in *.
  - split; [exact Hs | constructor].
  - destruct (IH (a + q)) as [Haq Hl]; [lra | exact Hs |].
    split; [lra|]. constructor; [simpl; lra | exact Hl].
Qed.

Lemma nonnegative_zero_total (img : list (list npfloat)) :
  nonnegative img -> feq (Np.sum (concat img)) (Fin 0) ->
  Forall (Forall (fun p => feq p (Fin 0))) img.
Proof.
  intros Hnn Hs.
  assert (Hc : Forall (fun p => exists q, p = Fin q /\ 0 <= q) (concat img)).
  { apply Forall_concat. exact Hnn. }
  destruct (@fold_nonnegative_zero (concat img) 0) as [_ Hz];
    [lra | exact Hc | exact Hs |].
  apply Forall_forall. intros row Hrow. apply Forall_forall. intros p Hp.
  rewrite Forall_forall in Hz. apply Hz. apply in_concat. eauto.
Qed.

(** C7, as the code has it, in exact arithmetic (rationals and not-a-number: no
    rounding, no overflow).  In a rectangular stack processed with
    [normalize=True], an image whose total is exactly zero gets the normalization
    factor zero, no division taking place: [image_moment] then evaluates to zero
    for that image, whatever the moment and the centers, and [image_normalize]
    with its default [nansum=False] returns that image as all zeros, which is
    the image itself when its pixels are non-negative. *)
Theorem zero_total_normalization
  (stack : list (list (list npfloat))) (i : nat) (img : list (list npfloat))
  (moment : nat * nat) (centers : centers_arg) (nansum : bool) (h w : nat) :
  Forall (rect2 h w) stack ->
  centers_fit (length stack) centers ->
  nth_error stack i = Some img ->
  feq (np_sum nansum (concat img)) (Fin 0) ->
  reciprocal_where (np_sum nansum (concat img)) = Fin 0 /\
  (exists out v,
     image_moment (Img3 stack) moment centers true nansum = Ok out /\
     length out = length stack /\
     nth_error out i = Some v /\ feq v (Fin 0)) /\
  (nansum = false ->
   exists out img',
     image_normalize stack false = Ok out /\
     length out = length stack /\
     nth_error out i = Some img' /\
     Forall2 (Forall2 (fun _ p' => feq p' (Fin 0))) img img' /\
     (nonnegative img -> Forall2 (Forall2 feq) img img')).
Proof.
  intros Hrect Hfit Hi Hzero.
  pose proof (reciprocal_where_zero _ Hzero) as Hrec.
  split; [exact Hrec|]. split.
  - destruct (@image_moment_normalized_nth stack moment centers nansum i img
                Hfit Hi) as (out & S & Hout & Hlen & Hn & HS).
    exists out, (mul S (reciprocal_where (np_sum nansum (concat img)))).
    repeat split; auto. rewrite Hrec. apply mul_zero, HS.
    eapply feq_fin_inv; eauto.
  - intros ->. unfold image_normalize.
    destruct (@image_normalization_nth h w stack false Hrect)
      as [totals [-> Htot]].
    cbn [Py.bind].
    destruct (@Forall2_nth_error_l _ _ _ _ _ i img Htot Hi) as [t [Ht Hfeq]].
    assert (Hrt : reciprocal_where t = Fin 0).
    { apply reciprocal_where_zero. eapply feq_trans; eauto. }
    eexists. exists (map (map (fun p => mul p (Fin 0))) img).
    split; [reflexivity|]. split; [|split; [|split]].
    + rewrite length_map, length_combine, length_map.
      apply Forall2_length in Htot. lia.
    + rewrite nth_error_map.
      rewrite (@nth_error_combine_some _ _ _ _ _ _ _ Hi
                 (map_nth_error reciprocal_where _ _ Ht)).
      cbn. now rewrite Hrt.
    + assert (Hfin : Forall (fun x => is_nan x = false) (concat img)).
      { apply sum_fin_iff. eapply feq_fin_inv. exact Hzero. }
      apply Forall2_map_r_In. intros row Hrow.
      apply Forall2_map_r_In. intros p Hp. apply mul_zero.
      rewrite Forall_forall in Hfin. apply Hfin. apply in_concat. eauto.
    + intros Hnn. pose proof (@nonnegative_zero_total img Hnn Hzero) as Hz.
      apply Forall2_map_r_In. intros row Hrow.
      apply Forall2_map_r_In. intros p Hp.
      rewrite Forall_forall in Hz. specialize (Hz row Hrow).
      rewrite Forall_forall in Hz. specialize (Hz p Hp).
      eapply feq_trans; [exact Hz|]. apply feq_sym, mul_zero.
      eapply feq_fin_inv; eauto.
Qed.

(** The statement at a stack of two 1x2 images, the second one all zero. *)
Lemma zero_total_normalization_witness :
  reciprocal_where (np_sum false (concat [[Fin 0; Fin 0]])) = Fin 0 /\
  (exists out v,
     image_moment (Img3 [[[Fin 1; Fin 2]]; [[Fin 0; Fin 0]]]) (1, 0)%nat
                  (CenterPair 0 0) true false = Ok out /\
     length out = 2%nat /\
     nth_error out 1 = Some v /\ feq v (Fin 0)) /\
  (false = false ->
   exists out img',
     image_normalize [[[Fin 1; Fin 2]]; [[Fin 0; Fin 0]]] false = Ok out /\
     length out = 2%nat /\
     nth_error out 1 = Some img' /\
     Forall2 (Forall2 (fun _ p' => feq p' (Fin 0))) [[Fin 0; Fin 0]] img' /\
     (nonnegative [[Fin 0; Fin 0]] ->
      Forall2 (Forall2 feq) [[Fin 0; Fin 0]] img')).
Proof.
  apply (@zero_total_normalization
           [[[Fin 1; Fin 2]]; [[Fin 0; Fin 0]]] 1 [[Fin 0; Fin 0]] (1, 0)%nat
           (CenterPair 0 0) false 1 2).
  - unfold rect2. repeat constructor.
  - exact I.
  - reflexivity.
  - vm_compute. reflexivity.
Defined.

(** In exact arithmetic the zeroth moment with [normalize=True] is one for every
    image of positive total: the code computes the total times its reciprocal. *)
Lemma image_moment_zeroth_exact (stack : list (list (list npfloat)))
  (nansum : bool) (h w : nat) :
  Forall (rect2 h w) stack ->
  Forall (fun img => exists t, np_sum nansum (concat img) = Fin t /\ 0 < t) stack ->
  exists out,
    image_moment (Img3 stack) (0, 0)%nat (CenterPair 0 0) true nansum = Ok out /\
    Forall2 (fun _ v => feq v (Fin 1)) stack out.
Proof.
  intros Hrect Hpos. unfold image_moment.
  cbn [as_stack Py.bind centers_per_image snd fst Nat.eqb].
  rewrite per_image_repeat.
  eexists. split; [reflexivity|].
  apply Forall2_map_r_In. intros img Hin. cbn [fst].
  rewrite Forall_forall in Hpos. destruct (Hpos img Hin) as [t [Ht Htpos]].
  pose proof (@unit_weight_sum nansum img (length (hd [] (hd [] stack)))) as HS.
  rewrite Ht in HS |- *.
  match type of HS with _ -> feq ?S _ => destruct S as [|s] end;
    [exfalso; apply HS; eapply stack_row_width; eauto|].
  assert (Hs : s == t) by (apply HS; eapply stack_row_width; eauto).
  unfold reciprocal_where. simpl.
  destruct (Qeq_bool t 0) eqn:Et.
  - apply Qeq_bool_iff in Et. lra.
  - simpl. rewrite Hs. field. lra.
Qed.

(** ** Evaluations on binary64 numbers *)

(** C8. On the one-pixel image [[[49.0]]], whose total is positive,
    [image_moment(images, (0, 0), normalize=True)] does not return one: the moment
    [(0, 0)] takes the [x] branch, which multiplies the total by its rounded
    reciprocal, and the branch that returns [np.ones] is never reached. *)
Theorem image_moment_zeroth_not_one :
  image_moment (Img3 [[[49%float]]]) (0, 0)%nat (CenterPair 0 0) true false
    = Ok [0x1.fffffffffffffp-1%float] /\
  PrimFloat.ltb 0x1.fffffffffffffp-1 1 = true.
Proof. split; vm_compute; reflexivity. Qed.

(** C2. On the variances [(M20, M02, M11) = (3, 7, 0)], whose matrix has the
    eigenvalues 7 and 3, [image_ellipticity] returns [1 - 1/9] where the closed
    form of the specification gives [1 - 3/7]; on [(4, 1, 2)], a positive
    semidefinite matrix with a zero minor eigenvalue, it returns not-a-number where
    the specification gives one.  The code computes the determinant as
    [m20 * m20 - m11 * m11]. *)
Theorem image_ellipticity_determinant :
  image_ellipticity ([3; 4], [7; 1], [0; 2])%float
    = [(1 - 1 / 9)%float; PrimFloat.nan] /\
  spec_ellipticity ([3; 4], [7; 1], [0; 2])%float
    = [(1 - 3 / 7)%float; 1%float] /\
  PrimFloat.eqb (1 - 1 / 9) (1 - 3 / 7) = false.
Proof. repeat split; vm_compute; reflexivity. Qed.

(** C7, as it is stated, fails on binary64 numbers at three images whose total
    is exactly zero.  The image [[1, -1]] is not returned unchanged by
    [image_normalize]: it comes back as [[0, -0]].  With [nansum=True] the image
    [[nan, 0]] keeps its not-a-number and is not all zeros.  On
    [[2^1023, 0, -2^1023, 0, 0]] the weighted sum of the first moment overflows,
    and [image_moment] gives not-a-number, not zero. *)
Lemma zero_total_claim_fails :
  (image_normalization (Img3 [[[1; -1]]]%float) false = Ok [0%float] /\
   image_normalize [[[1; -1]]]%float false = Ok [[[0; -0]]]%float /\
   image_normalize [[[1; -1]]]%float false <> Ok [[[1; -1]]]%float) /\
  (image_normalization (Img3 [[[PrimFloat.nan; 0%float]]]) true = Ok [0%float] /\
   image_normalize [[[PrimFloat.nan; 0%float]]] true
   = Ok [[[PrimFloat.nan; 0%float]]] /\
   PrimFloat.eqb PrimFloat.nan 0 = false) /\
  (image_normalization (Img3 [[[0x1p+1023; 0; -0x1p+1023; 0; 0]]]%float) false
   = Ok [0%float] /\
   image_moment (Img3 [[[0x1p+1023; 0; -0x1p+1023; 0; 0]]]%float) (1, 0)%nat
                (CenterPair 0 0) true false = Ok [PrimFloat.nan] /\
   PrimFloat.eqb PrimFloat.nan 0 = false).
Proof.
  split; [|split].
  - split; [vm_compute; reflexivity|]. split; [vm_compute; reflexivity|].
    intros Hsame.
    apply (f_equal (fun r : result (list (list (list float))) =>
                      match r with
                      | Ok [[p :: _]] => PrimFloat.eqb p 1
                      | _ => true
                      end)) in Hsame.
    vm_compute in Hsame. discriminate.
  - repeat split; vm_compute; reflexivity.
  - repeat split; vm_compute; reflexivity.
Qed.

(** The window size of the honing pass for the matrix [[-4, 0], [-2, 4]]: the
    column maxima are -2 and 4. *)
Example psf_of_negative : psf_of (Mat2 (- (4)) 0 (- (2)) 4) = (-1)%Z.
Proof. vm_compute. reflexivity. Qed.

(** The cosines and sines of the parity rotation are binary64 numbers: the ones
    that print as [6.123233995736766e-17], [1.2246467991473532e-16] and
    [-1.8369701987210297e-16], beside zero and plus or minus one. *)
Example quarter_turn_binary64 :
  map (fun k => of_Q (F := float) (cos_quarter k)) [0; 1; 2; 3]%nat
  = [1; 0x1.1a62633145c07p-54; -1; -0x1.a79394c9e8a0ap-53]%float /\
  map (fun k => of_Q (F := float) (sin_quarter k)) [0; 1; 2; 3]%nat
  = [0; 1; 0x1.1a62633145c07p-53; -1]%float.
Proof. split; vm_compute; reflexivity. Qed.

(** On binary64 numbers too an all-zero image gets the factor zero: its first
    moment is zero and no division takes place. *)
Example image_moment_zero_total_binary64 :
  image_moment (Img3 [[[1; 2]; [3; 4]]; [[0; 0]; [0; 0]]]%float) (1, 0)%nat
               (CenterPair 0 0) true false
    = Ok [(1 / 10)%float; 0%float] /\
  image_normalize [[[1; 3]]; [[0; 0]]]%float false
    = Ok [[[(1 / 4)%float; (3 / 4)%float]]; [[0; 0]]]%float.
Proof. split; vm_compute; reflexivity. Qed.

(** ** The choice of the orientation *)

Section DetectProperties.

Context {F : Type} `{Float64 F}.

Variable cast_undefined : npfloat -> Z.
Variable fourier_estimate : list (list Z) -> result mat2.
Variable match_template : list (list Z) -> list (list Z) -> result (Q * (Z * Z)).
Variable hone_shift :
  list (list npfloat) -> nat * nat -> mat2 -> F * F -> result (F * F).

(** A honing pass that returns has moved ["b"] only. *)
Lemma hone_keeps_M (img : list (list npfloat)) (size : nat * nat)
  (o o' : mat2 * (F * F)) :
  hone hone_shift img size o = Ok o' -> fst o' = fst o.
Proof.
  unfold hone. destruct (psf_of (fst o) <? 0)%Z; [discriminate|].
  destruct (hone_shift img size (fst o) (snd o)) as [shift|e]; [|discriminate].
  cbn [Py.bind]. intros Ho. now injection Ho as <-.
Qed.

Lemma honed_twice_keeps_M (img : list (list npfloat)) (size : nat * nat)
  (o o' : mat2 * (F * F)) :
  (o1 <- hone hone_shift img size o ;; hone hone_shift img size o1) = Ok o' ->
  fst o' = fst o.
Proof.
  destruct (hone hone_shift img size o) as [o1|e] eqn:E1; [|discriminate].
  cbn [Py.bind]. intros E2.
  rewrite (hone_keeps_M _ _ _ E2). exact (hone_keeps_M _ _ _ E1).
Qed.

(** A chosen orientation whose matrix gives a negative window size makes the
    first honing pass, and with it the detection, raise. *)
Lemma negative_psf_raises (img : list (list npfloat)) (cv2img : list (list Z))
  (size : nat * nat) (orientation : option (mat2 * (Q * Q)))
  (orientation_check : bool) (M : mat2) (b : Q * Q) :
  _make_8bit cast_undefined img = Ok cv2img ->
  orientation_choice fourier_estimate match_template cv2img size orientation
                     orientation_check = Ok (M, b) ->
  (psf_of M < 0)%Z ->
  blob_array_detect cast_undefined fourier_estimate match_template hone_shift
                    img size orientation orientation_check
  = Raise ValueError.
Proof.
  intros H8 Hchoice Hpsf. unfold blob_array_detect.
  rewrite H8. cbn [Py.bind]. rewrite Hchoice. cbn [Py.bind fst snd].
  unfold hone at 1. cbn [fst snd].
  apply Z.ltb_lt in Hpsf. now rewrite Hpsf.
Qed.

(** C9. When a prior orientation is supplied, whatever [orientation_check] is, the
    only candidate is the supplied [M]; its turn of the loop returns it unchanged
    with [parity_success = True], from the kernel and the template match alone;
    the orientation chosen is that [M] with the offset of the match, the
    detection is the two honing passes on it, and what it returns, if it
    returns, has that [M]. *)
Theorem prior_orientation_skips_parity (cv2img : list (list Z)) (size : nat * nat)
  (M : mat2) (b0 : Q * Q) (orientation_check : bool) :
  M_options_of M size false = [M] /\
  trial match_template cv2img size false orientation_check M
    = (shp <- canvas_shape M size ;;
       mask <- scoring_mask M size ;;
       let found := try_except (match_template cv2img mask)
                               (fun _ => (0, (0, 0)%Z)) in
       Ok (TrialResult (fst found) (offset_of (snd found) shp) M true)) /\
  orientation_choice fourier_estimate match_template cv2img size (Some (M, b0))
                     orientation_check
    = (shp <- canvas_shape M size ;;
       mask <- scoring_mask M size ;;
       let found := try_except (match_template cv2img mask)
                               (fun _ => (0, (0, 0)%Z)) in
       Ok (M, offset_of (snd found) shp)) /\
  (forall img : list (list npfloat),
     blob_array_detect cast_undefined fourier_estimate match_template hone_shift
                       img size (Some (M, b0)) orientation_check
     = (img8 <- _make_8bit cast_undefined img ;;
        shp <- canvas_shape M size ;;
        mask <- scoring_mask M size ;;
        let found := try_except (match_template img8 mask)
                                (fun _ => (0, (0, 0)%Z)) in
        let b := offset_of (snd found) shp in
        o <- hone hone_shift img size (M, (of_Q (fst b), of_Q (snd b))) ;;
        hone hone_shift img size o)) /\
  (forall (img : list (list npfloat)) (M' : mat2) (b' : F * F),
     blob_array_detect cast_undefined fourier_estimate match_template hone_shift
                       img size (Some (M, b0)) orientation_check
     = Ok (M', b') -> M' = M).
Proof.
  assert (Hchoice : forall img8 : list (list Z),
             orientation_choice fourier_estimate match_template img8 size
                                (Some (M, b0)) orientation_check
             = (shp <- canvas_shape M size ;;
                mask <- scoring_mask M size ;;
                let found := try_except (match_template img8 mask)
                                        (fun _ => (0, (0, 0)%Z)) in
                Ok (M, offset_of (snd found) shp))).
  { intros img8. unfold orientation_choice. cbn [Py.bind fst].
    unfold M_options_of. rewrite andb_false_r. cbn [mapM].
    unfold trial. rewrite andb_false_l.
    destruct (canvas_shape M size) as [shp|e]; [|reflexivity]. cbn [Py.bind].
    destruct (scoring_mask M size) as [mask|e]; reflexivity. }
  assert (Hdetect : forall img : list (list npfloat),
             blob_array_detect cast_undefined fourier_estimate match_template
                               hone_shift img size (Some (M, b0))
                               orientation_check
             = (img8 <- _make_8bit cast_undefined img ;;
                shp <- canvas_shape M size ;;
                mask <- scoring_mask M size ;;
                let found := try_except (match_template img8 mask)
                                        (fun _ => (0, (0, 0)%Z)) in
                let b := offset_of (snd found) shp in
                o <- hone hone_shift img size (M, (of_Q (fst b), of_Q (snd b))) ;;
                hone hone_shift img size o)).
  { intros img. unfold blob_array_detect.
    destruct (_make_8bit cast_undefined img) as [img8|e]; [|reflexivity].
    cbn [Py.bind]. rewrite Hchoice.
    destruct (canvas_shape M size) as [shp|e]; [|reflexivity]. cbn [Py.bind].
    destruct (scoring_mask M size) as [mask|e]; reflexivity. }
  split; [|split; [|split; [|split]]].
  - unfold M_options_of. now rewrite andb_false_r.
  - unfold trial. now rewrite andb_false_l.
  - apply Hchoice.
  - exact Hdetect.
  - intros img M' b' Hret. rewrite Hdetect in Hret.
    destruct (_make_8bit cast_undefined img) as [img8|e]; [|discriminate].
    cbn [Py.bind] in Hret.
    destruct (canvas_shape M size) as [shp|e]; [|discriminate].
    cbn [Py.bind] in Hret.
    destruct (scoring_mask M size) as [mask|e]; [|discriminate].
    cbn [Py.bind] in Hret.
    exact (honed_twice_keeps_M _ _ _ Hret).
Qed.

(** The parity check raises as soon as one of its three checks fails. *)
Lemma parity_fix_raises (M_trial : mat2) (spotpowers : list (list Z))
  (ny nx : nat) :
  two_dimmest spotpowers = false \/
  one_dim_corner spotpowers ny nx = false \/
  second_adjacent spotpowers ny nx = false ->
  exists e, parity_fix M_trial spotpowers ny nx = Raise e.
Proof.
  unfold two_dimmest, one_dim_corner, second_adjacent, parity_fix.
  intros Hfail.
  destruct (spotbooleans_of spotpowers) as [sb|e]; cbn [Py.bind]; [|eauto].
  destruct (count_true (concat sb) =? 2)%nat; cbn [assert Py.bind]; [|eauto].
  destruct (corners_of sb ny nx) as [c|e]; cbn [Py.bind]; [|eauto].
  destruct (count_true c =? 1)%nat; cbn [assert Py.bind]; [|eauto].
  destruct (first_true c) as [k|e]; cbn [Py.bind]; [|eauto].
  destruct (if Nat.even k then flip_parity_of (rot90 nx sb k) ny nx
            else flip_parity_of (rot90 nx sb k) nx ny) as [fp|e];
    cbn [Py.bind]; [|eauto].
  destruct (Z.abs fp =? 1)%Z; cbn [assert Py.bind]; [|eauto].
  destruct Hfail as [Hf|[Hf|Hf]]; discriminate.
Qed.

(** Conversely it returns a matrix when the three checks pass. *)
Lemma parity_fix_returns (M_trial : mat2) (spotpowers : list (list Z))
  (ny nx : nat) :
  two_dimmest spotpowers = true ->
  one_dim_corner spotpowers ny nx = true ->
  second_adjacent spotpowers ny nx = true ->
  exists M, parity_fix M_trial spotpowers ny nx = Ok M.
Proof.
  unfold two_dimmest, one_dim_corner, second_adjacent, parity_fix.
  intros H1 H2 H3.
  destruct (spotbooleans_of spotpowers) as [sb|e]; [|discriminate].
  cbn [Py.bind]. rewrite H1. cbn [assert Py.bind].
  destruct (corners_of sb ny nx) as [c|e]; [|discriminate].
  cbn [Py.bind]. rewrite H2. cbn [assert Py.bind].
  destruct (first_true c) as [k|e]; [|discriminate]. cbn [Py.bind].
  destruct (if Nat.even k then flip_parity_of (rot90 nx sb k) ny nx
            else flip_parity_of (rot90 nx sb k) nx ny) as [fp|e];
    [|discriminate].
  cbn [Py.bind]. rewrite H3. cbn [assert Py.bind]. eauto.
Qed.

(** C4. For a candidate whose kernel was built and whose spot powers were
    sampled, if the check does not find exactly two dimmest spots, or not exactly
    one corner among them, or not the second one next to that corner, the turn of
    the loop does not raise: it returns the candidate with its matrix unchanged
    and [parity_success = False], for the choice among the results. *)
Theorem parity_failure_falls_back (cv2img : list (list Z)) (size : nat * nat)
  (M_trial : mat2) (shp : nat * nat) (mask spotpowers : list (list Z)) :
  canvas_shape M_trial size = Ok shp ->
  scoring_mask M_trial size = Ok mask ->
  spotpowers_of cv2img shp
    (snd (try_except (match_template cv2img mask) (fun _ => (0, (0, 0)%Z))))
    (max_pitch_of M_trial) (rotated_centers M_trial size shp) size
    = Ok spotpowers ->
  two_dimmest spotpowers = false \/
  one_dim_corner spotpowers (snd size) (fst size) = false \/
  second_adjacent spotpowers (snd size) (fst size) = false ->
  trial match_template cv2img size true true M_trial
    = Ok (TrialResult
            (fst (try_except (match_template cv2img mask)
                             (fun _ => (0, (0, 0)%Z))))
            (offset_of (snd (try_except (match_template cv2img mask)
                                        (fun _ => (0, (0, 0)%Z)))) shp)
            M_trial false).
Proof.
  intros Hshp Hmask Hsp Hfail. unfold trial.
  rewrite Hshp, Hmask. cbn [Py.bind andb]. rewrite Hsp. cbn [Py.bind].
  destruct (@parity_fix_raises M_trial spotpowers (snd size) (fst size) Hfail)
    as [e ->].
  reflexivity.
Qed.

(** C3. With a non-square array and no prior orientation there are two
    candidates, the estimate and its columns swapped.  When both turns of the loop
    return, the orientation chosen is one of the two: the one whose parity check
    succeeded when exactly one did, and otherwise the one with the higher
    correlation score (the first one on equal scores).  The detection is the
    two honing passes on the chosen one, and what it returns, if it returns,
    has the matrix of the chosen one. *)
Theorem candidate_selection (img : list (list npfloat)) (cv2img : list (list Z))
  (size : nat * nat) (orientation_check : bool) (M : mat2)
  (r0 r1 : trial_result) :
  fst size <> snd size ->
  _make_8bit cast_undefined img = Ok cv2img ->
  fourier_estimate cv2img = Ok M ->
  trial match_template cv2img size true orientation_check M = Ok r0 ->
  trial match_template cv2img size true orientation_check
        (Mat2 (m01 M) (m00 M) (m11 M) (m10 M)) = Ok r1 ->
  exists r,
    orientation_choice fourier_estimate match_template cv2img size None
                       orientation_check = Ok (M_fixed r, b_fixed r) /\
    (r = r0 \/ r = r1) /\
    (parity_success r0 = true -> parity_success r1 = false -> r = r0) /\
    (parity_success r0 = false -> parity_success r1 = true -> r = r1) /\
    (parity_success r0 = parity_success r1 ->
     max_val r0 < max_val r1 -> r = r1) /\
    (parity_success r0 = parity_success r1 ->
     max_val r1 <= max_val r0 -> r = r0) /\
    blob_array_detect cast_undefined fourier_estimate match_template hone_shift
                      img size None orientation_check
    = (o <- hone hone_shift img size
               (M_fixed r, (of_Q (fst (b_fixed r)), of_Q (snd (b_fixed r)))) ;;
       hone hone_shift img size o) /\
    (forall (M' : mat2) (b' : F * F),
       blob_array_detect cast_undefined fourier_estimate match_template
                         hone_shift img size None orientation_check
       = Ok (M', b') -> M' = M_fixed r).
Proof.
  intros Hsize H8 Hest H0 H1.
  assert (Hex : exists r,
             orientation_choice fourier_estimate match_template cv2img size
                                None orientation_check
             = Ok (M_fixed r, b_fixed r) /\
             (r = r0 \/ r = r1) /\
             (parity_success r0 = true -> parity_success r1 = false -> r = r0) /\
             (parity_success r0 = false -> parity_success r1 = true -> r = r1) /\
             (parity_success r0 = parity_success r1 ->
              max_val r0 < max_val r1 -> r = r1) /\
             (parity_success r0 = parity_success r1 ->
              max_val r1 <= max_val r0 -> r = r0)).
  { unfold orientation_choice.
    rewrite Hest. cbn [Py.bind]. unfold M_options_of.
    apply Nat.eqb_neq in Hsize. rewrite Hsize. cbn [negb andb mapM].
    rewrite H0, H1. cbn [Py.bind select_index].
    destruct (parity_success r0) eqn:P0, (parity_success r1) eqn:P1;
      cbn [Bool.eqb].
    - destruct (Qle_bool (max_val r1) (max_val r0)) eqn:Hle; cbn [nth_error].
      + exists r0. apply Qle_bool_iff in Hle.
        repeat split; auto; try discriminate; intros; lra.
      + exists r1.
        assert (~ max_val r1 <= max_val r0)
          by (intro Hc; apply Qle_bool_iff in Hc; congruence).
        repeat split; auto; try discriminate; intros; lra.
    - exists r0. cbn [nth_error]. repeat split; auto; discriminate.
    - exists r1. cbn [nth_error]. repeat split; auto; discriminate.
    - destruct (Qle_bool (max_val r1) (max_val r0)) eqn:Hle; cbn [nth_error].
      + exists r0. apply Qle_bool_iff in Hle.
        repeat split; auto; try discriminate; intros; lra.
      + exists r1.
        assert (~ max_val r1 <= max_val r0)
          by (intro Hc; apply Qle_bool_iff in Hc; congruence).
        repeat split; auto; try discriminate; intros; lra. }
  destruct Hex as [r [Hchoice [Hr [Ha [Hb [Hc Hd]]]]]].
  assert (Hdetect :
            blob_array_detect cast_undefined fourier_estimate match_template
                              hone_shift img size None orientation_check
            = (o <- hone hone_shift img size
                       (M_fixed r,
                        (of_Q (fst (b_fixed r)), of_Q (snd (b_fixed r)))) ;;
               hone hone_shift img size o)).
  { unfold blob_array_detect. rewrite H8. cbn [Py.bind].
    rewrite Hchoice. reflexivity. }
  exists r. do 6 (split; [assumption|]). split; [exact Hdetect|].
  intros M' b' Hret. rewrite Hdetect in Hret.
  exact (honed_twice_keeps_M _ _ _ Hret).
Qed.

End DetectProperties.

(** The fall-back at a 2x2 array of pitch 3 on a black 12x12 image: every spot has
    power zero, so all four spots are among the dimmest. *)
Lemma parity_failure_falls_back_witness :
  trial (fun _ _ => Ok (1, (0, 0)%Z)) (zeros 12 12) (2, 2)%nat true true
        (Mat2 3 0 0 3)
  = Ok (TrialResult 1 (offset_of (0, 0)%Z (12, 12)%nat) (Mat2 3 0 0 3) false).
Proof.
  apply (@parity_failure_falls_back
           (fun _ _ => Ok (1, (0, 0)%Z)) (zeros 12 12) (2, 2)%nat (Mat2 3 0 0 3)
           (12, 12)%nat
           (match scoring_mask (Mat2 3 0 0 3) (2, 2)%nat with
            | Ok m => m
            | Raise _ => []
            end)
           [[0; 0]; [0; 0]]%Z).
  - vm_compute. reflexivity.
  - vm_compute. reflexivity.
  - vm_compute. reflexivity.
  - left. vm_compute. reflexivity.
Defined.

(** The choice at a 3x2 array of pitch 3 whose two dim spots are the last two of
    the last row, on a 15x15 image, the template match scoring a candidate by
    the height of its kernel.  The parity check of the estimate succeeds; the
    one of the swapped candidate finds three dim spots and fails.  The estimate
    is chosen although the swapped candidate has the higher score. *)
Lemma candidate_selection_witness :
  exists r,
    orientation_choice
      (fun _ => Ok (Mat2 3 0 0 3))
      (fun _ mask => Ok (inject_Z (Z.of_nat (length mask)), (0, 0)%Z))
      (spots_image 15 15 [(4, 4); (7, 4); (10, 4); (4, 7)]%nat 255%Z 0%Z)
      (3, 2)%nat None true
    = Ok (M_fixed r, b_fixed r) /\
    (r = TrialResult 12 (15 # 2, 12 # 2) (Mat2 3 0 0 3) true \/
     r = TrialResult 15 (12 # 2, 15 # 2) (Mat2 0 3 3 0) false) /\
    (true = true -> false = false ->
     r = TrialResult 12 (15 # 2, 12 # 2) (Mat2 3 0 0 3) true) /\
    (true = false -> false = true ->
     r = TrialResult 15 (12 # 2, 15 # 2) (Mat2 0 3 3 0) false) /\
    (true = false -> 12 < 15 ->
     r = TrialResult 15 (12 # 2, 15 # 2) (Mat2 0 3 3 0) false) /\
    (true = false -> 15 <= 12 ->
     r = TrialResult 12 (15 # 2, 12 # 2) (Mat2 3 0 0 3) true) /\
    blob_array_detect
      (fun _ => 0%Z)
      (fun _ => Ok (Mat2 3 0 0 3))
      (fun _ mask => Ok (inject_Z (Z.of_nat (length mask)), (0, 0)%Z))
      (fun _ _ _ _ => Ok (Fin (1 # 2), Fin 0))
      (spots_image 15 15 [(4, 4); (7, 4); (10, 4); (4, 7)]%nat (Fin 255) (Fin 0))
      (3, 2)%nat None true
    = (o <- hone (fun _ _ _ _ => Ok (Fin (1 # 2), Fin 0))
               (spots_image 15 15 [(4, 4); (7, 4); (10, 4); (4, 7)]%nat
                            (Fin 255) (Fin 0))
               (3, 2)%nat
               (M_fixed r, (Fin (fst (b_fixed r)), Fin (snd (b_fixed r)))) ;;
       hone (fun _ _ _ _ => Ok (Fin (1 # 2), Fin 0))
            (spots_image 15 15 [(4, 4); (7, 4); (10, 4); (4, 7)]%nat
                         (Fin 255) (Fin 0))
            (3, 2)%nat o) /\
    (forall (M' : mat2) (b' : npfloat * npfloat),
       blob_array_detect
         (fun _ => 0%Z)
         (fun _ => Ok (Mat2 3 0 0 3))
         (fun _ mask => Ok (inject_Z (Z.of_nat (length mask)), (0, 0)%Z))
         (fun _ _ _ _ => Ok (Fin (1 # 2), Fin 0))
         (spots_image 15 15 [(4, 4); (7, 4); (10, 4); (4, 7)]%nat
                      (Fin 255) (Fin 0))
         (3, 2)%nat None true
       = Ok (M', b') -> M' = M_fixed r).
Proof.
  apply (@candidate_selection
           npfloat exact
           (fun _ => 0%Z)
           (fun _ => Ok (Mat2 3 0 0 3))
           (fun _ mask => Ok (inject_Z (Z.of_nat (length mask)), (0, 0)%Z))
           (fun _ _ _ _ => Ok (Fin (1 # 2), Fin 0))
           (spots_image 15 15 [(4, 4); (7, 4); (10, 4); (4, 7)]%nat
                        (Fin 255) (Fin 0))
           (spots_image 15 15 [(4, 4); (7, 4); (10, 4); (4, 7)]%nat 255%Z 0%Z)
           (3, 2)%nat true (Mat2 3 0 0 3)
           (TrialResult 12 (15 # 2, 12 # 2) (Mat2 3 0 0 3) true)
           (TrialResult 15 (12 # 2, 15 # 2) (Mat2 0 3 3 0) false)).
  - simpl. lia.
  - vm_compute. reflexivity.
  - reflexivity.
  - vm_compute. reflexivity.
  - vm_compute. reflexivity.
Defined.

(** ** The scoring mask *)

Lemma fold_add_Z (l : list Z) (a : Z) :
  fold_left Z.add l a = (a + fold_left Z.add l 0)%Z.
Proof.
  revert a; induction l as [|x l IH]; intros a; simpl; [lia|].
  rewrite (IH (a + x)%Z), (IH x). lia.
Qed.

Lemma sum_Z_cons (a : Z) (l : list Z) : Np.sum (a :: l) = (a + Np.sum l)%Z.
Proof. unfold Np.sum. simpl. now rewrite fold_add_Z. Qed.

Lemma sum_Z_repeat_zero (n : nat) : Np.sum (repeat 0%Z n) = 0%Z.
Proof. induction n as [|n IH]; [reflexivity|]. simpl repeat. now rewrite sum_Z_cons, IH. Qed.

Lemma length_list_set {T : Type} (i : nat) (v : T) (l : list T) :
  length (list_set i v l) = length l.
Proof.
  revert i; induction l as [|a l IH]; intros [|i]; simpl; auto.
Qed.

Lemma sum_list_set (i : nat) (v old : Z) (l : list Z) :
  nth_error l i = Some old ->
  Np.sum (list_set i v l) = (Np.sum l - old + v)%Z.
Proof.
  revert i; induction l as [|a l IH]; intros [|i] Hi; simpl in *; try discriminate.
  - injection Hi as <-. rewrite !sum_Z_cons. lia.
  - rewrite !sum_Z_cons, (IH i Hi). lia.
Qed.

Lemma map_list_set {A B : Type} (f : A -> B) (i : nat) (v : A) (l : list A) :
  map f (list_set i v l) = list_set i (f v) (map f l).
Proof.
  revert i; induction l as [|a l IH]; intros [|i]; simpl; auto. now rewrite IH.
Qed.

Lemma nth_list_set_same {T : Type} (i : nat) (v d : T) (l : list T) :
  (i < length l)%nat -> nth i (list_set i v l) d = v.
Proof.
  revert i; induction l as [|a l IH]; intros [|i] Hi; simpl in *; try lia; auto.
  apply IH. lia.
Qed.

Lemma nth_list_set_other {T : Type} (i j : nat) (v d : T) (l : list T) :
  i <> j -> nth j (list_set i v l) d = nth j l d.
Proof.
  revert i j; induction l as [|a l IH]; intros [|i] [|j] Hij; simpl; auto;
    try congruence.
Qed.

Lemma norm_index_in_range (n : nat) (i : Z) :
  (0 <= i < Z.of_nat n)%Z -> norm_index n i = Ok (Z.to_nat i).
Proof.
  intros Hi. unfold norm_index.
  replace ((0 <=? i)%Z && (i <? Z.of_nat n)%Z) with true; [reflexivity|].
  symmetry. apply andb_true_iff. split; [apply Z.leb_le | apply Z.ltb_lt]; lia.
Qed.

(** One store into a rectangular mask: the total moves by the difference with
    the old entry, the stored pixel reads back, the other pixels keep their
    entries. *)
Lemma setitem2_on_canvas (mask : list (list Z)) (shp : nat * nat) (p : Z * Z)
  (v : Z) :
  rect2 (fst shp) (snd shp) mask -> on_canvas shp p ->
  exists mask',
    setitem2 mask (fst shp) (snd shp) (fst p) (snd p) v = Ok mask' /\
    rect2 (fst shp) (snd shp) mask' /\
    total mask' = (total mask - cell mask p + v)%Z /\
    cell mask' p = v /\
    (forall q, on_canvas shp q -> q <> p -> cell mask' q = cell mask q).
Proof.
  intros [Hlen Hrows] [Hy Hx]. unfold setitem2.
  rewrite (norm_index_in_range _ Hy), (norm_index_in_range _ Hx). cbn [Py.bind].
  set (y := Z.to_nat (fst p)). set (x := Z.to_nat (snd p)).
  assert (Hylt : (y < length mask)%nat) by (unfold y; lia).
  destruct (nth_error mask y) as [row|] eqn:Erow;
    [|apply nth_error_None in Erow; lia].
  assert (Hrow : length row = snd shp).
  { rewrite Forall_forall in Hrows. apply Hrows. eapply nth_error_In; eauto. }
  assert (Hxlt : (x < length row)%nat) by (unfold x; lia).
  assert (Hnth : nth y mask [] = row) by (now apply nth_error_nth).
  destruct (nth_error row x) as [old|] eqn:Eold;
    [|apply nth_error_None in Eold; lia].
  assert (Hcell : cell mask p = old).
  { unfold cell. fold y x. rewrite Hnth. now apply nth_error_nth. }
  eexists. split; [reflexivity|]. split; [|split; [|split]].
  - split; [now rewrite length_list_set|].
    apply Forall_forall. intros r Hr.
    apply In_nth_error in Hr as [k Hk].
    destruct (Nat.eq_dec k y) as [->|Hne].
    + assert (Hr : nth y (list_set y (list_set x v row) mask) [] = r)
        by (now apply nth_error_nth).
      rewrite nth_list_set_same in Hr by assumption. subst r.
      now rewrite length_list_set.
    + assert (Hr : nth k (list_set y (list_set x v row) mask) [] = r)
        by (now apply nth_error_nth).
      rewrite nth_list_set_other in Hr by congruence. subst r.
      rewrite Forall_forall in Hrows. apply Hrows. apply nth_In.
      assert (Hk' : (k < length (list_set y (list_set x v row) mask))%nat)
        by (apply nth_error_Some; congruence).
      now rewrite length_list_set in Hk'.
  - unfold total. rewrite map_list_set.
    rewrite (@sum_list_set y (Np.sum (list_set x v row)) (Np.sum row));
      [|now apply map_nth_error].
    rewrite (@sum_list_set x v old row Eold), Hcell. lia.
  - unfold cell. fold y x. rewrite nth_list_set_same by assumption.
    now apply nth_list_set_same.
  - intros q [Hqy Hqx] Hq. unfold cell.
    destruct (Nat.eq_dec (Z.to_nat (fst q)) y) as [Ey|Ney].
    + rewrite Ey, nth_list_set_same by assumption. rewrite Hnth.
      apply nth_list_set_other. intros Ex. apply Hq.
      destruct p, q; simpl in *. unfold y, x in *. simpl in *. f_equal; lia.
    + now rewrite nth_list_set_other by congruence.
Qed.

(** A run of stores of [v] at pairwise distinct pixels that all held [old]. *)
Lemma assign_fresh (shp : nat * nat) (pixels : list (Z * Z)) (v old : Z) :
  forall mask,
    rect2 (fst shp) (snd shp) mask ->
    NoDup pixels -> Forall (on_canvas shp) pixels ->
    (forall p, In p pixels -> cell mask p = old) ->
    exists mask',
      assign mask (fst shp) (snd shp) pixels v = Ok mask' /\
      rect2 (fst shp) (snd shp) mask' /\
      total mask' = (total mask + Z.of_nat (length pixels) * (v - old))%Z /\
      (forall p, In p pixels -> cell mask' p = v) /\
      (forall q, on_canvas shp q -> ~ In q pixels -> cell mask' q = cell mask q).
Proof.
  induction pixels as [|p pixels IH]; intros mask Hrect Hnd Hon Hold.
  - exists mask. cbn [assign length].
    split; [reflexivity|]. split; [exact Hrect|]. split; [lia|].
    split; [intros p []|reflexivity].
  - inversion Hnd as [|? ? Hnotin Hnd']; subst.
    inversion Hon as [|? ? Hp Hon']; subst.
    destruct (@setitem2_on_canvas mask shp p v Hrect Hp)
      as (mask1 & Hset & Hrect1 & Htot1 & Hcell1 & Hother1).
    destruct (IH mask1 Hrect1 Hnd' Hon') as (mask' & Has & Hrect' & Htot' & Hin' & Hout').
    { intros q Hq. rewrite Hother1.
      - apply Hold. now right.
      - rewrite Forall_forall in Hon'. now apply Hon'.
      - intros ->. contradiction. }
    exists mask'. cbn [assign]. rewrite Hset. cbn [Py.bind].
    split; [exact Has|]. split; [exact Hrect'|]. split; [|split].
    + rewrite Htot', Htot1, (Hold p (or_introl eq_refl)).
      cbn [length]. lia.
    + intros q [<-|Hq]; [|now apply Hin'].
      rewrite Hout' by assumption. exact Hcell1.
    + intros q Hq Hnq. rewrite Hout'.
      * apply Hother1; [assumption|]. intros ->. apply Hnq. now left.
      * assumption.
      * intros Hc. apply Hnq. now right.
Qed.

Lemma zeros_rect (h w : nat) : rect2 h w (zeros h w).
Proof.
  unfold zeros. split; [apply repeat_length|].
  apply Forall_forall. intros row Hrow. apply repeat_spec in Hrow. subst.
  apply repeat_length.
Qed.

Lemma zeros_total (h w : nat) : total (zeros h w) = 0%Z.
Proof.
  unfold total, zeros. induction h as [|h IH]; [reflexivity|].
  cbn [repeat map]. now rewrite sum_Z_cons, IH, sum_Z_repeat_zero.
Qed.

Lemma nth_repeat_lt {T : Type} (d d' : T) (n k : nat) :
  (k < n)%nat -> nth k (repeat d n) d' = d.
Proof.
  revert k; induction n as [|n IH]; intros [|k] Hk; simpl; try lia; auto.
  apply IH. lia.
Qed.

Lemma zeros_cell (h w : nat) (p : Z * Z) : cell (zeros h w) p = 0%Z.
Proof.
  unfold cell, zeros.
  destruct (Nat.lt_ge_cases (Z.to_nat (fst p)) h) as [Hlt|Hge].
  - rewrite (nth_repeat_lt _ [] Hlt).
    destruct (Nat.lt_ge_cases (Z.to_nat (snd p)) w) as [Hlt'|Hge'].
    + now apply nth_repeat_lt.
    + apply nth_overflow. now rewrite repeat_length.
  - rewrite (nth_overflow _ []) by (now rewrite repeat_length).
    now destruct (Z.to_nat (snd p)).
Qed.

(** *** The lattice points of the array lie among those of the padded array *)

Lemma in_grid (xs ys : list Q) (x y : Q) :
  In (x, y) (grid xs ys) <-> In x xs /\ In y ys.
Proof.
  unfold grid. rewrite in_flat_map. split.
  - intros [y' [Hy Hin]]. apply in_map_iff in Hin as [x' [E Hx]].
    injection E as <- <-. auto.
  - intros [Hx Hy]. exists y. split; [assumption|].
    apply in_map_iff. eauto.
Qed.

Lemma NoDup_grid (xs ys : list Q) :
  NoDup xs -> NoDup ys -> NoDup (grid xs ys).
Proof.
  intros Hxs Hys. unfold grid.
  induction Hys as [|y ys Hy Hys IH]; simpl; [constructor|].
  apply NoDup_app.
  - apply NoDup_map_NoDup_ForallPairs; [|assumption].
    intros a b _ _ E. now injection E.
  - exact IH.
  - intros [x y'] Hin Hin'. apply in_map_iff in Hin as [x' [E _]].
    injection E as Ex Ey. subst. apply in_grid in Hin' as [_ Hc].
    contradiction.
Qed.

Lemma length_grid (xs ys : list Q) :
  length (grid xs ys) = (length ys * length xs)%nat.
Proof.
  unfold grid. apply flat_map_constant_length. intros y _. apply length_map.
Qed.

Lemma length_half_range (n : nat) : length (half_range n) = n.
Proof. unfold half_range, arange. now rewrite !length_map, length_seq. Qed.

Lemma NoDup_half_range (n : nat) : NoDup (half_range n).
Proof.
  unfold half_range, arange.
  apply NoDup_map_NoDup_ForallPairs.
  - intros a b _ _ E. apply Qred_eq_iff in E.
    apply inject_Z_injective. lra.
  - apply NoDup_map_NoDup_ForallPairs; [|apply seq_NoDup].
    intros a b _ _ E. lia.
Qed.

Lemma half_range_padded (n : nat) (x : Q) :
  In x (half_range n) -> In x (half_range (n + 2)).
Proof.
  unfold half_range, arange. intros Hin.
  apply in_map_iff in Hin as [i [<- Hi]].
  apply in_map_iff in Hi as [k [<- Hk]]. apply in_seq in Hk.
  apply in_map_iff. exists (Z.of_nat (k + 1)). split.
  - apply Qred_complete.
    rewrite !Nat2Z.inj_add, !inject_Z_plus. simpl (inject_Z (Z.of_nat 2)).
    simpl (inject_Z (Z.of_nat 1)). field.
  - apply in_map. apply in_seq. lia.
Qed.

Lemma centers_padded (size : nat * nat) (c : Q * Q) :
  In c (centers_of size) -> In c (centers_larger_of size).
Proof.
  destruct c as [x y]. unfold centers_of, centers_larger_of.
  rewrite !in_grid. intros [Hx Hy]. split; now apply half_range_padded.
Qed.

Lemma NoDup_map_injective_on {A B : Type} (f : A -> B) (l : list A) (a b : A) :
  NoDup (map f l) -> In a l -> In b l -> f a = f b -> a = b.
Proof.
  induction l as [|x l IH]; intros Hnd Ha Hb E; [contradiction|].
  simpl in Hnd. inversion Hnd as [|? ? Hnotin Hnd']; subst.
  destruct Ha as [->|Ha], Hb as [->|Hb]; auto.
  - exfalso. apply Hnotin. rewrite E. now apply in_map.
  - exfalso. apply Hnotin. rewrite <- E. now apply in_map.
Qed.

(** The pixels of the array are among the pixels of the padded array, and they
    are pairwise distinct when those are. *)
Lemma array_pixels_padded (M_trial : mat2) (size shp : nat * nat) :
  incl (array_pixels M_trial size shp) (padded_pixels M_trial size shp) /\
  (NoDup (padded_pixels M_trial size shp) ->
   NoDup (array_pixels M_trial size shp)).
Proof.
  unfold array_pixels, padded_pixels, rotated_centers, rotated_centers_larger.
  rewrite !map_map. split.
  - intros p Hp. apply in_map_iff in Hp as [c [<- Hc]].
    apply in_map_iff. exists c. split; [reflexivity | now apply centers_padded].
  - intros Hnd. apply NoDup_map_NoDup_ForallPairs.
    + intros a b Ha Hb E.
      eapply NoDup_map_injective_on; [exact Hnd | | | exact E];
        now apply centers_padded.
    + apply NoDup_grid; apply NoDup_half_range.
Qed.

Lemma length_padded_pixels (M_trial : mat2) (size shp : nat * nat) :
  length (padded_pixels M_trial size shp)
  = ((snd size + 2) * (fst size + 2))%nat.
Proof.
  unfold padded_pixels, rotated_centers_larger, centers_larger_of.
  now rewrite !length_map, length_grid, !length_half_range.
Qed.

Lemma length_array_pixels (M_trial : mat2) (size shp : nat * nat) :
  length (array_pixels M_trial size shp) = (snd size * fst size)%nat.
Proof.
  unfold array_pixels, rotated_centers, centers_of.
  now rewrite !length_map, length_grid, !length_half_range.
Qed.

(** X20. Whenever the lattice points of the padded array fall on pairwise
    distinct pixels of the canvas, the scoring mask is built, holds
    [2 * (Nx + Ny) + 4] at the [Nx * Ny] pixels of the array, [-(Nx * Ny)] at the
    other pixels of the padded array and zero elsewhere, and its entries sum to
    zero. *)
Theorem scoring_mask_total_zero (M_trial : mat2) (size shp : nat * nat) :
  canvas_shape M_trial size = Ok shp ->
  NoDup (padded_pixels M_trial size shp) ->
  Forall (on_canvas shp) (padded_pixels M_trial size shp) ->
  exists mask,
    scoring_mask M_trial size = Ok mask /\
    total mask = 0%Z /\
    (forall p, In p (array_pixels M_trial size shp) ->
               cell mask p = (2 * (Z.of_nat (fst size) + Z.of_nat (snd size)) + 4)%Z) /\
    (forall p, In p (padded_pixels M_trial size shp) ->
               ~ In p (array_pixels M_trial size shp) ->
               cell mask p = (- (Z.of_nat (fst size) * Z.of_nat (snd size)))%Z) /\
    (forall p, on_canvas shp p -> ~ In p (padded_pixels M_trial size shp) ->
               cell mask p = 0%Z).
Proof.
  intros Hshp Hnd Hon. unfold scoring_mask. rewrite Hshp. cbn [Py.bind].
  fold (padded_pixels M_trial size shp). fold (array_pixels M_trial size shp).
  destruct (array_pixels_padded M_trial size shp) as [Hincl Hnd_array].
  set (area := (Z.of_nat (fst size) * Z.of_nat (snd size))%Z).
  set (perimeter := (2 * (Z.of_nat (fst size) + Z.of_nat (snd size)) + 4)%Z).
  destruct (@assign_fresh shp (padded_pixels M_trial size shp) (- area)%Z 0%Z
              (zeros (fst shp) (snd shp)))
    as (mask1 & Has1 & Hrect1 & Htot1 & Hin1 & Hout1);
    [apply zeros_rect | exact Hnd | exact Hon | intros; apply zeros_cell |].
  rewrite Has1. cbn [Py.bind].
  destruct (@assign_fresh shp (array_pixels M_trial size shp) perimeter
              (- area)%Z mask1)
    as (mask2 & Has2 & Hrect2 & Htot2 & Hin2 & Hout2).
  - exact Hrect1.
  - apply Hnd_array, Hnd.
  - apply Forall_forall. intros p Hp. rewrite Forall_forall in Hon.
    apply Hon, Hincl, Hp.
  - intros p Hp. apply Hin1, Hincl, Hp.
  - exists mask2. split; [exact Has2|]. split; [|split; [|split]].
    + rewrite Htot2, Htot1, zeros_total, length_padded_pixels,
        length_array_pixels.
      unfold perimeter, area. rewrite !Nat2Z.inj_mul, !Nat2Z.inj_add.
      simpl (Z.of_nat 2). ring.
    + exact Hin2.
    + intros p Hp Hnp. rewrite Hout2; [now apply Hin1 | | exact Hnp].
      rewrite Forall_forall in Hon. now apply Hon.
    + intros p Hp Hnp. rewrite Hout2; [|exact Hp|].
      * rewrite Hout1 by assumption. apply zeros_cell.
      * intros Hc. apply Hnp, Hincl, Hc.
Qed.

(** The statement at a 2x2 array of pitch 3: the sixteen points of the padded
    array fall on sixteen pixels of a 12x12 canvas. *)
Lemma scoring_mask_total_zero_witness :
  exists mask,
    scoring_mask (Mat2 3 0 0 3) (2, 2)%nat = Ok mask /\
    total mask = 0%Z /\
    (forall p, In p (array_pixels (Mat2 3 0 0 3) (2, 2)%nat (12, 12)%nat) ->
               cell mask p = (2 * (Z.of_nat 2 + Z.of_nat 2) + 4)%Z) /\
    (forall p, In p (padded_pixels (Mat2 3 0 0 3) (2, 2)%nat (12, 12)%nat) ->
               ~ In p (array_pixels (Mat2 3 0 0 3) (2, 2)%nat (12, 12)%nat) ->
               cell mask p = (- (Z.of_nat 2 * Z.of_nat 2))%Z) /\
    (forall p, on_canvas (12, 12)%nat p ->
               ~ In p (padded_pixels (Mat2 3 0 0 3) (2, 2)%nat (12, 12)%nat) ->
               cell mask p = 0%Z).
Proof.
  assert (Hpix : padded_pixels (Mat2 3 0 0 3) (2, 2)%nat (12, 12)%nat
                 = [(1, 1); (1, 4); (1, 7); (1, 10);
                    (4, 1); (4, 4); (4, 7); (4, 10);
                    (7, 1); (7, 4); (7, 7); (7, 10);
                    (10, 1); (10, 4); (10, 7); (10, 10)]%Z)
    by (vm_compute; reflexivity).
  apply (@scoring_mask_total_zero (Mat2 3 0 0 3) (2, 2)%nat (12, 12)%nat).
  - vm_compute. reflexivity.
  - rewrite Hpix.
    repeat (constructor;
            [intros Hc; simpl in Hc;
             repeat (destruct Hc as [Hc|Hc]; [discriminate|]); exact Hc|]).
    constructor.
  - rewrite Hpix. repeat constructor; simpl; lia.
Defined.

(** C6. The mask does not always have the integrated intensity of zero that the
    comment above its construction announces: the lattice points are written at
    truncated pixel positions, and points that fall on one pixel are written
    once.  For a sheared lattice of pitch one, with the columns [(1, 0)] and
    [(1/2, 1/2)] and a single spot, three of the nine points of the padded array
    fall on pixels that other points already occupy, and the entries of the mask
    sum to three. *)
Lemma scoring_mask_total_nonzero :
  scoring_mask (Mat2 1 (1 # 2) 0 (1 # 2)) (1, 1)%nat
    = Ok [[-1; -1; -1; 0]; [0; -1; 8; -1]]%Z /\
  total [[-1; -1; -1; 0]; [0; -1; 8; -1]]%Z = 3%Z /\
  ~ (forall (M_trial : mat2) (size : nat * nat) (mask : list (list Z)),
       scoring_mask M_trial size = Ok mask -> total mask = 0%Z).
Proof.
  assert (Hm : scoring_mask (Mat2 1 (1 # 2) 0 (1 # 2)) (1, 1)%nat
               = Ok [[-1; -1; -1; 0]; [0; -1; 8; -1]]%Z)
    by (vm_compute; reflexivity).
  split; [exact Hm|]. split; [reflexivity|].
  intros Hall. specialize (Hall _ _ _ Hm). vm_compute in Hall. discriminate.
Qed.

(** * Further properties of the code *)

(** ** The region sampler on regions inside the image *)

Lemma in_combine_has_r {A B : Type} (l : list A) (l' : list B) (a : A) :
  length l = length l' -> In a l -> exists b, In (a, b) (combine l l').
Proof.
  revert l'; induction l as [|x l IH]; intros [|y l'] Hlen Hin; simpl in *;
    try contradiction; try discriminate.
  destruct Hin as [->|Hin].
  - exists y. now left.
  - destruct (IH l' (eq_add_S _ _ Hlen) Hin) as [b Hb]. exists b. now right.
Qed.

Lemma in_combine_has_l {A B : Type} (l : list A) (l' : list B) (b : B) :
  length l = length l' -> In b l' -> exists a, In (a, b) (combine l l').
Proof.
  revert l'; induction l as [|x l IH]; intros [|y l'] Hlen Hin; simpl in *;
    try contradiction; try discriminate.
  destruct Hin as [->|Hin].
  - exists x. now left.
  - destruct (IH l' (eq_add_S _ _ Hlen) Hin) as [a Ha]. exists a. now right.
Qed.

Lemma length_region_xy (edge_x edge_y : list Z) :
  length (region_x edge_x edge_y) = length (region_y edge_x edge_y).
Proof.
  unfold region_x, region_y. induction edge_y as [|e edge_y IH]; simpl;
    [reflexivity|].
  now rewrite !length_app, IH, length_map.
Qed.

(** When no region crosses the bounds, clipping the indices changes nothing and
    the mask is false everywhere. *)
Lemma inside_indices (h w : nat) (vectors : list (Q * Q)) (size : nat * nat)
  (centered : bool) :
  (forall v, In v vectors -> crosses h w v size centered = false) ->
  let edge_x := edge (fst size) centered in
  let edge_y := edge (snd size) centered in
  let integration_x := integration (region_x edge_x edge_y) (map fst vectors) in
  let integration_y := integration (region_y edge_x edge_y) (map snd vectors) in
  map (map (fun ix => Np.clip ix 0 (Z.of_nat w - 1))) integration_x = integration_x /\
  map (map (fun iy => Np.clip iy 0 (Z.of_nat h - 1))) integration_y = integration_y /\
  Forall (Forall (fun b => b = false))
         (range_mask h w integration_y integration_x).
Proof.
  intros Hin edge_x edge_y integration_x integration_y.
  assert (Hpix : forall v p, In v vectors -> In p (region_pixels v size centered) ->
                             out_of_range h w (fst p) (snd p) = false).
  { intros v p Hv Hp. specialize (Hin v Hv). unfold crosses in Hin.
    destruct (out_of_range h w (fst p) (snd p)) eqn:E; [|reflexivity].
    assert (Hex : existsb (fun p : Z * Z => out_of_range h w (fst p) (snd p))
                          (region_pixels v size centered) = true)
      by (apply existsb_exists; eauto).
    congruence. }
  assert (Hlen : forall v,
             length (map (fun r => astype_int (inject_Z r + snd v))
                         (region_y edge_x edge_y))
             = length (map (fun r => astype_int (inject_Z r + fst v))
                           (region_x edge_x edge_y))).
  { intros v. now rewrite !length_map, length_region_xy. }
  split; [|split].
  - unfold integration_x, integration. rewrite map_map.
    apply map_ext_in. intros cx Hcx. apply in_map_iff in Hcx as [v [<- Hv]].
    rewrite <- (map_id (map _ (region_x edge_x edge_y))) at 2.
    apply map_ext_in. intros ix Hix.
    destruct (in_combine_has_l _ _ _ (Hlen v) Hix) as [iy Hp].
    now destruct (clip_in_range _ _ _ _ (Hpix v (iy, ix) Hv Hp)).
  - unfold integration_y, integration. rewrite map_map.
    apply map_ext_in. intros cy Hcy. apply in_map_iff in Hcy as [v [<- Hv]].
    rewrite <- (map_id (map _ (region_y edge_x edge_y))) at 2.
    apply map_ext_in. intros iy Hiy.
    destruct (in_combine_has_r _ _ _ (Hlen v) Hiy) as [ix Hp].
    now destruct (clip_in_range _ _ _ _ (Hpix v (iy, ix) Hv Hp)).
  - unfold range_mask. apply Forall_forall. intros m Hm.
    apply in_map_iff in Hm as [[iy ix] [<- Hrow]]. simpl.
    apply Forall_forall. intros b Hb. apply in_map_iff in Hb as [p [<- Hp]].
    apply In_nth_error in Hrow as [k Hk].
    apply nth_error_combine_inv in Hk as [Hy Hx]. simpl in *.
    apply integration_row in Hy as [cy [Hcy ->]].
    apply integration_row in Hx as [cx [Hcx ->]].
    apply nth_error_map_inv in Hcy as [v1 [Hv1 ->]].
    apply nth_error_map_inv in Hcx as [v2 [Hv2 ->]].
    rewrite Hv1 in Hv2. injection Hv2 as <-.
    apply (Hpix v1); [eapply nth_error_In; eauto | exact Hp].
Qed.

(** Filling under a mask that is false everywhere changes nothing. *)
Lemma fill_masked_false {T : Type} (fill : T) (mask : list (list bool))
  (res : list (list T)) :
  Forall2 (fun m row => length m = length row) mask res ->
  Forall (Forall (fun b => b = false)) mask ->
  fill_masked fill mask res = res.
Proof.
  unfold fill_masked. induction 1 as [|m row mask res Hlen HF IH]; intros Hfalse;
    simpl; [reflexivity|].
  inversion Hfalse as [|? ? Hm Hrest]; subst. f_equal; [|now apply IH].
  clear -Hlen Hm. revert row Hlen.
  induction Hm as [|b m -> Hm IHm]; intros [|x row] Hlen; simpl in *;
    try discriminate; [reflexivity|].
  f_equal. apply IHm. lia.
Qed.

Lemma gather_mask_shape {T : Type} (a : list (list T)) (h w h' w' : nat)
  (iys ixs : list (list Z)) (r : list (list T)) :
  gather a h w iys ixs = Ok r ->
  Forall2 (fun m row => length m = length row) (range_mask h' w' iys ixs) r.
Proof.
  intros Hg. apply mapM_Forall2 in Hg. unfold range_mask.
  induction Hg as [|p row ps r Hp Hg IH]; simpl; constructor; auto.
  apply mapM_Forall2, Forall2_length in Hp. now rewrite length_map.
Qed.

(** X1. On well-shaped images and for vectors whose coordinates are whole numbers
    (the additions that give the pixel indices are then exact in floating point
    too), when no region crosses the image bounds, [take] returns the same
    result with [clip=True] as with [clip=False]: nothing is clipped and nothing
    is marked. *)
Theorem take_clip_irrelevant_inside {T : Type} `{Dtype T} (images : ndimage T)
  (points : list (Z * Z)) (size : nat * nat) (centered integrate : bool)
  (h w : nat) :
  well_shaped h w images ->
  (forall v, In v (whole_vectors points) ->
             crosses h w v size centered = false) ->
  take images (whole_vectors points) size centered integrate true
  = take images (whole_vectors points) size centered integrate false.
Proof.
  generalize (whole_vectors points). intros vectors.
  intros (Hh & Hw & Himg) Hinside.
  destruct (inside_indices h w vectors size centered Hinside)
    as (Hcx & Hcy & Hmask).
  unfold take.
  set (edge_x := edge (fst size) centered) in *.
  set (edge_y := edge (snd size) centered) in *.
  set (integration_x := integration (region_x edge_x edge_y) (map fst vectors)) in *.
  set (integration_y := integration (region_y edge_x edge_y) (map snd vectors)) in *.
  destruct images as [a|a|s]; [| |contradiction].
  - assert (Hshape : shape (Img2 a) = [h; w])
      by (simpl; now rewrite (proj1 Himg), (rect2_hd Hh Himg)).
    rewrite Hshape. cbn [shape_last shape_last2 rev app Py.bind].
    rewrite Hcx, Hcy.
    destruct (gather a (length a) (length (hd [] a)) integration_y integration_x)
      as [r|e] eqn:Hg; [|reflexivity].
    cbn [Py.bind map].
    rewrite fill_masked_false;
      [reflexivity | eapply gather_mask_shape; exact Hg | exact Hmask].
  - destruct Himg as [Hne Hall].
    assert (Hhd : rect2 h w (hd [] a))
      by (destruct a as [|img a]; [congruence | now inversion Hall]).
    assert (Hshape : shape (Img3 a) = [length a; h; w])
      by (simpl; now rewrite (proj1 Hhd), (rect2_hd Hh Hhd)).
    rewrite Hshape. cbn [shape_last shape_last2 rev app Py.bind].
    rewrite Hcx, Hcy.
    destruct (mapM (fun img => gather img (length (hd [] a))
                                     (length (hd [] (hd [] a)))
                                     integration_y integration_x) a)
      as [rs|e] eqn:Hg; [|reflexivity].
    cbn [Py.bind].
    replace (map (fill_masked (try_except store_nan (fun _ => dzero))
                    (range_mask h w integration_y integration_x)) rs) with rs;
      [reflexivity|].
    apply mapM_Forall2 in Hg. clear -Hg Hmask.
    induction Hg as [|img r a' rs Hr Hg IH]; simpl; [reflexivity|].
    rewrite <- IH.
    rewrite fill_masked_false;
      [reflexivity | eapply gather_mask_shape; exact Hr | exact Hmask].
Qed.

(** The statement on a 3x4 image with 3x3 windows at the two pixels whose window
    fits. *)
Lemma take_clip_irrelevant_inside_witness :
  take (Img2 [[1; 2; 3; 4]; [5; 6; 7; 8]; [9; 10; 11; 12]]%Z)
       (whole_vectors [(1, 1); (2, 1)]%Z) (3, 3)%nat true false true
  = take (Img2 [[1; 2; 3; 4]; [5; 6; 7; 8]; [9; 10; 11; 12]]%Z)
         (whole_vectors [(1, 1); (2, 1)]%Z) (3, 3)%nat true false false.
Proof.
  apply (@take_clip_irrelevant_inside Z _
           (Img2 [[1; 2; 3; 4]; [5; 6; 7; 8]; [9; 10; 11; 12]]%Z)
           [(1, 1); (2, 1)]%Z (3, 3)%nat true false 3%nat 4%nat).
  - unfold well_shaped, rect2. repeat split; try lia. repeat constructor.
  - intros v [<-|[<-|[]]]; vm_compute; reflexivity.
Defined.

(** [take] with [clip=True]: the same sampled rows serve both values of
    [integrate]. *)
Lemma take_clip_result_uniform {T : Type} `{Dtype T} (images : ndimage T)
  (vectors : list (Q * Q)) (size : nat * nat) (centered : bool) (h w : nat) :
  well_shaped h w images ->
  exists result : list (list (list T)),
    take images vectors size centered true true
      = Ok (Sums (map (map Np.sum) result)) /\
    take images vectors size centered false true
      = (r <- reshape3 (concat (concat result)) (length vectors)
                       (snd size) (fst size) ;;
         Ok (Crops r)) /\
    Forall2 (fun img res =>
               length res = length vectors /\
               forall k row v,
                 nth_error res k = Some row -> nth_error vectors k = Some v ->
                 Forall2 (clipped_entry fill_value img h w)
                         (region_pixels v size centered) row)
            (image_stack images) result.
Proof.
  intros (Hh & Hw & Himg). unfold take.
  set (edge_x := edge (fst size) centered).
  set (edge_y := edge (snd size) centered).
  set (integration_x := integration (region_x edge_x edge_y) (map fst vectors)).
  set (integration_y := integration (region_y edge_x edge_y) (map snd vectors)).
  destruct images as [a|a|s]; [| |contradiction].
  - assert (Hshape : shape (Img2 a) = [h; w])
      by (simpl; now rewrite (proj1 Himg), (rect2_hd Hh Himg)).
    rewrite Hshape. cbn [shape_last shape_last2 rev app Py.bind].
    rewrite (proj1 Himg), (rect2_hd Hh Himg).
    destruct (gather_clip_total integration_y integration_x Hh Hw Himg) as [r Hr].
    rewrite Hr. cbn [Py.bind map].
    exists [fill_masked fill_value (range_mask h w integration_y integration_x) r].
    split; [reflexivity|]. split; [reflexivity|].
    simpl. constructor; [|constructor].
    exact (clipped_image_rows fill_value a h w vectors size centered Hr).
  - destruct Himg as [Hne Hall].
    assert (Hhd : rect2 h w (hd [] a))
      by (destruct a as [|img a]; [congruence | now inversion Hall]).
    assert (Hshape : shape (Img3 a) = [length a; h; w])
      by (simpl; now rewrite (proj1 Hhd), (rect2_hd Hh Hhd)).
    rewrite Hshape. cbn [shape_last shape_last2 rev app Py.bind].
    rewrite (proj1 Hhd), (rect2_hd Hh Hhd).
    set (g := fun img : list (list T) =>
                gather img h w
                  (map (map (fun iy => Np.clip iy 0 (Z.of_nat h - 1))) integration_y)
                  (map (map (fun ix => Np.clip ix 0 (Z.of_nat w - 1))) integration_x)).
    destruct (mapM_total g a) as [rs Hrs].
    { intros img Hin. rewrite Forall_forall in Hall.
      exact (gather_clip_total integration_y integration_x Hh Hw (Hall img Hin)). }
    rewrite Hrs. cbn [Py.bind].
    exists (map (fill_masked fill_value
                   (range_mask h w integration_y integration_x)) rs).
    split; [reflexivity|]. split; [reflexivity|].
    simpl. apply mapM_Forall2 in Hrs.
    clear -Hrs. induction Hrs as [|img r a rs Hr HF IH]; simpl; constructor; auto.
    exact (clipped_image_rows fill_value img h w vectors size centered Hr).
Qed.

Lemma firstn_app_exact {T : Type} (l l' : list T) :
  firstn (length l) (l ++ l') = l.
Proof. induction l as [|a l IH]; simpl; [now destruct l' | now rewrite IH]. Qed.

Lemma skipn_app_exact {T : Type} (l l' : list T) :
  skipn (length l) (l ++ l') = l'.
Proof. induction l as [|a l IH]; simpl; auto. Qed.

(** Splitting a concatenation of rows of equal length gives the rows back, and
    concatenating the blocks of a list gives the list back. *)
Lemma chunks_concat {T : Type} (size : nat) (l : list (list T)) :
  Forall (fun row => length row = size) l ->
  chunks size (length l) (concat l) = l.
Proof.
  induction 1 as [|row l Hrow HF IH]; simpl; [reflexivity|].
  subst size. rewrite firstn_app_exact, skipn_app_exact.
  now rewrite IH.
Qed.

Lemma concat_chunks {T : Type} (size n : nat) (l : list T) :
  length l = (n * size)%nat -> concat (chunks size n l) = l.
Proof.
  revert l; induction n as [|n IH]; intros l Hl; simpl.
  - destruct l; [reflexivity | discriminate].
  - rewrite IH; [apply firstn_skipn|]. rewrite length_skipn. simpl in Hl. lia.
Qed.

(** X2. For one well-shaped image and [clip=True], the value that [take] returns
    for a region with [integrate=True] is the sum of the entries of the cropped
    region that it returns with [integrate=False]. *)
Theorem take_integrate_sums_crops {T : Type} `{Dtype T} (a : list (list T))
  (vectors : list (Q * Q)) (size : nat * nat) (centered : bool) (h w : nat) :
  well_shaped h w (Img2 a) ->
  exists crops,
    take (Img2 a) vectors size centered false true = Ok (Crops crops) /\
    take (Img2 a) vectors size centered true true
      = Ok (Sums [map (fun crop => Np.sum (concat crop)) crops]).
Proof.
  intros Hws.
  destruct (@take_clip_result_uniform T _ (Img2 a) vectors size centered h w Hws)
    as (result & Hsum & Hcrop & Hres).
  simpl in Hres. inversion Hres as [|? res ? rest [Hlen Hrows] Hrest]; subst.
  inversion Hrest; subst.
  assert (Hrowlen : Forall (fun row => length row = (snd size * fst size)%nat) res).
  { apply Forall_forall. intros row Hrow. apply In_nth_error in Hrow as [k Hk].
    destruct (nth_error vectors k) as [v|] eqn:Hv.
    - rewrite <- (length_region_pixels v size centered). symmetry.
      eapply Forall2_length. eapply Hrows; eauto.
    - apply nth_error_None in Hv.
      assert (k < length res)%nat by (apply nth_error_Some; congruence). lia. }
  exists (map (chunks (fst size) (snd size)) res). split.
  - rewrite Hcrop. simpl concat. rewrite app_nil_r. unfold reshape3.
    rewrite (length_concat_uniform Hrowlen), Hlen.
    replace (length vectors * (snd size * fst size) =?
             length vectors * snd size * fst size)%nat with true
      by (symmetry; apply Nat.eqb_eq; lia).
    cbn [Py.bind]. rewrite <- Hlen, (chunks_concat Hrowlen). reflexivity.
  - rewrite Hsum. simpl map at 1. do 3 f_equal. rewrite map_map.
    apply map_ext_in. intros row Hrow. rewrite concat_chunks; [reflexivity|].
    rewrite Forall_forall in Hrowlen. now apply Hrowlen.
Qed.

(** The statement at a 3x3 image and a window that leaves it at a corner. *)
Lemma take_integrate_sums_crops_witness :
  exists crops,
    take (Img2 [[1; 2; 3]; [4; 5; 6]; [7; 8; 9]]%Z) [(0, 0); (1, 1)] (3, 3)%nat
         true false true = Ok (Crops crops) /\
    take (Img2 [[1; 2; 3]; [4; 5; 6]; [7; 8; 9]]%Z) [(0, 0); (1, 1)] (3, 3)%nat
         true true true
      = Ok (Sums [map (fun crop => Np.sum (concat crop)) crops]).
Proof.
  apply (@take_integrate_sums_crops Z _ [[1; 2; 3]; [4; 5; 6]; [7; 8; 9]]%Z
           [(0, 0); (1, 1)] (3, 3)%nat true 3%nat 3%nat).
  unfold well_shaped, rect2. repeat split; try lia. repeat constructor.
Defined.

(** X3. On an array whose rank is neither two nor three [take] raises and returns
    nothing: [RuntimeError] from the rank test, or, with [clip=True] on an array
    of rank below two, [IndexError] from reading [shape[-2]] before that test. *)
Theorem take_rank_error {T : Type} `{Dtype T} (s : list nat)
  (vectors : list (Q * Q)) (size : nat * nat) (centered integrate clip : bool) :
  take (ImgRank s) vectors size centered integrate clip
  = Raise (if clip && (length s <? 2)%nat then IndexError else RuntimeError).
Proof.
  unfold take. cbn [shape]. destruct clip; [|reflexivity].
  unfold shape_last, shape_last2. rewrite <- (length_rev s).
  destruct (rev s) as [|d [|d' l]]; reflexivity.
Qed.

(** ** The candidates of the array detection *)

Section CandidateProperties.

Variable match_template : list (list Z) -> list (list Z) -> result (Q * (Z * Z)).

(** X6. When the template match raises, the turn of the loop goes on: the
    candidate gets the score zero and the offset of a match at the origin, half
    the kernel shape. *)
Theorem template_failure_scores_zero (cv2img : list (list Z)) (size : nat * nat)
  (orientation_is_none orientation_check : bool) (M_trial : mat2)
  (shp : nat * nat) (mask : list (list Z)) (e : exn) :
  canvas_shape M_trial size = Ok shp ->
  scoring_mask M_trial size = Ok mask ->
  match_template cv2img mask = Raise e ->
  exists r,
    trial match_template cv2img size orientation_is_none orientation_check M_trial
      = Ok r /\
    max_val r == 0 /\
    b_fixed r = offset_of (0, 0)%Z shp.
Proof.
  intros Hshp Hmask Hfail. unfold trial. rewrite Hshp, Hmask. cbn [Py.bind].
  rewrite Hfail. cbn [try_except fst snd].
  eexists. split; [reflexivity|]. cbn [max_val b_fixed]. split; reflexivity.
Qed.

End CandidateProperties.

(** The statement at a single spot of pitch 3 and a template match that always
    fails. *)
Lemma template_failure_scores_zero_witness :
  exists r,
    trial (fun _ _ => Raise RuntimeError) [] (1, 1)%nat false true (Mat2 3 0 0 3)
      = Ok r /\
    max_val r == 0 /\
    b_fixed r = offset_of (0, 0)%Z (9, 9)%nat.
Proof.
  apply (@template_failure_scores_zero
           (fun _ _ => Raise RuntimeError) [] (1, 1)%nat false true (Mat2 3 0 0 3)
           (9, 9)%nat
           (match scoring_mask (Mat2 3 0 0 3) (1, 1)%nat with
            | Ok m => m
            | Raise _ => []
            end)
           RuntimeError).
  - vm_compute. reflexivity.
  - vm_compute. reflexivity.
  - reflexivity.
Defined.

(** ** Totals and normalized images *)

(** X7. On a rectangular stack [image_normalization] returns, image by image, the
    total of the pixels (the plain sum, or the sum that skips not-a-number when
    [nansum] is set), although it reaches it through the [x] branch of
    [image_moment] with a weight of one. *)
Theorem image_normalization_totals (h w : nat)
  (stack : list (list (list npfloat))) (nansum : bool) :
  Forall (rect2 h w) stack ->
  exists totals,
    image_normalization (Img3 stack) nansum = Ok totals /\
    Forall2 (fun img t => feq t (np_sum nansum (concat img))) stack totals.
Proof. intros Hrect. eapply image_normalization_nth; eauto. Qed.

Lemma image_normalization_totals_witness :
  exists totals,
    image_normalization (Img3 [[[Fin 1; Fin 2]]; [[NaN; Fin 3]]]) true = Ok totals /\
    Forall2 (fun img t => feq t (np_sum true (concat img)))
            [[[Fin 1; Fin 2]]; [[NaN; Fin 3]]] totals.
Proof.
  apply (@image_normalization_totals 1 2 [[[Fin 1; Fin 2]]; [[NaN; Fin 3]]] true).
  unfold rect2. repeat constructor.
Defined.

(** Multiplying every term by a number multiplies the sum. *)
Lemma fold_add_scale (l : list npfloat) (a r : Q) :
  feq (fold_left add (map (fun p => mul p (Fin r)) l) (Fin (a * r)))
      (mul (fold_left add l (Fin a)) (Fin r)).
Proof.
  revert a; induction l as [|p l IH]; intros a; simpl.
  - reflexivity.
  - destruct p as [|q]; simpl.
    + clear IH. assert (Hn : forall l' : list npfloat, fold_left add l' NaN = NaN).
      { induction l' as [|x l' IH']; simpl; [reflexivity | exact IH']. }
      rewrite !Hn. exact I.
    + eapply feq_trans; [|apply IH].
      apply fold_add_feq.
      * clear. induction l as [|x l IH]; simpl; constructor; auto using feq_refl.
      * simpl. ring.
Qed.

Lemma sum_scale (l : list npfloat) (r : Q) :
  feq (Np.sum (map (fun p => mul p (Fin r)) l)) (mul (Np.sum l) (Fin r)).
Proof.
  unfold Np.sum. cbn [dzero float_dtype of_Q exact].
  eapply feq_trans; [|apply (fold_add_scale l 0 r)].
  apply fold_add_feq.
  - induction l as [|x l IH]; simpl; constructor; auto using feq_refl.
  - simpl. ring.
Qed.

(** X8. [image_normalize] makes every image of non-zero total sum to one, and
    keeps the number of images. *)
Theorem image_normalize_unit_total (h w : nat)
  (stack : list (list (list npfloat))) (i : nat) (img : list (list npfloat))
  (t : Q) :
  Forall (rect2 h w) stack ->
  nth_error stack i = Some img ->
  Np.sum (concat img) = Fin t -> ~ t == 0 ->
  exists out img',
    image_normalize stack false = Ok out /\
    length out = length stack /\
    nth_error out i = Some img' /\
    feq (Np.sum (concat img')) (Fin 1).
Proof.
  intros Hrect Hi Ht Hne. unfold image_normalize.
  destruct (@image_normalization_nth h w stack false Hrect) as [totals [-> Htot]].
  cbn [Py.bind].
  destruct (@Forall2_nth_error_l _ _ _ _ _ i img Htot Hi) as [t' [Ht' Hfeq]].
  unfold np_sum in Hfeq. rewrite Ht in Hfeq.
  destruct t' as [|q]; [contradiction|]. simpl in Hfeq.
  assert (Hq : Qeq_bool q 0 = false).
  { destruct (Qeq_bool q 0) eqn:E; [|reflexivity].
    apply Qeq_bool_iff in E. exfalso. apply Hne. now rewrite <- Hfeq. }
  assert (Hr : reciprocal_where (Fin q) = Fin (1 / q)).
  { unfold reciprocal_where. simpl. now rewrite Hq. }
  eexists. exists (map (map (fun p => mul p (Fin (1 / q)))) img).
  split; [reflexivity|]. split; [|split].
  - rewrite length_map, length_combine, length_map.
    apply Forall2_length in Htot. lia.
  - rewrite nth_error_map.
    rewrite (@nth_error_combine_some _ _ _ _ _ _ _ Hi
               (map_nth_error reciprocal_where _ _ Ht')).
    cbn. now rewrite Hr.
  - rewrite <- concat_map.
    eapply feq_trans; [apply sum_scale|]. rewrite Ht. simpl.
    rewrite <- Hfeq. field. intros Hc. apply Qeq_bool_neq in Hq. contradiction.
Qed.

Lemma image_normalize_unit_total_witness :
  exists out img',
    image_normalize [[[Fin 1; Fin 3]]; [[Fin 0; Fin 0]]] false = Ok out /\
    length out = 2%nat /\
    nth_error out 0 = Some img' /\
    feq (Np.sum (concat img')) (Fin 1).
Proof.
  apply (@image_normalize_unit_total 1 2 [[[Fin 1; Fin 3]]; [[Fin 0; Fin 0]]]
           0 [[Fin 1; Fin 3]] (0 + 1 + 3)).
  - unfold rect2. repeat constructor.
  - reflexivity.
  - reflexivity.
  - intros Hc. vm_compute in Hc. discriminate.
Defined.

(** ** Sums of images with a single bright pixel *)

Lemma fold_add_acc (l : list npfloat) (acc : npfloat) :
  feq (fold_left add l acc) (add acc (fold_left add l (Fin 0))).
Proof.
  revert acc; induction l as [|x l IH]; intros acc; simpl.
  - destruct acc; simpl; [exact I | ring].
  - eapply feq_trans; [apply IH|].
    eapply feq_trans; [|apply feq_add; [apply feq_refl | apply feq_sym, IH]].
    destruct acc, x, (fold_left add l (Fin 0)); simpl; try exact I. ring.
Qed.

Lemma sum_cons_feq (a : npfloat) (l : list npfloat) :
  feq (Np.sum (a :: l)) (add a (Np.sum l)).
Proof.
  unfold Np.sum. simpl. eapply feq_trans; [apply fold_add_acc|].
  apply feq_add; [|apply feq_refl]. destruct a; simpl; [exact I | ring].
Qed.

Lemma sum_app_feq (l l' : list npfloat) :
  feq (Np.sum (l ++ l')) (add (Np.sum l) (Np.sum l')).
Proof.
  unfold Np.sum. rewrite fold_left_app. apply fold_add_acc.
Qed.

Lemma sum_concat_feq (ls : list (list npfloat)) :
  feq (Np.sum (concat ls)) (Np.sum (map Np.sum ls)).
Proof.
  induction ls as [|l ls IH]; cbn [concat map]; [apply feq_refl|].
  eapply feq_trans; [apply sum_app_feq|].
  eapply feq_trans; [|apply feq_sym, sum_cons_feq].
  apply feq_add; [apply feq_refl | exact IH].
Qed.

Lemma sum_zero (l : list npfloat) :
  (forall x, In x l -> feq x (Fin 0)) -> feq (Np.sum l) (Fin 0).
Proof.
  induction l as [|a l IH]; intros Hz; [reflexivity|].
  eapply feq_trans; [apply sum_cons_feq|].
  pose proof (Hz a (or_introl eq_refl)) as Ha.
  assert (Hl : feq (Np.sum l) (Fin 0)) by (apply IH; intros; apply Hz; now right).
  destruct a, (Np.sum l); simpl in *; try contradiction. lra.
Qed.

Lemma sum_single (l : list npfloat) (k : nat) (v : Q) :
  single_at l k v -> feq (Np.sum l) (Fin v).
Proof.
  revert k; induction l as [|a l IH]; intros k [Hk Hent]; simpl in Hk; [lia|].
  eapply feq_trans; [apply sum_cons_feq|].
  pose proof (Hent 0%nat a eq_refl) as Ha.
  destruct k as [|k]; simpl in Ha.
  - assert (Hl : feq (Np.sum l) (Fin 0)).
    { apply sum_zero. intros x Hx. apply In_nth_error in Hx as [j Hj].
      exact (Hent (S j) x Hj). }
    destruct a, (Np.sum l); simpl in *; try contradiction. lra.
  - assert (Hl : feq (Np.sum l) (Fin v)).
    { apply (IH k). split; [lia|]. intros j x Hj. exact (Hent (S j) x Hj). }
    destruct a, (Np.sum l); simpl in *; try contradiction. lra.
Qed.

(** The pixels of an image with a single bright pixel sum to that pixel. *)
Lemma sum_impulse (img : list (list npfloat)) (y0 x0 : nat) (v : Q) :
  impulse_at img y0 x0 v -> feq (Np.sum (concat img)) (Fin v).
Proof.
  intros [[row0 [Hrow0 Hx0]] Hent].
  eapply feq_trans; [apply sum_concat_feq|].
  apply (@sum_single _ y0). split.
  - rewrite length_map. apply nth_error_Some. congruence.
  - intros y s Hs. apply nth_error_map_inv in Hs as [row [Hrow ->]].
    destruct (y =? y0)%nat eqn:Ey.
    + apply Nat.eqb_eq in Ey. subst y. rewrite Hrow0 in Hrow. injection Hrow as <-.
      apply (@sum_single _ x0). split; [exact Hx0|].
      intros x e He. pose proof (Hent y0 row0 x e Hrow0 He) as Hf.
      now rewrite Nat.eqb_refl in Hf.
    + apply sum_zero. intros e He. apply In_nth_error in He as [x Hx].
      pose proof (Hent y row x e Hrow Hx) as Hf. now rewrite Ey in Hf.
Qed.

Lemma nth_error_list_set {T : Type} (i j : nat) (v : T) (l : list T) :
  nth_error (list_set i v l) j
  = if (j =? i)%nat then (if (i <? length l)%nat then Some v else None)
    else nth_error l j.
Proof.
  revert i j; induction l as [|a l IH]; intros [|i] [|j]; simpl; auto;
    now destruct (j =? i)%nat.
Qed.

Lemma impulse_rect (h w y0 x0 : nat) (p : Q) : rect2 h w (impulse h w y0 x0 p).
Proof.
  unfold impulse. split.
  - now rewrite length_list_set, repeat_length.
  - apply Forall_forall. intros row Hrow. apply In_nth_error in Hrow as [y Hy].
    rewrite nth_error_list_set, repeat_length in Hy.
    destruct (y =? y0)%nat.
    + destruct (y0 <? h)%nat; [|discriminate]. injection Hy as <-.
      now rewrite length_list_set, repeat_length.
    + apply nth_error_In, repeat_spec in Hy. subst. apply repeat_length.
Qed.

Lemma impulse_is_impulse (h w y0 x0 : nat) (p : Q) :
  (y0 < h)%nat -> (x0 < w)%nat -> impulse_at (impulse h w y0 x0 p) y0 x0 p.
Proof.
  intros Hy0 Hx0. unfold impulse. split.
  - eexists. split.
    + rewrite nth_error_list_set, Nat.eqb_refl, repeat_length.
      apply Nat.ltb_lt in Hy0. rewrite Hy0. reflexivity.
    + now rewrite length_list_set, repeat_length.
  - intros y row x e Hrow He.
    rewrite nth_error_list_set, repeat_length in Hrow.
    destruct (y =? y0)%nat; cbn [andb].
    + destruct (y0 <? h)%nat; [|discriminate]. injection Hrow as <-.
      rewrite nth_error_list_set, repeat_length in He.
      destruct (x =? x0)%nat.
      * destruct (x0 <? w)%nat; [|discriminate]. injection He as <-. apply feq_refl.
      * apply nth_error_In, repeat_spec in He. subst. apply feq_refl.
    + apply nth_error_In, repeat_spec in Hrow. subst.
      apply nth_error_In, repeat_spec in He. subst. apply feq_refl.
Qed.

Lemma feq_scaled_entry (e : npfloat) (c : bool) (v r : Q) :
  feq e (if c then Fin v else Fin 0) ->
  feq (mul e (Fin r)) (if c then Fin (v * r) else Fin 0).
Proof.
  destruct e as [|q], c; simpl; try contradiction; intros Hq; rewrite Hq; ring.
Qed.

Lemma impulse_scaled (img : list (list npfloat)) (y0 x0 : nat) (v r : Q) :
  impulse_at img y0 x0 v ->
  impulse_at (map (map (fun p => mul p (Fin r))) img) y0 x0 (v * r).
Proof.
  intros [[row0 [Hrow0 Hx0]] Hent]. split.
  - eexists. split; [apply map_nth_error; exact Hrow0|]. now rewrite length_map.
  - intros y row x e Hrow He.
    apply nth_error_map_inv in Hrow as [row' [Hrow' ->]].
    apply nth_error_map_inv in He as [e' [He' ->]].
    apply feq_scaled_entry. eapply Hent; eauto.
Qed.

Lemma impulse_times_edge_x (img : list (list npfloat)) (edge_x : list npfloat)
  (y0 x0 : nat) (v e0 : Q) :
  impulse_at img y0 x0 v ->
  Forall (fun e => is_nan e = false) edge_x ->
  nth_error edge_x x0 = Some (Fin e0) ->
  impulse_at (times_edge_x img edge_x) y0 x0 (v * e0).
Proof.
  intros [[row0 [Hrow0 Hx0]] Hent] Hfin He0. unfold times_edge_x. split.
  - eexists. split; [apply map_nth_error; exact Hrow0|].
    rewrite length_map, length_combine.
    assert (x0 < length edge_x)%nat by (apply nth_error_Some; congruence). lia.
  - intros y row x e Hrow He.
    apply nth_error_map_inv in Hrow as [row' [Hrow' ->]].
    apply nth_error_map_inv in He as [[p ed] [Hp ->]].
    apply nth_error_combine_inv in Hp as [Hp Hed]. simpl in *.
    pose proof (Hent y row' x p Hrow' Hp) as Hf.
    destruct ((y =? y0)%nat && (x =? x0)%nat) eqn:Ec.
    + apply andb_true_iff in Ec as [_ Ex]. apply Nat.eqb_eq in Ex. subst x.
      rewrite He0 in Hed. injection Hed as <-.
      now apply (@feq_scaled_entry p true v e0).
    + assert (Hed' : is_nan ed = false).
      { rewrite Forall_forall in Hfin. apply Hfin. eapply nth_error_In; eauto. }
      destruct ed as [|q]; [discriminate|].
      now apply (@feq_scaled_entry p false v q).
Qed.

Lemma impulse_times_edge_y (img : list (list npfloat)) (edge_y : list npfloat)
  (y0 x0 : nat) (v e0 : Q) :
  impulse_at img y0 x0 v ->
  Forall (fun e => is_nan e = false) edge_y ->
  nth_error edge_y y0 = Some (Fin e0) ->
  impulse_at (times_edge_y img edge_y) y0 x0 (v * e0).
Proof.
  intros [[row0 [Hrow0 Hx0]] Hent] Hfin He0. unfold times_edge_y. split.
  - eexists. split.
    + apply map_nth_error. apply nth_error_combine_some; eassumption.
    + cbn [fst]. now rewrite length_map.
  - intros y row x e Hrow He.
    apply nth_error_map_inv in Hrow as [[row' ed] [Hrow' ->]].
    apply nth_error_combine_inv in Hrow' as [Hrow' Hed]. simpl in *.
    apply nth_error_map_inv in He as [p [Hp ->]].
    pose proof (Hent y row' x p Hrow' Hp) as Hf.
    destruct ((y =? y0)%nat && (x =? x0)%nat) eqn:Ec.
    + apply andb_true_iff in Ec as [Ey _]. apply Nat.eqb_eq in Ey. subst y.
      rewrite He0 in Hed. injection Hed as <-.
      now apply (@feq_scaled_entry p true v e0).
    + assert (Hed' : is_nan ed = false).
      { rewrite Forall_forall in Hfin. apply Hfin. eapply nth_error_In; eauto. }
      destruct ed as [|q]; [discriminate|].
      now apply (@feq_scaled_entry p false v q).
Qed.

(** The first-order trial function at the pixel [k] of a window of [w] pixels. *)
Lemma trial_edge_first_order (w k : nat) :
  (k < w)%nat ->
  exists e, nth_error (trial_edge (F := npfloat) w 1 0) k = Some (Fin e) /\
            e == inject_Z (Z.of_nat k) - (inject_Z (Z.of_nat w) - 1) / 2.
Proof.
  intros Hk. unfold trial_edge, arange.
  rewrite !nth_error_map, nth_error_seq.
  apply Nat.ltb_lt in Hk. rewrite Hk. cbn [option_map].
  eexists. split; [reflexivity|].
  replace (Z.of_nat w - 1)%Z with (Z.of_nat w + - 1)%Z by lia.
  rewrite inject_Z_plus. simpl (0 + k)%nat.
  change (inject_Z (-1)) with (- (1))%Q. field.
Qed.

(** [image_normalize] on a single image. *)
Lemma image_normalize_single (h w : nat) (img : list (list npfloat)) :
  rect2 h w img ->
  exists t,
    feq t (Np.sum (concat img)) /\
    image_normalize [img] false
      = Ok [map (map (fun p => mul p (reciprocal_where t))) img].
Proof.
  intros Hrect. unfold image_normalize.
  assert (Hst : Forall (rect2 h w) [img])
    by (constructor; [exact Hrect | constructor]).
  destruct (@image_normalization_nth h w [img] false Hst) as [totals [-> Htot]].
  inversion Htot as [|? t ? rest Ht Hrest]; subst. inversion Hrest; subst.
  exists t. split; [exact Ht | reflexivity].
Qed.

(** X9. Centroid of a single bright pixel, in exact arithmetic (rationals and
    not-a-number: on binary64 numbers the product of the value by its rounded
    reciprocal need not be one, and the result is only near this one).  For an
    image of shape [(h, w)] that is zero except for a non-zero value at row [y0]
    and column [x0], [image_positions] returns the offset of that pixel from
    the centre of the window: [x0 - (w - 1) / 2] and [y0 - (h - 1) / 2]. *)
Theorem image_positions_impulse (h w y0 x0 : nat) (p : Q) :
  (y0 < h)%nat -> (x0 < w)%nat -> ~ p == 0 ->
  exists vx vy,
    image_positions [impulse h w y0 x0 p] true false = Ok ([vx], [vy]) /\
    feq vx (Fin (inject_Z (Z.of_nat x0) - (inject_Z (Z.of_nat w) - 1) / 2)) /\
    feq vy (Fin (inject_Z (Z.of_nat y0) - (inject_Z (Z.of_nat h) - 1) / 2)).
Proof.
  intros Hy0 Hx0 Hp.
  pose proof (impulse_rect h w y0 x0 p) as Hrect.
  pose proof (impulse_is_impulse p Hy0 Hx0) as Himp.
  destruct (image_normalize_single Hrect) as [t [Ht Hnorm]].
  pose proof (feq_trans _ _ _ Ht (sum_impulse Himp)) as Htp.
  destruct t as [|q]; [contradiction|]. simpl in Htp.
  assert (Hq : Qeq_bool q 0 = false).
  { destruct (Qeq_bool q 0) eqn:E; [|reflexivity].
    apply Qeq_bool_iff in E. exfalso. apply Hp. now rewrite <- Htp. }
  assert (Hr : reciprocal_where (Fin q) = Fin (1 / q))
    by (unfold reciprocal_where; simpl; now rewrite Hq).
  rewrite Hr in Hnorm.
  set (img' := map (map (fun x => mul x (Fin (1 / q)))) (impulse h w y0 x0 p)) in *.
  assert (Himp' : impulse_at img' y0 x0 (p * (1 / q)))
    by (apply impulse_scaled; exact Himp).
  assert (Hrect' : rect2 h w img').
  { destruct Hrect as [Hlen Hrows]. split; [unfold img'; now rewrite length_map|].
    apply Forall_forall. intros row Hrow. apply in_map_iff in Hrow as [r [<- Hr']].
    rewrite length_map. rewrite Forall_forall in Hrows. now apply Hrows. }
  assert (Hh : (0 < h)%nat) by lia.
  destruct (trial_edge_first_order Hx0) as [ex [Hex Hexv]].
  destruct (trial_edge_first_order Hy0) as [ey [Hey Heyv]].
  unfold image_positions. rewrite Hnorm. cbn [Py.bind].
  unfold image_moment.
  cbn [as_stack Py.bind centers_per_image length repeat hd fst snd Nat.eqb
       combine map].
  rewrite (proj1 Hrect'), (rect2_hd Hh Hrect').
  eexists. eexists. split; [reflexivity|]. split.
  - pose proof (sum_impulse (impulse_times_edge_x Himp' (trial_edge_fin w 1 0) Hex))
      as Hs.
    unfold np_sum.
    destruct (Np.sum (concat (times_edge_x img' (trial_edge w 1 0)))) as [|s];
      [contradiction|].
    simpl in Hs |- *. rewrite Hs, Hexv, <- Htp. field.
    intros Hc. apply Hp. now rewrite <- Htp.
  - pose proof (sum_impulse (impulse_times_edge_y Himp' (trial_edge_fin h 1 0) Hey))
      as Hs.
    unfold np_sum.
    destruct (Np.sum (concat (times_edge_y img' (trial_edge h 1 0)))) as [|s];
      [contradiction|].
    simpl in Hs |- *. rewrite Hs, Heyv, <- Htp. field.
    intros Hc. apply Hp. now rewrite <- Htp.
Qed.

(** The statement at a 3x5 image whose bright pixel, of value 49, is in the last
    column of the first row: the position is two pixels right of and one pixel
    above the centre.  (On binary64 numbers 49 times its rounded reciprocal is
    below one, and the first coordinate comes out just below two.) *)
Lemma image_positions_impulse_witness :
  exists vx vy,
    image_positions [impulse 3 5 0 4 49] true false = Ok ([vx], [vy]) /\
    feq vx (Fin (inject_Z (Z.of_nat 4) - (inject_Z (Z.of_nat 5) - 1) / 2)) /\
    feq vy (Fin (inject_Z (Z.of_nat 0) - (inject_Z (Z.of_nat 3) - 1) / 2)).
Proof.
  apply (@image_positions_impulse 3 5 0 4 49); try lia.
  intros Hc. vm_compute in Hc. discriminate.
Defined.

Lemma nansum_all_nan (l : list npfloat) :
  (forall x, In x l -> is_nan x = true) -> feq (Np.nansum l) (Fin 0).
Proof.
  intros Hnan. unfold Np.nansum. apply sum_zero. intros x Hx.
  apply in_map_iff in Hx as [y [<- Hy]]. rewrite (Hnan y Hy). apply feq_refl.
Qed.

Lemma all_nan_times_edge_x (img : list (list npfloat)) (edge_x : list npfloat) :
  (forall x, In x (concat img) -> is_nan x = true) ->
  forall x, In x (concat (times_edge_x img edge_x)) -> is_nan x = true.
Proof.
  intros Hnan x Hx. apply in_concat in Hx as [row' [Hrow' Hx]].
  unfold times_edge_x in Hrow'. apply in_map_iff in Hrow' as [row [<- Hrow]].
  apply in_map_iff in Hx as [[p e] [<- Hpe]]. simpl.
  assert (Hp : is_nan p = true).
  { apply Hnan. apply in_concat. exists row. split; [assumption|].
    eapply in_combine_l; eauto. }
  destruct p; [reflexivity | discriminate].
Qed.

Lemma all_nan_times_edge_y (img : list (list npfloat)) (edge_y : list npfloat) :
  (forall x, In x (concat img) -> is_nan x = true) ->
  forall x, In x (concat (times_edge_y img edge_y)) -> is_nan x = true.
Proof.
  intros Hnan x Hx. apply in_concat in Hx as [row' [Hrow' Hx]].
  unfold times_edge_y in Hrow'. apply in_map_iff in Hrow' as [[row e] [<- Hrow]].
  apply in_map_iff in Hx as [p [<- Hp']]. simpl in *.
  assert (Hp : is_nan p = true).
  { apply Hnan. apply in_concat. exists row. split; [|assumption].
    eapply in_combine_l; eauto. }
  destruct p; [reflexivity | discriminate].
Qed.

(** X10. [image_positions] with [normalize=True] and [nansum=True] normalizes
    without [nansum]: an image of a rectangular stack that holds a not-a-number
    pixel gets a not-a-number factor, becomes not-a-number everywhere, and its
    position comes out as zero in both directions, whatever its other pixels
    are. *)
Theorem image_positions_nan_image (h w : nat)
  (stack : list (list (list npfloat))) (i : nat) (img : list (list npfloat)) :
  Forall (rect2 h w) stack ->
  nth_error stack i = Some img ->
  In NaN (concat img) ->
  exists m10 m01 vx vy,
    image_positions stack true true = Ok (m10, m01) /\
    nth_error m10 i = Some vx /\ nth_error m01 i = Some vy /\
    feq vx (Fin 0) /\ feq vy (Fin 0).
Proof.
  intros Hrect Hi Hnan. unfold image_positions, image_normalize.
  destruct (@image_normalization_nth h w stack false Hrect) as [totals [-> Htot]].
  cbn [Py.bind].
  destruct (@Forall2_nth_error_l _ _ _ _ _ i img Htot Hi) as [t [Ht Hfeq]].
  assert (Hsum : is_nan (np_sum false (concat img)) = true)
    by (apply (@sum_nan npfloat _ _ (concat img) NaN Hnan); reflexivity).
  assert (Htn : t = NaN).
  { destruct (np_sum false (concat img)); [|discriminate].
    destruct t; [reflexivity | contradiction]. }
  subst t.
  set (out := map (fun ir : list (list npfloat) * npfloat =>
                     map (map (fun p => mul p (snd ir))) (fst ir))
                  (combine stack (map reciprocal_where totals))).
  assert (Hout : nth_error out i = Some (map (map (fun p => mul p NaN)) img)).
  { unfold out. rewrite nth_error_map.
    rewrite (@nth_error_combine_some _ _ _ _ _ _ _ Hi
               (map_nth_error reciprocal_where _ _ Ht)).
    reflexivity. }
  assert (Hall : forall x, In x (concat (map (map (fun p => mul p NaN)) img)) ->
                           is_nan x = true).
  { intros x Hx. rewrite <- concat_map in Hx. apply in_map_iff in Hx as [p [<- _]].
    now destruct p. }
  unfold image_moment.
  cbn [as_stack Py.bind centers_per_image fst snd Nat.eqb].
  rewrite !per_image_repeat.
  eexists. eexists. eexists. eexists.
  split; [reflexivity|].
  split; [apply map_nth_error; exact Hout|].
  split; [apply map_nth_error; exact Hout|].
  cbn [fst snd np_sum]. split.
  - assert (Hz : feq (Np.nansum
                        (concat (times_edge_x
                                   (map (map (fun p => mul p NaN)) img)
                                   (trial_edge (length (hd [] (hd [] out))) 1 0))))
                     (Fin 0))
      by (apply nansum_all_nan, all_nan_times_edge_x; exact Hall).
    match goal with |- feq (mul ?S _) _ => destruct S end;
      [contradiction | simpl in *; rewrite Hz; ring].
  - assert (Hz : feq (Np.nansum
                        (concat (times_edge_y
                                   (map (map (fun p => mul p NaN)) img)
                                   (trial_edge (length (hd [] out)) 1 0))))
                     (Fin 0))
      by (apply nansum_all_nan, all_nan_times_edge_y; exact Hall).
    match goal with |- feq (mul ?S _) _ => destruct S end;
      [contradiction | simpl in *; rewrite Hz; ring].
Qed.

(** The statement at a 1x3 image whose last pixel is not-a-number. *)
Lemma image_positions_nan_image_witness :
  exists m10 m01 vx vy,
    image_positions [[[Fin 5; Fin 0; NaN]]] true true = Ok (m10, m01) /\
    nth_error m10 0 = Some vx /\ nth_error m01 0 = Some vy /\
    feq vx (Fin 0) /\ feq vy (Fin 0).
Proof.
  apply (@image_positions_nan_image 1 3 [[[Fin 5; Fin 0; NaN]]] 0
           [[Fin 5; Fin 0; NaN]]).
  - unfold rect2. repeat constructor.
  - reflexivity.
  - simpl. auto.
Defined.

(** ** The two sums of the moment engine *)

Lemma nansum_without_nan (l : list npfloat) :
  Forall (fun x => is_nan x = false) l -> Np.nansum l = Np.sum l.
Proof.
  intros Hfin. unfold Np.nansum. f_equal.
  rewrite <- (map_id l) at 2. apply map_ext_in. intros x Hx.
  rewrite Forall_forall in Hfin. now rewrite (Hfin x Hx).
Qed.

Lemma np_sum_without_nan (l : list npfloat) :
  Forall (fun x => is_nan x = false) l -> np_sum true l = np_sum false l.
Proof. apply nansum_without_nan. Qed.

(** X11. In exact arithmetic (rationals and not-a-number: no infinite pixel, no
    overflow, so that no product of a pixel by a trial function is
    not-a-number), on a stack whose pixels are all numbers, [image_moment]
    returns the same result with [nansum=True] as with [nansum=False], for
    every moment, every [centers] and both values of [normalize]. *)
Theorem image_moment_nansum_irrelevant (stack : list (list (list npfloat)))
  (moment : nat * nat) (centers : centers_arg) (normalize : bool) :
  Forall (fun img => Forall (fun p => is_nan p = false) (concat img)) stack ->
  image_moment (Img3 stack) moment centers normalize true
  = image_moment (Img3 stack) moment centers normalize false.
Proof.
  intros Hfin. rewrite Forall_forall in Hfin.
  unfold image_moment. cbn [as_stack Py.bind].
  destruct (centers_per_image (length stack) centers) as [cs|e]; [|reflexivity].
  cbn [Py.bind].
  assert (Hrec : (if normalize
                  then map (fun img => reciprocal_where (np_sum true (concat img)))
                           stack
                  else map (fun _ : list (list npfloat) => of_Q 1) stack)
                 = (if normalize
                    then map (fun img => reciprocal_where
                                           (np_sum false (concat img))) stack
                    else map (fun _ : list (list npfloat) => of_Q 1) stack)).
  { destruct normalize; [|reflexivity]. apply map_ext_in. intros img Himg.
    now rewrite (np_sum_without_nan (Hfin img Himg)). }
  rewrite Hrec.
  assert (Hin : forall t : list (list npfloat) * (Q * Q) * npfloat,
            In t (combine (combine stack cs)
                    (if normalize
                     then map (fun img => reciprocal_where
                                            (np_sum false (concat img))) stack
                     else map (fun _ : list (list npfloat) => of_Q 1) stack)) ->
            Forall (fun p => is_nan p = false) (concat (fst (fst t)))).
  { intros [[img c] r] Ht. apply in_combine_l, in_combine_l in Ht.
    exact (Hfin img Ht). }
  destruct (snd moment =? 0)%nat; [|destruct (fst moment =? 0)%nat].
  - f_equal. apply map_ext_in. intros [[img c] r] Ht. f_equal.
    apply np_sum_without_nan, times_edge_x_fin;
      [exact (Hin _ Ht) | apply trial_edge_fin].
  - f_equal. apply map_ext_in. intros [[img c] r] Ht. f_equal.
    apply np_sum_without_nan, times_edge_y_fin;
      [exact (Hin _ Ht) | apply trial_edge_fin].
  - cbn [negb andb]. f_equal. apply map_ext_in. intros [[img c] r] Ht. f_equal.
    apply np_sum_without_nan, times_edge_y_fin; [|apply trial_edge_fin].
    apply times_edge_x_fin; [exact (Hin _ Ht) | apply trial_edge_fin].
Qed.

Lemma image_moment_nansum_irrelevant_witness :
  image_moment (Img3 [[[Fin 1; Fin 2]; [Fin 3; Fin 4]]]) (1, 1)%nat
               (CenterPair 0 0) true true
  = image_moment (Img3 [[[Fin 1; Fin 2]; [Fin 3; Fin 4]]]) (1, 1)%nat
                 (CenterPair 0 0) true false.
Proof.
  apply (@image_moment_nansum_irrelevant [[[Fin 1; Fin 2]; [Fin 3; Fin 4]]]
           (1, 1)%nat (CenterPair 0 0) true).
  repeat constructor.
Defined.

(** ** Flips, transposition and quarter turns *)

Lemma map_rev_rev (T : Type) (a : list (list T)) :
  map (@rev T) (map (@rev T) a) = a.
Proof.
  rewrite map_map. rewrite <- (map_id a) at 2.
  apply map_ext. intros row. apply rev_involutive.
Qed.

Lemma half_turn_involutive (T : Type) (a : list (list T)) :
  map (@rev T) (rev (map (@rev T) (rev a))) = a.
Proof. now rewrite <- map_rev, rev_involutive, map_rev_rev. Qed.

(** Column [j] of an array, as [transpose] collects it. *)
Lemma column_nth_error (T : Type) (w j : nat) (a : list (list T)) (i : nat) :
  Forall (fun row => length row = w) a -> (j < w)%nat ->
  nth_error (flat_map (fun row => match nth_error row j with
                                  | Some v => [v]
                                  | None => []
                                  end) a) i
  = match nth_error a i with
    | Some row => nth_error row j
    | None => None
    end.
Proof.
  intros Hrect Hj. revert i. induction Hrect as [|row a Hrow Hrect IH]; intros i.
  - now destruct i.
  - cbn [flat_map]. destruct (nth_error row j) as [v|] eqn:Ev.
    + destruct i as [|i]; cbn; [now rewrite Ev | apply IH].
    + apply nth_error_None in Ev. lia.
Qed.

Lemma column_length (T : Type) (w j : nat) (a : list (list T)) :
  Forall (fun row => length row = w) a -> (j < w)%nat ->
  length (flat_map (fun row => match nth_error row j with
                               | Some v => [v]
                               | None => []
                               end) a) = length a.
Proof.
  intros Hrect Hj. induction Hrect as [|row a Hrow Hrect IH]; [reflexivity|].
  cbn [flat_map]. destruct (nth_error row j) as [v|] eqn:Ev.
  - cbn. now rewrite IH.
  - apply nth_error_None in Ev. lia.
Qed.

Lemma transpose_nth_error (T : Type) (w : nat) (a : list (list T)) (j : nat) :
  nth_error (transpose w a) j
  = if (j <? w)%nat
    then Some (flat_map (fun row => match nth_error row j with
                                    | Some v => [v]
                                    | None => []
                                    end) a)
    else None.
Proof.
  unfold transpose. rewrite nth_error_map, nth_error_seq.
  now destruct (j <? w)%nat.
Qed.

Lemma transpose_rect (T : Type) (w : nat) (a : list (list T)) :
  Forall (fun row => length row = w) a ->
  Forall (fun col => length col = length a) (transpose w a).
Proof.
  intros Hrect. unfold transpose. apply Forall_forall. intros col Hcol.
  apply in_map_iff in Hcol. destruct Hcol as [j [<- Hj]].
  apply in_seq in Hj. apply column_length with (w := w); [exact Hrect | lia].
Qed.

(** The entry [(j, i)] of the transpose is the entry [(i, j)]. *)
Lemma transpose_entry (T : Type) (w : nat) (a : list (list T)) (i j : nat) :
  Forall (fun row => length row = w) a ->
  match nth_error (transpose w a) j with
  | Some col => nth_error col i
  | None => None
  end
  = match nth_error a i with
    | Some row => nth_error row j
    | None => None
    end.
Proof.
  intros Hrect. rewrite transpose_nth_error.
  destruct (j <? w)%nat eqn:Ej.
  - apply Nat.ltb_lt in Ej. now apply column_nth_error with (w := w).
  - apply Nat.ltb_ge in Ej. destruct (nth_error a i) as [row|] eqn:Ea; [|reflexivity].
    symmetry. apply nth_error_None.
    rewrite Forall_forall in Hrect.
    rewrite (Hrect row (nth_error_In _ _ Ea)). exact Ej.
Qed.

Lemma transpose_involutive (T : Type) (w : nat) (a : list (list T)) :
  Forall (fun row => length row = w) a ->
  transpose (length a) (transpose w a) = a.
Proof.
  intros Hrect. apply nth_error_ext. intros i.
  rewrite transpose_nth_error.
  destruct (i <? length a)%nat eqn:Ei.
  - apply Nat.ltb_lt in Ei.
    destruct (nth_error a i) as [row|] eqn:Ea;
      [|apply nth_error_None in Ea; lia].
    f_equal. apply nth_error_ext. intros j.
    rewrite (@column_nth_error T (length a) i (transpose w a) j
               (transpose_rect Hrect) Ei).
    rewrite (@transpose_entry T w a i j Hrect). now rewrite Ea.
  - apply Nat.ltb_ge in Ei. symmetry. now apply nth_error_None.
Qed.

Lemma transpose_width (T : Type) (w : nat) (a : list (list T)) :
  Forall (fun row => length row = w) a -> (0 < w)%nat ->
  length (hd [] (transpose w a)) = length a.
Proof.
  intros Hrect Hw.
  pose proof (transpose_nth_error w a 0) as H0.
  destruct (Nat.ltb_spec 0 w) as [_|]; [|lia].
  destruct (transpose w a) as [|col rest] eqn:Et; [discriminate|].
  cbn in H0. injection H0 as ->. cbn [hd].
  exact (@column_length T w 0%nat a Hrect Hw).
Qed.

Lemma rect_width (T : Type) (w : nat) (a : list (list T)) :
  Forall (fun row => length row = w) a -> a <> [] ->
  length (hd [] a) = w.
Proof. intros Hrect Ha. destruct Hrect; [congruence | assumption]. Qed.

Lemma map_rev_rect (T : Type) (w : nat) (a : list (list T)) :
  Forall (fun row => length row = w) a ->
  Forall (fun row => length row = w) (map (@rev T) a).
Proof.
  intros Hrect. apply Forall_map. eapply Forall_impl; [|exact Hrect].
  intros row Hrow. cbn. now rewrite length_rev.
Qed.

Section OrientationProperties.

Import (notations) String.

(** X12. The transformation of [get_orientation_transformation] applies its
    parts in the reverse of the order in which they were appended: the image is
    rotated first, then flipped up-down, then flipped left-right. *)
Theorem orientation_rotates_first (T : Type) (rot : rot_arg) (fliplr flipud : bool)
  (img : list (list T)) :
  get_orientation_transformation rot fliplr flipud img
  = get_orientation_transformation (RotInt 0) fliplr false
      (get_orientation_transformation (RotInt 0) false flipud
         (get_orientation_transformation rot false false img)).
Proof.
  unfold get_orientation_transformation. cbn [rot_is Z.eqb].
  destruct fliplr, flipud, (rot_is rot "90" 1), (rot_is rot "180" 2),
    (rot_is rot "270" 3); reflexivity.
Qed.

(** X13. Unless [rot] asks for a quarter turn (["90"], [1], ["270"] or [3]),
    the transformation is its own inverse: applied twice it gives the image
    back, whatever the flips. *)
Theorem orientation_involutive (T : Type) (rot : rot_arg) (fliplr flipud : bool)
  (img : list (list T)) :
  rot_is rot "90" 1 = false -> rot_is rot "270" 3 = false ->
  get_orientation_transformation rot fliplr flipud
    (get_orientation_transformation rot fliplr flipud img) = img.
Proof.
  intros H90 H270. unfold get_orientation_transformation.
  rewrite H90, H270.
  destruct fliplr, flipud, (rot_is rot "180" 2);
    cbn [app fold_left]; unfold rot90_img, rot90, Np.fliplr, Np.flipud;
    cbn [Nat.modulo Nat.divmod fst snd Nat.sub];
    rewrite ?map_rev, ?rev_involutive, ?map_rev_rev, ?rev_involutive;
    reflexivity.
Qed.

Lemma orientation_involutive_witness :
  get_orientation_transformation (RotStr "180") true false
    (get_orientation_transformation (RotStr "180") true false
       [[1; 2; 3]; [4; 5; 6]]%Z) = [[1; 2; 3]; [4; 5; 6]]%Z.
Proof.
  apply (@orientation_involutive Z (RotStr "180") true false
           [[1; 2; 3]; [4; 5; 6]]%Z); reflexivity.
Defined.

(** X14. On an image with rows of equal length and at least one column, the
    transformation for a rotation by 270 degrees undoes the one for 90 degrees,
    and the other way round. *)
Theorem orientation_quarter_turns_cancel (T : Type) (r90 r270 : rot_arg) (w : nat)
  (img : list (list T)) :
  rot_is r90 "90" 1 = true ->
  rot_is r270 "90" 1 = false -> rot_is r270 "180" 2 = false ->
  rot_is r270 "270" 3 = true ->
  Forall (fun row => length row = w) img -> (0 < w)%nat ->
  get_orientation_transformation r270 false false
    (get_orientation_transformation r90 false false img) = img
  /\ get_orientation_transformation r90 false false
       (get_orientation_transformation r270 false false img) = img.
Proof.
  intros H1 H2 H3 H4 Hrect Hw. unfold get_orientation_transformation.
  rewrite H1, H2, H3, H4. cbn [app fold_left].
  unfold rot90_img, rot90. cbn [Nat.modulo Nat.divmod fst snd Nat.sub].
  destruct img as [|row0 img'] eqn:Eimg; [split; reflexivity|].
  rewrite <- Eimg in *.
  assert (Hne : img <> []) by (subst img; discriminate).
  rewrite (rect_width Hrect Hne). clear Eimg.
  split.
  - rewrite (transpose_width (map_rev_rect Hrect) Hw).
    rewrite (transpose_involutive (map_rev_rect Hrect)).
    apply map_rev_rev.
  - rewrite map_rev_rev.
    assert (Hlen : length (hd [] (map (@rev T) (transpose w img))) = length img).
    { pose proof (transpose_width Hrect Hw) as Ht.
      destruct (transpose w img) as [|col rest]; cbn in *; [exact Ht|].
      now rewrite length_rev. }
    rewrite Hlen. apply (transpose_involutive Hrect).
Qed.

Lemma orientation_quarter_turns_cancel_witness :
  get_orientation_transformation (RotInt 3) false false
    (get_orientation_transformation (RotStr "90") false false
       [[1; 2; 3]; [4; 5; 6]]%Z) = [[1; 2; 3]; [4; 5; 6]]%Z
  /\ get_orientation_transformation (RotStr "90") false false
       (get_orientation_transformation (RotInt 3) false false
          [[1; 2; 3]; [4; 5; 6]]%Z) = [[1; 2; 3]; [4; 5; 6]]%Z.
Proof.
  apply (@orientation_quarter_turns_cancel Z (RotStr "90") (RotInt 3) 3%nat
           [[1; 2; 3]; [4; 5; 6]]%Z); try reflexivity; [|lia].
  repeat constructor.
Defined.

End OrientationProperties.

(** ** The rotation of the parity check *)

Lemma norm_index_last (n : nat) :
  (0 < n)%nat -> norm_index n (-1) = Ok (n - 1)%nat.
Proof.
  intros Hn. unfold norm_index.
  replace ((0 <=? -1)%Z) with false by reflexivity. cbn [andb].
  replace ((- Z.of_nat n <=? -1)%Z) with true by (symmetry; apply Z.leb_le; lia).
  replace ((-1 <? 0)%Z) with true by reflexivity. cbn [andb].
  f_equal. lia.
Qed.

Lemma norm_index_first (n : nat) :
  (0 < n)%nat -> norm_index n 0 = Ok 0%nat.
Proof.
  intros Hn. unfold norm_index.
  replace ((0 <? Z.of_nat n)%Z) with true by (symmetry; apply Z.ltb_lt; lia).
  reflexivity.
Qed.

Lemma norm_index_last_ok (n k : nat) :
  norm_index n (-1) = Ok k -> (0 < n)%nat.
Proof.
  destruct n; [|lia]. cbn. discriminate.
Qed.

Lemma getitem2_at (T : Type) (a : list (list T)) (h w : nat) (iy ix : Z)
  (y x : nat) :
  norm_index h iy = Ok y -> norm_index w ix = Ok x ->
  getitem2 a h w iy ix
  = match match nth_error a y with
          | Some row => nth_error row x
          | None => None
          end with
    | Some v => Ok v
    | None => Raise IndexError
    end.
Proof.
  intros Hy Hx. unfold getitem2. rewrite Hy, Hx. cbn [Py.bind].
  destruct (nth_error a y) as [row|]; [|reflexivity].
  now destruct (nth_error row x).
Qed.

Lemma rev_last_entry (T : Type) (l : list T) :
  nth_error (rev l) (length l - 1) = nth_error l 0.
Proof.
  rewrite nth_error_rev. destruct l as [|a l]; [reflexivity|].
  cbn [length]. replace (S (length l) - 1 <? S (length l))%nat with true
    by (symmetry; apply Nat.ltb_lt; lia).
  f_equal. lia.
Qed.

(** The last entry of the last row of each of the four rotations. *)
Lemma rot90_last_entry (T : Type) (a : list (list T)) (ny nx k : nat) :
  rect2 ny nx a -> (0 < ny)%nat -> (0 < nx)%nat -> (k < 4)%nat ->
  match nth_error (rot90 nx a k) ((if Nat.even k then ny else nx) - 1) with
  | Some row => nth_error row ((if Nat.even k then nx else ny) - 1)
  | None => None
  end
  = match nth_error a (nth k [ny - 1; ny - 1; 0; 0] 0)%nat with
    | Some row => nth_error row (nth k [nx - 1; 0; 0; nx - 1] 0)%nat
    | None => None
    end.
Proof.
  intros [Hlen Hrect] Hny Hnx Hk. unfold rot90.
  pose proof Hrect as Hall. rewrite Forall_forall in Hall.
  destruct k as [|[|[|[|k]]]]; [| | | |lia];
    cbn [Nat.modulo Nat.divmod fst snd Nat.sub Nat.even nth].
  - reflexivity.
  - pose proof (@transpose_entry T nx (map (@rev T) a) (ny - 1) (nx - 1)
                  (map_rev_rect Hrect)) as Ht.
    rewrite Ht, nth_error_map.
    destruct (nth_error a (ny - 1)) as [row|] eqn:Ea; [|reflexivity].
    cbn [option_map]. rewrite <- (Hall row (nth_error_In _ _ Ea)).
    apply rev_last_entry.
  - rewrite nth_error_map. rewrite <- Hlen, rev_last_entry.
    destruct (nth_error a 0) as [row|] eqn:Ea; [|reflexivity].
    cbn [option_map]. rewrite <- (Hall row (nth_error_In _ _ Ea)).
    apply rev_last_entry.
  - rewrite nth_error_map.
    pose proof (@transpose_entry T nx a 0 (nx - 1) Hrect) as Ht.
    pose proof (transpose_rect Hrect) as Hcols. rewrite Forall_forall in Hcols.
    destruct (nth_error (transpose nx a) (nx - 1)) as [col|] eqn:Ec.
    + cbn [option_map]. rewrite <- Ht.
      rewrite <- Hlen, <- (Hcols col (nth_error_In _ _ Ec)).
      apply rev_last_entry.
    + cbn [option_map]. exact Ht.
Qed.

Lemma first_true_spec (l : list bool) (k : nat) :
  first_true l = Ok k -> nth_error l k = Some true.
Proof.
  revert k. induction l as [|b l IH]; intros k H; [discriminate|].
  destruct b; cbn in H.
  - now injection H as <-.
  - destruct (first_true l) as [k'|e]; [|discriminate].
    cbn in H. injection H as <-. now apply IH.
Qed.

(** X15. In the parity check, the quarter turns applied to [spotbooleans] bring
    the dim corner that was found to the last row and last column: the entry
    [[-1, -1]] of [spotbooleans_rotated] is true. *)
Theorem parity_rotation_dim_corner_last (spotbooleans : list (list bool))
  (ny nx : nat) (corners : list bool) (rotation_parity : nat) :
  rect2 ny nx spotbooleans ->
  corners_of spotbooleans ny nx = Ok corners ->
  first_true corners = Ok rotation_parity ->
  getitem2 (rot90 nx spotbooleans rotation_parity)
           (if Nat.even rotation_parity then ny else nx)
           (if Nat.even rotation_parity then nx else ny) (-1) (-1) = Ok true.
Proof.
  intros Hrect Hcorners Hfirst.
  unfold corners_of in Hcorners. cbn [mapM fst snd] in Hcorners.
  destruct (getitem2 spotbooleans ny nx (-1) (-1)) as [c0|] eqn:E0;
    [|discriminate].
  assert (Hny : (0 < ny)%nat).
  { unfold getitem2 in E0. destruct (norm_index ny (-1)) as [y|] eqn:Ey;
      [|discriminate]. eapply norm_index_last_ok; exact Ey. }
  assert (Hnx : (0 < nx)%nat).
  { unfold getitem2 in E0. destruct (norm_index ny (-1)) as [y|];
      [|discriminate]. cbn [Py.bind] in E0.
    destruct (norm_index nx (-1)) as [x|] eqn:Ex; [|discriminate].
    eapply norm_index_last_ok; exact Ex. }
  destruct (getitem2 spotbooleans ny nx (-1) 0) as [c1|] eqn:E1; [|discriminate].
  destruct (getitem2 spotbooleans ny nx 0 0) as [c2|] eqn:E2; [|discriminate].
  destruct (getitem2 spotbooleans ny nx 0 (-1)) as [c3|] eqn:E3; [|discriminate].
  injection Hcorners as <-.
  pose proof (first_true_spec _ Hfirst) as Hk.
  assert (Hlt : (rotation_parity < 4)%nat).
  { change 4%nat with (length [c0; c1; c2; c3]). apply nth_error_Some.
    congruence. }
  rewrite (@getitem2_at bool spotbooleans ny nx _ _ _ _
             (norm_index_last Hny) (norm_index_last Hnx))
    in E0.
  rewrite (@getitem2_at bool spotbooleans ny nx _ _ _ _
             (norm_index_last Hny) (norm_index_first Hnx))
    in E1.
  rewrite (@getitem2_at bool spotbooleans ny nx _ _ _ _
             (norm_index_first Hny) (norm_index_first Hnx))
    in E2.
  rewrite (@getitem2_at bool spotbooleans ny nx _ _ _ _
             (norm_index_first Hny) (norm_index_last Hnx))
    in E3.
  assert (Hh : (0 < (if Nat.even rotation_parity then ny else nx))%nat)
    by now destruct (Nat.even rotation_parity).
  assert (Hw : (0 < (if Nat.even rotation_parity then nx else ny))%nat)
    by now destruct (Nat.even rotation_parity).
  rewrite (@getitem2_at bool (rot90 nx spotbooleans rotation_parity) _ _ _ _ _ _
             (norm_index_last Hh) (norm_index_last Hw)).
  rewrite (rot90_last_entry Hrect Hny Hnx Hlt).
  destruct rotation_parity as [|[|[|[|k]]]]; [| | | |lia]; cbn [nth];
    cbn [nth_error] in Hk; injection Hk as ->.
  - destruct (match nth_error spotbooleans (ny - 1) with
              | Some row => nth_error row (nx - 1)
              | None => None
              end); congruence.
  - destruct (match nth_error spotbooleans (ny - 1) with
              | Some row => nth_error row 0
              | None => None
              end); congruence.
  - destruct (match nth_error spotbooleans 0 with
              | Some row => nth_error row 0
              | None => None
              end); congruence.
  - destruct (match nth_error spotbooleans 0 with
              | Some row => nth_error row (nx - 1)
              | None => None
              end); congruence.
Qed.

Lemma parity_rotation_dim_corner_last_witness :
  getitem2 (rot90 3 [[false; false; false]; [true; true; false]] 1)
           3 2 (-1) (-1) = Ok true.
Proof.
  apply (@parity_rotation_dim_corner_last
           [[false; false; false]; [true; true; false]] 2 3
           [false; true; false; false] 1).
  - split; [reflexivity | repeat constructor].
  - reflexivity.
  - reflexivity.
Defined.

(** ** Conversion to 8 bits *)

Lemma fold_fmin_fin (l : list npfloat) (a : Q) :
  Forall (fun p => is_nan p = false) l ->
  exists m, fold_left fmin l (Fin a) = Fin m /\ m <= a /\
            (forall q, In (Fin q) l -> m <= q) /\
            (m = a \/ In (Fin m) l).
Proof.
  intros Hfin. revert a. induction Hfin as [|p l Hp Hfin IH]; intros a.
  - exists a. repeat split; [apply Qle_refl | intros q [] | now left].
  - destruct p as [|b]; [discriminate|]. cbn [fold_left fmin].
    destruct (Qle_bool b a) eqn:Eb.
    + apply Qle_bool_iff in Eb.
      destruct (IH b) as [m [Hm [Hle [Hall Hin]]]].
      exists m. repeat split; [exact Hm | lra | |].
      * intros q [Hq|Hq]; [injection Hq as <-; exact Hle | now apply Hall].
      * right. destruct Hin as [->|Hin]; [now left | now right].
    + assert (Hab : a < b).
      { apply Qnot_le_lt. intros Hle. apply Qle_bool_iff in Hle. congruence. }
      destruct (IH a) as [m [Hm [Hle [Hall Hin]]]].
      exists m. repeat split; [exact Hm | exact Hle | |].
      * intros q [Hq|Hq]; [injection Hq as <-; lra | now apply Hall].
      * destruct Hin as [->|Hin]; [now left | right; now right].
Qed.

Lemma fold_fmax_fin (l : list npfloat) (a : Q) :
  Forall (fun p => is_nan p = false) l ->
  exists m, fold_left fmax l (Fin a) = Fin m /\ a <= m /\
            (forall q, In (Fin q) l -> q <= m) /\
            (m = a \/ In (Fin m) l).
Proof.
  intros Hfin. revert a. induction Hfin as [|p l Hp Hfin IH]; intros a.
  - exists a. repeat split; [apply Qle_refl | intros q [] | now left].
  - destruct p as [|b]; [discriminate|]. cbn [fold_left fmax].
    destruct (Qle_bool a b) eqn:Eb.
    + apply Qle_bool_iff in Eb.
      destruct (IH b) as [m [Hm [Hle [Hall Hin]]]].
      exists m. repeat split; [exact Hm | lra | |].
      * intros q [Hq|Hq]; [injection Hq as <-; exact Hle | now apply Hall].
      * right. destruct Hin as [->|Hin]; [now left | now right].
    + assert (Hab : b < a).
      { apply Qnot_le_lt. intros Hle. apply Qle_bool_iff in Hle. congruence. }
      destruct (IH a) as [m [Hm [Hle [Hall Hin]]]].
      exists m. repeat split; [exact Hm | exact Hle | |].
      * intros q [Hq|Hq]; [injection Hq as <-; lra | now apply Hall].
      * destruct Hin as [->|Hin]; [now left | right; now right].
Qed.

(** The lowest and the highest value of a non-empty array without
    not-a-number. *)
Lemma famin_fin (l : list npfloat) :
  l <> [] -> Forall (fun p => is_nan p = false) l ->
  exists m, famin l = Ok (Fin m) /\ In (Fin m) l /\
            forall q, In (Fin q) l -> m <= q.
Proof.
  intros Hne Hfin. destruct l as [|p l]; [congruence|].
  inversion Hfin as [|? ? Hp Hl]; subst.
  destruct p as [|a]; [discriminate|].
  destruct (@fold_fmin_fin _ a Hl) as [m [Hm [Hle [Hall Hin]]]].
  exists m. cbn [famin]. rewrite Hm. repeat split.
  - destruct Hin as [->|Hin]; [now left | now right].
  - intros q [Hq|Hq]; [injection Hq as <-; exact Hle | now apply Hall].
Qed.

Lemma famax_fin (l : list npfloat) :
  l <> [] -> Forall (fun p => is_nan p = false) l ->
  exists m, famax l = Ok (Fin m) /\ In (Fin m) l /\
            forall q, In (Fin q) l -> q <= m.
Proof.
  intros Hne Hfin. destruct l as [|p l]; [congruence|].
  inversion Hfin as [|? ? Hp Hl]; subst.
  destruct p as [|a]; [discriminate|].
  destruct (@fold_fmax_fin _ a Hl) as [m [Hm [Hle [Hall Hin]]]].
  exists m. cbn [famax]. rewrite Hm. repeat split.
  - destruct Hin as [->|Hin]; [now left | now right].
  - intros q [Hq|Hq]; [injection Hq as <-; exact Hle | now apply Hall].
Qed.

Lemma shifted_pixels (img : list (list npfloat)) (lo : Q) :
  concat (map (map (fun p => sub p (Fin lo))) img)
  = map (fun p => sub p (Fin lo)) (concat img).
Proof. symmetry. apply concat_map. Qed.

Lemma shifted_fin (l : list npfloat) (lo : Q) :
  Forall (fun p => is_nan p = false) l ->
  Forall (fun p => is_nan p = false) (map (fun p => sub p (Fin lo)) l).
Proof.
  intros Hfin. apply Forall_map. eapply Forall_impl; [|exact Hfin].
  intros [|q] Hq; [discriminate | reflexivity].
Qed.

Lemma in_shifted (l : list npfloat) (lo v : Q) :
  In (Fin v) (map (fun p => sub p (Fin lo)) l) ->
  exists q, In (Fin q) l /\ v = q - lo.
Proof.
  intros Hin. apply in_map_iff in Hin. destruct Hin as [[|q] [Hv Hq]];
    [discriminate|].
  exists q. split; [exact Hq | now injection Hv as <-].
Qed.

Lemma floor_unit_scale (t : Q) :
  0 <= t -> t <= 1 ->
  (0 <= Qfloor (t * 255) <= 255)%Z.
Proof.
  intros H0 H1. split.
  - rewrite <- (Qfloor_Z 0). apply Qfloor_resp_le.
    change (inject_Z 0) with 0%Q. lra.
  - assert (H : (Qfloor (t * 255) <= Qfloor (inject_Z 255))%Z).
    { apply Qfloor_resp_le. change (inject_Z 255) with 255%Q. lra. }
    now rewrite Qfloor_Z in H.
Qed.

Section Make8bitProperties.

Variable cast_undefined : npfloat -> Z.

(** The value of a pixel after the scaling, for a finite lowest value [lo] and
    a positive range [hi]. *)
Lemma scaled_pixel (q lo hi : Q) :
  0 < hi ->
  astype_uint8 cast_undefined
    (mul (div (sub (Fin q) (Fin lo)) (Fin hi)) (of_Q (2 ^ 8 - 1)))
  = astype_uint8 cast_undefined (Fin ((q - lo) / hi * 255)).
Proof.
  intros Hhi. cbn [sub mul div of_Q exact lift2 npdiv].
  destruct (Qeq_bool hi 0) eqn:E.
  - apply Qeq_bool_iff in E. lra.
  - reflexivity.
Qed.

Lemma astype_uint8_unit_scale (t : Q) :
  0 <= t -> t <= 1 ->
  astype_uint8 cast_undefined (Fin (t * 255)) = Qfloor (t * 255).
Proof.
  intros H0 H1. pose proof (@floor_unit_scale t H0 H1) as [Hlo Hhi].
  unfold astype_uint8, astype_int.
  replace (Qle_bool 0 (t * 255)) with true
    by (symmetry; apply Qle_bool_iff; lra).
  replace ((0 <=? Qfloor (t * 255))%Z) with true
    by (symmetry; apply Z.leb_le; exact Hlo).
  replace ((Qfloor (t * 255) <? 256)%Z) with true
    by (symmetry; apply Z.ltb_lt; lia).
  reflexivity.
Qed.

(** X16. [_make_8bit] scales to the limits: on an image without not-a-number
    whose pixels are not all equal, it returns an image of the same shape with
    every pixel in [0, 255], a lowest pixel at 0 and a highest pixel at 255;
    no pixel depends on what the conversion to [uint8] leaves undefined. *)
Theorem make_8bit_scales_to_limits (img : list (list npfloat)) :
  Forall (fun p => is_nan p = false) (concat img) ->
  (exists p q, In p (concat img) /\ In q (concat img) /\ ~ feq p q) ->
  exists out,
    _make_8bit cast_undefined img = Ok out /\
    Forall2 (Forall2 (fun p z => (0 <= z <= 255)%Z /\
                                 (is_lowest img p -> z = 0%Z) /\
                                 (is_highest img p -> z = 255%Z))) img out.
Proof.
  intros Hfin [p1 [p2 [Hp1 [Hp2 Hneq]]]].
  assert (Hne : concat img <> []) by (intros E; rewrite E in Hp1; exact Hp1).
  destruct (@famin_fin _ Hne Hfin) as [lo [Hlo [Hlo_in Hlo_le]]].
  unfold _make_8bit. rewrite Hlo. cbn [Py.bind].
  rewrite shifted_pixels.
  assert (Hne' : map (fun p => sub p (Fin lo)) (concat img) <> []).
  { intros E. apply map_eq_nil in E. contradiction. }
  destruct (@famax_fin _ Hne' (@shifted_fin _ lo Hfin)) as [hi [Hhi [Hhi_in Hhi_le]]].
  rewrite Hhi. cbn [Py.bind].
  destruct (@in_shifted _ _ _ Hhi_in) as [top [Htop_in Htop]].
  assert (Hspan : hi == top - lo) by (rewrite Htop; reflexivity).
  assert (Hrange : forall q, In (Fin q) (concat img) ->
                             0 <= q - lo /\ q - lo <= hi).
  { intros q Hq. split.
    - pose proof (Hlo_le q Hq). lra.
    - apply Hhi_le. apply in_map_iff. exists (Fin q). now split. }
  assert (Hpos : 0 < hi).
  { apply Qnot_le_lt. intros Hle. apply Hneq.
    rewrite Forall_forall in Hfin.
    pose proof (Hfin p1 Hp1) as F1. pose proof (Hfin p2 Hp2) as F2.
    destruct p1 as [|q1]; [discriminate|]. destruct p2 as [|q2]; [discriminate|].
    destruct (Hrange q1 Hp1), (Hrange q2 Hp2). cbn [feq]. lra. }
  eexists. split; [reflexivity|].
  rewrite !map_map.
  apply Forall2_map_r_In. intros row Hrow.
  rewrite !map_map.
  apply Forall2_map_r_In. intros p Hp.
  assert (Hin : In p (concat img)).
  { apply in_concat. exists row. now split. }
  rewrite Forall_forall in Hfin. pose proof (Hfin p Hin) as Fp.
  destruct p as [|q]; [discriminate|].
  rewrite (@scaled_pixel q lo hi Hpos).
  destruct (Hrange q Hin) as [Hq0 Hq1].
  assert (Ht0 : 0 <= (q - lo) / hi).
  { apply Qle_shift_div_l; [exact Hpos | lra]. }
  assert (Ht1 : (q - lo) / hi <= 1).
  { apply Qle_shift_div_r; [exact Hpos | lra]. }
  rewrite (@astype_uint8_unit_scale _ Ht0 Ht1).
  split; [exact (@floor_unit_scale _ Ht0 Ht1)|]. split.
  - intros Hlowest. pose proof (Hlowest (Fin lo) Hlo_in) as Hq. cbn in Hq.
    assert (E : (q - lo) / hi * 255 == inject_Z 0).
    { change (inject_Z 0) with 0%Q.
      assert (Et : (q - lo) / hi <= 0)
        by (apply Qle_shift_div_r; [exact Hpos | lra]).
      lra. }
    rewrite (Qfloor_comp _ _ E). apply Qfloor_Z.
  - intros Hhighest. pose proof (Hhighest (Fin top) Htop_in) as Hq. cbn in Hq.
    assert (E : (q - lo) / hi * 255 == inject_Z 255).
    { change (inject_Z 255) with 255%Q.
      assert (Et : 1 <= (q - lo) / hi)
        by (apply Qle_shift_div_l; [exact Hpos | lra]).
      lra. }
    rewrite (Qfloor_comp _ _ E). apply Qfloor_Z.
Qed.

Lemma fold_fmin_nan (l : list npfloat) : fold_left fmin l NaN = NaN.
Proof. induction l as [|p l IH]; [reflexivity | exact IH]. Qed.

Lemma fold_fmin_has_nan (l : list npfloat) (a : npfloat) :
  In NaN l -> fold_left fmin l a = NaN.
Proof.
  revert a. induction l as [|p l IH]; intros a Hin; [destruct Hin|].
  destruct Hin as [Hp|Hp].
  - subst p. cbn [fold_left].
    replace (fmin a NaN) with NaN by now destruct a.
    apply fold_fmin_nan.
  - cbn [fold_left]. now apply IH.
Qed.

Lemma fold_fmax_nan (l : list npfloat) : fold_left fmax l NaN = NaN.
Proof. induction l as [|p l IH]; [reflexivity | exact IH]. Qed.

Lemma famax_all_nan (l : list npfloat) :
  l <> [] -> Forall (fun p => p = NaN) l -> famax l = Ok NaN.
Proof.
  intros Hne Hall. destruct l as [|p l]; [congruence|].
  inversion Hall as [|? ? Hp Hl]; subst. cbn [famax].
  now rewrite fold_fmax_nan.
Qed.

(** X17. One not-a-number pixel spoils the whole conversion: every pixel of the
    result is what the conversion of not-a-number to [uint8] gives. *)
Theorem make_8bit_nan_everywhere (img : list (list npfloat)) :
  In NaN (concat img) ->
  _make_8bit cast_undefined img
  = Ok (map (map (fun _ => cast_undefined NaN)) img).
Proof.
  intros Hnan. unfold _make_8bit.
  assert (Hlo : famin (concat img) = Ok NaN).
  { destruct (concat img) as [|p l] eqn:E; [contradiction|]. cbn [famin].
    destruct Hnan as [->|Hnan];
      [now rewrite fold_fmin_nan | now rewrite fold_fmin_has_nan]. }
  rewrite Hlo. cbn [Py.bind].
  assert (Hhi : famax (concat (map (map (fun p => sub p NaN)) img)) = Ok NaN).
  { rewrite <- concat_map. apply famax_all_nan.
    - intros E. apply map_eq_nil in E. rewrite E in Hnan. exact Hnan.
    - apply Forall_map, Forall_forall. intros p _. now destruct p. }
  rewrite Hhi. cbn [Py.bind]. f_equal.
  rewrite !map_map. apply map_ext. intros row.
  rewrite !map_map. apply map_ext. intros p. now destruct p.
Qed.

(** X18. A constant image is not scaled: the division is zero by zero at every
    pixel, and every pixel of the result is what the conversion of
    not-a-number to [uint8] gives. *)
Theorem make_8bit_constant_image (img : list (list npfloat)) (c : Q) :
  concat img <> [] ->
  Forall (fun p => feq p (Fin c)) (concat img) ->
  _make_8bit cast_undefined img
  = Ok (map (map (fun _ => cast_undefined NaN)) img).
Proof.
  intros Hne Hconst.
  assert (Hfin : Forall (fun p => is_nan p = false) (concat img)).
  { eapply Forall_impl; [|exact Hconst]. intros [|q] Hq; [destruct Hq|].
    reflexivity. }
  assert (Hc : forall q, In (Fin q) (concat img) -> q == c).
  { intros q Hq. rewrite Forall_forall in Hconst. exact (Hconst _ Hq). }
  destruct (@famin_fin _ Hne Hfin) as [lo [Hlo [Hlo_in Hlo_le]]].
  unfold _make_8bit. rewrite Hlo. cbn [Py.bind].
  rewrite shifted_pixels.
  assert (Hne' : map (fun p => sub p (Fin lo)) (concat img) <> []).
  { intros E. apply map_eq_nil in E. contradiction. }
  destruct (@famax_fin _ Hne' (@shifted_fin _ lo Hfin)) as [hi [Hhi [Hhi_in Hhi_le]]].
  rewrite Hhi. cbn [Py.bind].
  destruct (@in_shifted _ _ _ Hhi_in) as [top [Htop_in Htop]].
  assert (Hspan : hi == top - lo) by (rewrite Htop; reflexivity).
  assert (Hzero : hi == 0).
  { pose proof (Hc _ Htop_in). pose proof (Hc _ Hlo_in). lra. }
  f_equal. rewrite !map_map. apply map_ext. intros row.
  rewrite !map_map. apply map_ext. intros p.
  destruct p as [|q]; [reflexivity|].
  cbn [sub mul div of_Q exact lift2 npdiv].
  apply Qeq_bool_iff in Hzero. now rewrite Hzero.
Qed.

End Make8bitProperties.

Lemma make_8bit_scales_to_limits_witness :
  exists out,
    _make_8bit (fun _ => 0%Z) [[Fin 1; Fin 3]; [Fin 2; Fin 5]] = Ok out /\
    Forall2 (Forall2 (fun p z =>
                        (0 <= z <= 255)%Z /\
                        (is_lowest [[Fin 1; Fin 3]; [Fin 2; Fin 5]] p -> z = 0%Z) /\
                        (is_highest [[Fin 1; Fin 3]; [Fin 2; Fin 5]] p
                         -> z = 255%Z)))
            [[Fin 1; Fin 3]; [Fin 2; Fin 5]] out.
Proof.
  apply (@make_8bit_scales_to_limits (fun _ => 0%Z)
           [[Fin 1; Fin 3]; [Fin 2; Fin 5]]).
  - repeat constructor.
  - exists (Fin 1), (Fin 3). split; [now left|]. split; [right; now left|].
    cbn. intros H. discriminate H.
Defined.

Lemma make_8bit_nan_everywhere_witness :
  _make_8bit (fun _ => 0%Z) [[Fin 1; NaN]; [Fin 2; Fin 5]]
  = Ok (map (map (fun _ => 0%Z)) [[Fin 1; NaN]; [Fin 2; Fin 5]]).
Proof.
  apply (@make_8bit_nan_everywhere (fun _ => 0%Z)
           [[Fin 1; NaN]; [Fin 2; Fin 5]]).
  cbn. right. now left.
Defined.

Lemma make_8bit_constant_image_witness :
  _make_8bit (fun _ => 0%Z) [[Fin 7; Fin 7]; [Fin 7; Fin 7]]
  = Ok (map (map (fun _ => 0%Z)) [[Fin 7; Fin 7]; [Fin 7; Fin 7]]).
Proof.
  apply (@make_8bit_constant_image (fun _ => 0%Z)
           [[Fin 7; Fin 7]; [Fin 7; Fin 7]] 7).
  - discriminate.
  - repeat constructor.
Defined.

(** ** The shift of the trial functions *)

Lemma feq_sub (x x' y y' : npfloat) :
  feq x x' -> feq y y' -> feq (sub x y) (sub x' y').
Proof.
  destruct x, x', y, y'; simpl; try tauto. intros Hx Hy. now rewrite Hx, Hy.
Qed.

(** A sum of terms [b - c * t] is the sum of the [b] minus [c] times the sum of
    the [t]. *)
Lemma sum_shift (A : Type) (l : list A) (fa fb ft : A -> npfloat) (c : Q) :
  (forall x, In x l -> feq (fa x) (sub (fb x) (mul (Fin c) (ft x)))) ->
  feq (Np.sum (map fa l))
      (sub (Np.sum (map fb l)) (mul (Fin c) (Np.sum (map ft l)))).
Proof.
  induction l as [|a l IH]; intros H.
  - cbn. ring.
  - cbn [map].
    eapply feq_trans; [apply sum_cons_feq|].
    eapply feq_trans;
      [apply feq_add; [apply H; now left | apply IH; intros x Hx; apply H; now right]|].
    eapply feq_trans;
      [|apply feq_sub;
        [apply feq_sym, sum_cons_feq
        |apply feq_mul; [apply feq_refl | apply feq_sym, sum_cons_feq]]].
    destruct (fb a), (ft a), (Np.sum (map fb l)), (Np.sum (map ft l)); cbn;
      try exact I. ring.
Qed.

Lemma combine_map_r (A B C : Type) (f : B -> C) (l : list A) (l' : list B) :
  combine l (map f l') = map (fun p => (fst p, f (snd p))) (combine l l').
Proof.
  revert l'. induction l as [|a l IH]; intros [|b l']; cbn; [reflexivity..|].
  now rewrite IH.
Qed.

Lemma map_fst_combine (A B C : Type) (g : A -> C) (l : list A) (l' : list B) :
  length l = length l' ->
  map g l = map (fun p => g (fst p)) (combine l l').
Proof.
  revert l'. induction l as [|a l IH]; intros [|b l'] Hlen; cbn in *;
    try discriminate; [reflexivity|].
  f_equal. apply IH. lia.
Qed.

Section Shift.

(** What the sum does to a term: nothing for [np.sum], not-a-number to zero
    for [np.nansum]. *)
Variable g : npfloat -> npfloat.

Hypothesis g_shift : forall (p : npfloat) (r c : Q),
  feq (g (mul p (Fin (r - c))))
      (sub (g (mul p (Fin (r - 0)))) (mul (Fin c) (g p))).

Lemma row_shift (row : list npfloat) (w m : nat) (c : Q) :
  length row = w ->
  feq (Np.sum (map g (map (fun pe : npfloat * npfloat => mul (fst pe) (snd pe))
                          (combine row (trial_edge w m c)))))
      (sub (Np.sum (map g (map (fun pe : npfloat * npfloat =>
                                  mul (fst pe) (snd pe))
                               (combine row (trial_edge w m 0)))))
           (mul (Fin c) (Np.sum (map g row)))).
Proof.
  intros Hlen. unfold trial_edge.
  rewrite !combine_map_r, !map_map.
  rewrite (@map_fst_combine npfloat Z npfloat g row (arange w))
    by (unfold arange; now rewrite length_map, length_seq).
  apply sum_shift. intros [p i] _. cbn [fst snd].
  change (div (of_Q (inject_Z (Z.of_nat w - 1))) (of_Q 2))
    with (Fin (inject_Z (Z.of_nat w - 1) / 2)).
  change (sub (of_Q (inject_Z i)) (Fin (inject_Z (Z.of_nat w - 1) / 2)))
    with (Fin (inject_Z i - inject_Z (Z.of_nat w - 1) / 2)).
  destruct (power_fin (inject_Z i - inject_Z (Z.of_nat w - 1) / 2) m) as [r ->].
  apply g_shift.
Qed.

Lemma image_shift (img : list (list npfloat)) (w m : nat) (c : Q) :
  Forall (fun row => length row = w) img ->
  feq (Np.sum (map g (concat (times_edge_x img (trial_edge w m c)))))
      (sub (Np.sum (map g (concat (times_edge_x img (trial_edge w m 0)))))
           (mul (Fin c) (Np.sum (map g (concat img))))).
Proof.
  intros Hrows. rewrite !concat_map. unfold times_edge_x. rewrite !map_map.
  eapply feq_trans; [apply sum_concat_feq|].
  eapply feq_trans;
    [|apply feq_sub;
      [apply feq_sym, sum_concat_feq
      |apply feq_mul; [apply feq_refl | apply feq_sym, sum_concat_feq]]].
  rewrite !map_map. apply sum_shift. intros row Hrow.
  rewrite Forall_forall in Hrows. apply row_shift. now apply Hrows.
Qed.

End Shift.

Lemma np_sum_shift (nansum : bool) (img : list (list npfloat)) (w m : nat)
  (c : Q) :
  Forall (fun row => length row = w) img ->
  feq (np_sum nansum (concat (times_edge_x img (trial_edge w m c))))
      (sub (np_sum nansum (concat (times_edge_x img (trial_edge w m 0))))
           (mul (Fin c) (np_sum nansum (concat img)))).
Proof.
  intros Hrows. destruct nansum; unfold np_sum.
  - unfold Np.nansum.
    apply (@image_shift (fun x : npfloat => if is_nan x then of_Q 0 else x));
      [|exact Hrows].
    intros [|p] r c0; cbn; ring.
  - assert (Hg : forall (p : npfloat) (r c0 : Q),
               feq (mul p (Fin (r - c0)))
                   (sub (mul p (Fin (r - 0))) (mul (Fin c0) p)))
      by (intros [|p] r c0; cbn; [exact I | ring]).
    pose proof (@image_shift (fun x : npfloat => x) Hg img w m c Hrows) as H.
    rewrite !map_id in H. exact H.
Qed.

(** X19. The shift [centers] is subtracted from the trial function after the
    power is taken.  In exact arithmetic (rationals and not-a-number: on
    binary64 numbers the two sides agree up to rounding only), without
    normalization, the x moment of order [m] with centers [(c_x, c_y)] is the
    moment with centers [(0, 0)] minus [c_x] times the total of the image. *)
Theorem image_moment_center_shift (h w : nat) (stack : list (list (list npfloat)))
  (m : nat) (c_x c_y : Q) (nansum : bool) (i : nat) (img : list (list npfloat)) :
  Forall (rect2 h w) stack -> nth_error stack i = Some img ->
  exists out out0 v v0,
    image_moment (Img3 stack) (m, 0)%nat (CenterPair c_x c_y) false nansum
    = Ok out /\
    image_moment (Img3 stack) (m, 0)%nat (CenterPair 0 0) false nansum
    = Ok out0 /\
    nth_error out i = Some v /\ nth_error out0 i = Some v0 /\
    feq v (sub v0 (mul (Fin c_x) (np_sum nansum (concat img)))).
Proof.
  intros Hall Hi. unfold image_moment.
  cbn [as_stack Py.bind centers_per_image snd fst Nat.eqb].
  rewrite !per_image_repeat.
  do 4 eexists. split; [reflexivity|]. split; [reflexivity|].
  split; [apply map_nth_error; exact Hi|].
  split; [apply map_nth_error; exact Hi|].
  cbn [fst].
  pose proof (@np_sum_shift nansum img (length (hd [] (hd [] stack))) m c_x
                (@stack_row_width h w stack img Hall (nth_error_In _ _ Hi)))
    as Hshift.
  match goal with
  | |- feq (mul ?S _) (sub (mul ?S0 _) ?R) =>
      eapply feq_trans with (y := S);
      [destruct S; cbn; [exact I | ring]|];
      eapply feq_trans; [exact Hshift|];
      apply feq_sub; [|apply feq_refl];
      destruct S0; cbn; [exact I | ring]
  end.
Qed.

(** The statement for the first moment of [[1, 2], [3, 4]] with the shift one
    tenth, a number that binary64 does not hold exactly. *)
Lemma image_moment_center_shift_witness :
  exists out out0 v v0,
    image_moment (Img3 [[[Fin 1; Fin 2]; [Fin 3; Fin 4]]]) (1, 0)%nat
                 (CenterPair (1 # 10) 7) false false = Ok out /\
    image_moment (Img3 [[[Fin 1; Fin 2]; [Fin 3; Fin 4]]]) (1, 0)%nat
                 (CenterPair 0 0) false false = Ok out0 /\
    nth_error out 0 = Some v /\ nth_error out0 0 = Some v0 /\
    feq v (sub v0 (mul (Fin (1 # 10))
                       (np_sum false (concat [[Fin 1; Fin 2]; [Fin 3; Fin 4]])))).
Proof.
  apply (@image_moment_center_shift 2 2 [[[Fin 1; Fin 2]; [Fin 3; Fin 4]]]
           1 (1 # 10) 7 false 0 [[Fin 1; Fin 2]; [Fin 3; Fin 4]]).
  - repeat constructor.
  - reflexivity.
Defined.
